(** * sensitivity_torch/extras/optimization.py: the SQP minimizer

    A shallow embedding of [_linesearch], [_positive_factorization_cholesky],
    [_positive_factorization_lobpcg] and [minimize_sqp], and the properties
    of the Hessian regularizer, the line search and the Newton-step driver.

    Scalars are IEEE-754 binary64 values (Python floats; tensors are taken
    at dtype float64), with the executable operations of the Standard
    Library's [SpecFloat].  Tensors are a shape and row-major data.  The
    operations of the torch library (Cholesky, eigenvalues, norms, ...) are
    not part of the repository: they are the fields of a record [torch_ops]
    that every definition takes as a parameter.  Calls to the caller's
    functions are recorded in an event log.

    The last module, [Agd], embeds the driver [minimize_agd] over the
    optimizer of the torch library in the same way. *)

From Stdlib Require Import String.
From Stdlib Require Import ZArith List Bool Lia PeanoNat.
From Stdlib Require Import SpecFloat.
Import ListNotations.
Local Open Scope string_scope.
Local Open Scope nat_scope.
Local Open Scope list_scope.

(** ** Binary64 scalars *)

Module F64.

Definition float := spec_float.

Definition prec : Z := 53.
Definition emax : Z := 1024.

Definition mul : float -> float -> float := SFmul prec emax.
Definition add : float -> float -> float := SFadd prec emax.
Definition div : float -> float -> float := SFdiv prec emax.
Definition sub : float -> float -> float := SFsub prec emax.
Definition sqrt : float -> float := SFsqrt prec emax.
Definition opp : float -> float := SFopp.
Definition abs : float -> float := SFabs.

(** Python's [a < b], [a == b], [a <= b], [a >= b]: all false on NaN. *)
Definition ltb : float -> float -> bool := SFltb.
Definition eqb : float -> float -> bool := SFeqb.
Definition leb : float -> float -> bool := SFleb.
Definition geb (a b : float) : bool := SFleb b a.
Definition gtb (a b : float) : bool := SFltb b a.

Definition is_nan (a : float) : bool :=
  match a with S754_nan => true | _ => false end.

Definition zero : float := S754_zero false.
Definition inf : float := S754_infinity false.
Definition nan : float := S754_nan.

(** The literals of the source, as binary64 values [m * 2^e]. *)
Definition one : float := S754_finite false 4503599627370496 (-52).
Definition two : float := S754_finite false 4503599627370496 (-51).
Definition five : float := S754_finite false 5629499534213120 (-50).
Definition ten : float := S754_finite false 5629499534213120 (-49).
Definition minus_one : float := S754_finite true 4503599627370496 (-52).
Definition minus_two : float := S754_finite true 4503599627370496 (-51).
(** [0.99e7] *)
Definition c_0_99e7 : float := S754_finite false 5315022028800000 (-29).
(** [1e-9] *)
Definition c_1e_9 : float := S754_finite false 4835703278458517 (-82).
(** [1e-7] *)
Definition c_1e_7 : float := S754_finite false 7555786372591432 (-76).
(** [1e-3] *)
Definition c_1e_3 : float := S754_finite false 4611686018427388 (-62).

(** Python's builtin [max(a, b)]: the second argument replaces the first
    only when it compares greater. *)
Definition py_max (a b : float) : float := if gtb b a then b else a.

End F64.

Import F64.

(** ** Tensors *)

(** A tensor is its shape and its entries in row-major order. *)
Record tensor : Type := mkT { shape : list nat; data : list float }.

Definition numel_of (s : list nat) : nat := fold_right Nat.mul 1 s.

(** [x.numel()] *)
Definition numel (t : tensor) : nat := numel_of (shape t).

(** Every torch tensor holds as many entries as its shape says. *)
Definition wf_tensor (t : tensor) : bool :=
  length (data t) =? numel_of (shape t).

(** [torch.any(torch.isnan(t))] *)
Definition any_nan (l : list float) : bool := existsb is_nan l.

Definition shape_eqb (s1 s2 : list nat) : bool :=
  if list_eq_dec Nat.eq_dec s1 s2 then true else false.

(** *** Exceptions, outcomes and the event log *)

Inductive exn : Type :=
| ValueError (msg : string)
| RuntimeError (msg : string)
| IndexError (msg : string)
| TypeError (msg : string).

(** The three ways a computation ends: a value, a raised exception, or
    the [while True] loop of the regularizer still running when the fuel
    is spent. *)
Inductive outcome (A : Type) : Type :=
| Ret (a : A)
| Raise (e : exn)
| OutOfFuel.

Arguments Ret {A} a.
Arguments Raise {A} e.
Arguments OutOfFuel {A}.

Definition obind {A B} (c : outcome A) (k : A -> outcome B) : outcome B :=
  match c with
  | Ret a => k a
  | Raise e => Raise e
  | OutOfFuel => OutOfFuel
  end.

Notation "x <-- c ;; k" := (obind c (fun x => k))
  (at level 61, c at next level, right associativity).
Notation "' pat <-- c ;; k" := (obind c (fun x => match x with pat => k end))
  (at level 61, pat pattern, c at next level, right associativity).

(** [or_raise e o]: the value of [o], or the exception [e]. *)
Definition or_raise {A} (e : exn) (o : option A) : outcome A :=
  match o with Some a => Ret a | None => Raise e end.

Fixpoint omapM {A B} (f : A -> outcome B) (l : list A) : outcome (list B) :=
  match l with
  | [] => Ret []
  | a :: l' => b <-- f a ;; bs <-- omapM f l' ;; Ret (b :: bs)
  end.

(** What the caller can observe of a run: the calls made to the functions
    it supplied, in order. *)
Inductive event : Type :=
| CallF (x : tensor)
| CallG (x : tensor)
| CallH (x : tensor)
| Callback (x : tensor)
| Breakpoint.

Definition log := list event.

(** Computations that call back into the caller's functions. *)
Definition Comp (A : Type) : Type := log -> outcome A * log.

Definition ret {A} (a : A) : Comp A := fun l => (Ret a, l).
Definition raise {A} (e : exn) : Comp A := fun l => (Raise e, l).
Definition lift {A} (c : outcome A) : Comp A := fun l => (c, l).
Definition emit (ev : event) : Comp unit := fun l => (Ret tt, l ++ [ev]).

Definition bind {A B} (c : Comp A) (k : A -> Comp B) : Comp B :=
  fun l =>
    match c l with
    | (Ret a, l') => k a l'
    | (Raise e, l') => (Raise e, l')
    | (OutOfFuel, l') => (OutOfFuel, l')
    end.

Notation "x <- c ;; k" := (bind c (fun x => k))
  (at level 61, c at next level, right associativity).
Notation "' pat <- c ;; k" := (bind c (fun x => match x with pat => k end))
  (at level 61, pat pattern, c at next level, right associativity).

Fixpoint mapM {A B} (f : A -> Comp B) (l : list A) : Comp (list B) :=
  match l with
  | [] => ret []
  | a :: l' => b <- f a ;; bs <- mapM f l' ;; ret (b :: bs)
  end.

(** *** Tensor operations of the source *)

Definition shape_error : exn := RuntimeError "shape mismatch".
Definition index_error : exn := IndexError "index out of range".

(** [t.reshape(s)]: the entries are kept, their number must fit. *)
Definition reshape (t : tensor) (s : list nat) : outcome tensor :=
  if length (data t) =? numel_of s then Ret (mkT s (data t))
  else Raise shape_error.

(** A size as [minimize_sqp] computes it: an integer, or a float. *)
Inductive np_size : Type :=
| IntSize (n : nat)
| FloatSize (v : float).

Definition type_error : exn :=
  TypeError "reshape(): argument 'shape' must be tuple of ints".

(** [t.reshape((M,) + s)]: a float among the sizes is refused. *)
Definition reshape_batch (t : tensor) (M : nat) (s : list np_size)
  : outcome tensor :=
  dims <-- omapM (fun d => match d with
                           | IntSize n => Ret n
                           | FloatSize _ => Raise type_error
                           end) s ;;
  reshape t (M :: dims).

(** Broadcasting of two shapes, aligned at their last dimension. *)
Definition pad_shape (r : nat) (s : list nat) : list nat :=
  repeat 1 (r - length s) ++ s.

Fixpoint bshape (sa sb : list nat) : option (list nat) :=
  match sa, sb with
  | [], [] => Some []
  | a :: sa', b :: sb' =>
    match bshape sa' sb' with
    | None => None
    | Some s =>
      if a =? b then Some (a :: s)
      else if a =? 1 then Some (b :: s)
      else if b =? 1 then Some (a :: s)
      else None
    end
  | _, _ => None
  end.

(** The multi-index of the [k]-th entry of a tensor of shape [s]. *)
Fixpoint unravel (s : list nat) (k : nat) : list nat :=
  match s with
  | [] => []
  | n :: s' => (k / numel_of s') mod n :: unravel s' (k mod numel_of s')
  end.

(** The position, in a tensor of shape [s], read at multi-index [idx]
    of the broadcast result: a dimension of size one is read at 0. *)
Fixpoint ravel_bc (s idx : list nat) : nat :=
  match s, idx with
  | n :: s', i :: idx' =>
    (if n =? 1 then 0 else i) * numel_of s' + ravel_bc s' idx'
  | _, _ => 0
  end.

(** An elementwise binary operation with broadcasting ([a + b], [a * b]). *)
Definition bcast2 (op : float -> float -> float) (a b : tensor)
  : outcome tensor :=
  let r := Nat.max (length (shape a)) (length (shape b)) in
  let sa := pad_shape r (shape a) in
  let sb := pad_shape r (shape b) in
  match bshape sa sb with
  | None => Raise shape_error
  | Some so =>
    Ret (mkT so
           (map (fun k =>
                   let idx := unravel so k in
                   op (nth (ravel_bc sa idx) (data a) nan)
                      (nth (ravel_bc sb idx) (data b) nan))
                (seq 0 (numel_of so))))
  end.

Definition tensor_add : tensor -> tensor -> outcome tensor := bcast2 add.
Definition tensor_mul : tensor -> tensor -> outcome tensor := bcast2 mul.

(** [c * t] for a scalar [c] (a Python float or a 0-dimensional tensor). *)
Definition scalar_mul (c : float) (t : tensor) : tensor :=
  mkT (shape t) (map (mul c) (data t)).

(** [-t] *)
Definition tensor_neg (t : tensor) : tensor :=
  mkT (shape t) (map opp (data t)).

(** A 1-dimensional tensor. *)
Definition vec (l : list float) : tensor := mkT [length l] l.

(** [t[i, ...]] *)
Definition row (t : tensor) (i : nat) : outcome tensor :=
  match shape t with
  | [] => Raise index_error
  | m :: rest =>
    if i <? m
    then Ret (mkT rest (firstn (numel_of rest)
                               (skipn (i * numel_of rest) (data t))))
    else Raise index_error
  end.

(** [torch.stack(ts)]: a new leading dimension; the list must not be
    empty and the shapes must agree. *)
Definition stack (ts : list tensor) : outcome tensor :=
  match ts with
  | [] => Raise (RuntimeError "stack expects a non-empty TensorList")
  | t :: _ =>
    if forallb (fun u => shape_eqb (shape u) (shape t)) ts
    then Ret (mkT (length ts :: shape t) (concat (map data ts)))
    else Raise shape_error
  end.

(** [torch.stack(cols, 1)] of 1-dimensional tensors: entry [(i, j)] is
    entry [i] of the [j]-th tensor. *)
Definition stack_cols (cols : list (list float)) : outcome (list (list float)) :=
  match cols with
  | [] => Raise (RuntimeError "stack expects a non-empty TensorList")
  | c :: _ =>
    if forallb (fun c' => length c' =? length c) cols
    then Ret (map (fun i => map (fun col => nth i col nan) cols)
                  (seq 0 (length c)))
    else Raise shape_error
  end.

(** [torch.where(torch.isnan(y), inf, y)] on one entry. *)
Definition nan_to_inf (v : float) : float := if is_nan v then inf else v.

(** [torch.cat([f[..., None], y], -1)]: the entries of [f] become the
    first column of [y]. *)
Definition cat_col (f : list float) (y : list (list float))
  : outcome (list (list float)) :=
  if length f =? length y
  then Ret (map (fun p => fst p :: snd p) (combine f y))
  else Raise shape_error.

(** The order of torch's arg-min reduction: [a] at index [ia] stays ahead
    of [b] at index [ib] when it is NaN, or smaller, or equal and earlier. *)
Definition less_or_nan (a b : float) (ia ib : nat) : bool :=
  if is_nan a then (if is_nan b then ia <? ib else true)
  else if eqb a b then ia <? ib else ltb a b.

Fixpoint argmin_from (l : list float) (i : nat) (bi : nat) (bv : float)
  : nat :=
  match l with
  | [] => bi
  | a :: l' =>
    if less_or_nan bv a bi i
    then argmin_from l' (S i) bi bv
    else argmin_from l' (S i) i a
  end.

(** [torch.argmin] along a row: the index of the first minimal entry, a
    NaN counting as minimal; an empty row is an error. *)
Definition argmin (l : list float) : outcome nat :=
  match l with
  | [] => Raise index_error
  | a :: l' => Ret (argmin_from l' 1 0 a)
  end.

(** [torch.min(t)] of all the entries. *)
Definition tensor_min (l : list float) : outcome float :=
  i <-- argmin l ;; Ret (nth i l nan).

(** [H_reg.diagonal(dim1=-2, dim2=-1)[:] += reg] on a copy of [H]. *)
Definition add_diag (H : tensor) (reg : float) : outcome tensor :=
  match rev (shape H) with
  | m :: n :: _ =>
    Ret (mkT (shape H)
             (map (fun p =>
                     let k := fst p mod (n * m) in
                     if k / m =? k mod m then add (snd p) reg else snd p)
                  (combine (seq 0 (length (data H))) (data H))))
  | _ => Raise index_error
  end.

(** ** The torch operations the source relies on *)

Record torch_ops : Type := {
  (** [torch.linspace(start, end, steps)] *)
  linspace : float -> float -> Z -> list float;
  (** [base ** e] *)
  pow : float -> float -> float;
  (** [torch.linalg.cholesky]: [None] when it raises *)
  cholesky : tensor -> option tensor;
  (** [torch.cholesky_solve(b, F)], the right-hand sides as rows of [b] *)
  cholesky_solve : tensor -> tensor -> outcome tensor;
  (** [torch.linalg.eigvals(A).real], flattened *)
  eigvals_real : tensor -> outcome (list float);
  (** [torch.lobpcg(A, k, largest, niter, tol)[0]], flattened *)
  lobpcg : tensor -> Z -> bool -> Z -> float -> outcome (list float);
  (** [torch.norm(d, dim=...)] over the dimensions after the first *)
  norm_rows : tensor -> tensor;
  (** [torch.mean] *)
  mean : tensor -> float
}.

(** ** The program *)

Section Program.

Variable T : torch_ops.

(** The caller's objective, gradient and Hessian.  The objective returns
    a scalar or one loss per batch row; [f_fn] is that result after
    [torch.atleast_1d]. *)
Variable f_fn : tensor -> list float.
Variable g_fn : tensor -> tensor.
Variable h_fn : tensor -> tensor.

Definition call_f (x : tensor) : Comp (list float) :=
  _ <- emit (CallF x) ;; ret (f_fn x).
Definition call_g (x : tensor) : Comp tensor :=
  _ <- emit (CallG x) ;; ret (g_fn x).
Definition call_h (x : tensor) : Comp tensor :=
  _ <- emit (CallH x) ;; ret (h_fn x).

(** *** [_linesearch] *)

(** The candidate multipliers [bets]. *)
Definition ls_candidates (ls_pts_nb : Z) : list float :=
  if (2 <=? ls_pts_nb)%Z
  then map (pow T ten) (linspace T minus_one one ls_pts_nb)
  else [one].

(** [f_fn(x + bet * d)] *)
Definition ls_eval (x d : tensor) (bet : float) : Comp (list float) :=
  p <- lift (tensor_add x (scalar_mul bet d)) ;; call_f p.

(** What [_linesearch] does once the losses [y] of the candidates are
    known: NaN becomes [inf], the zero step is put in front unless a step
    is forced, and each row takes its arg-min. *)
Definition ls_select (force_step : bool) (f : list float)
    (bets : list float) (y : list (list float))
  : outcome (list float * list float) :=
  let y := map (map nan_to_inf) y in
  '(bets, y) <--
     (if force_step then Ret (bets, y)
      else y' <-- cat_col f y ;; Ret (zero :: bets, y')) ;;
  idxs <-- omapM argmin y ;;
  let f_best := map (fun p => nth (snd p) (fst p) nan) (combine y idxs) in
  let bet := map (fun idx => nth idx bets nan) idxs in
  Ret (bet, f_best).

Record ls_data : Type := { d_norm : tensor; f_best : list float }.

Definition _linesearch (f : list float) (x d : tensor)
    (ls_pts_nb : Z) (force_step : bool) : Comp (list float * ls_data) :=
  let bets := ls_candidates ls_pts_nb in
  cols <- mapM (ls_eval x d) bets ;;
  y <- lift (stack_cols cols) ;;
  '(bet, fb) <- lift (ls_select force_step f bets y) ;;
  ret (bet, {| d_norm := norm_rows T d; f_best := fb |}).

(** *** [_positive_factorization_cholesky] *)

(** The body of the [try]: any exception, and a NaN in the factor, lead
    to the [except] branch. *)
Definition try_factor (H : tensor) (reg : float) : option tensor :=
  match add_diag H reg with
  | Ret H_reg =>
    match cholesky T H_reg with
    | Some F => if any_nan (data F) then None else Some F
    | None => None
    end
  | _ => None
  end.

Fixpoint chol_loop (fuel : nat) (H : tensor) (reg : float) (reg_it : Z)
  : outcome (tensor * (Z * float)) :=
  match fuel with
  | O => OutOfFuel
  | S fuel' =>
    match try_factor H reg with
    | Some F => Ret (F, (reg_it, reg))
    | None =>
      let reg_it := (reg_it + 1)%Z in
      let reg := mul reg five in
      if geb reg c_0_99e7 then Raise (RuntimeError "Numerical problems")
      else chol_loop fuel' H reg reg_it
    end
  end.

Definition _positive_factorization_cholesky (H : tensor) (reg0 : float)
    (fuel : nat) : outcome (tensor * (Z * float)) :=
  chol_loop fuel H reg0 0%Z.

(** *** [_positive_factorization_lobpcg] *)

(** The estimate of the lowest eigenvalue. *)
Definition min_eig_estimate (H : tensor) : outcome float :=
  n <-- or_raise index_error (hd_error (rev (shape H))) ;;
  reg <--
    (if n <? 3 then
       H2 <-- reshape H [n; n] ;;
       ev <-- eigvals_real T H2 ;;
       m <-- tensor_min ev ;;
       Ret [m]
     else lobpcg T H 1%Z false 100%Z c_1e_3) ;;
  or_raise index_error (hd_error reg).

Definition initial_shift (lam reg0 : float) : float :=
  py_max (py_max (mul minus_two lam) zero) reg0.

Definition _positive_factorization_lobpcg (H : tensor) (reg0 : float)
    (fuel : nat) : outcome (tensor * (Z * float)) :=
  reg <-- min_eig_estimate H ;;
  _positive_factorization_cholesky H (initial_shift reg reg0) fuel.

(** *** [minimize_sqp] *)

Record config : Type := {
  reg0 : float;
  max_it : Z;
  ls_pts_nb : Z;
  force_step : bool;
  batched : bool;
  full_output : bool;
  (** [callback_fn is not None] *)
  has_callback : bool
}.

(** The defaults of the signature. *)
Definition default_config : config := {|
  reg0 := c_1e_7;
  max_it := 100;
  ls_pts_nb := 5;
  force_step := false;
  batched := false;
  full_output := false;
  has_callback := false
|}.

(** The local variables that live across iterations. *)
Record sqp_state : Type := {
  st_x : tensor;
  st_x_best : tensor;
  st_f_best : list float;
  st_f_hist : list (list float);
  st_x_hist : list tensor
}.

(** One row of the batched update of the best point. *)
Definition best_row (x : tensor) (cand : list float)
    (x_best : tensor) (f_best : list float) (i : nat)
  : outcome (tensor * float) :=
  c <-- or_raise index_error (nth_error cand i) ;;
  b <-- or_raise index_error (nth_error f_best i) ;;
  if ltb c b then xr <-- row x i ;; Ret (xr, c)
  else xr <-- row x_best i ;; Ret (xr, b).

(** Lines 406-417: the update of [x_best, f_best]. *)
Definition update_best (batched : bool) (M : nat) (x : tensor)
    (cand : list float) (x_best : tensor) (f_best : list float)
  : outcome (tensor * list float) :=
  if batched then
    rows <-- omapM (best_row x cand x_best f_best) (seq 0 M) ;;
    xb <-- stack (map fst rows) ;;
    Ret (xb, map snd rows)
  else
    c <-- or_raise index_error (nth_error cand 0) ;;
    b <-- or_raise index_error (nth_error f_best 0) ;;
    if ltb c b then Ret (x, cand) else Ret (x_best, f_best).

(** [x + torch.reshape(bet, (M,) + (1,) * len(x_shape[1:])) * d] *)
Definition take_step (M : nat) (x_shape : list nat) (x d : tensor)
    (bet : list float) : outcome tensor :=
  b <-- reshape (vec bet) (M :: repeat 1 (length (tl x_shape))) ;;
  bd <-- tensor_mul b d ;;
  tensor_add x bd.

Definition when (b : bool) (c : Comp unit) : Comp unit :=
  if b then c else ret tt.

(** The body of the [for] loop; the result holds the new state and
    [imprv]. *)
Definition sqp_iteration (cfg : config) (fuel : nat) (M : nat)
    (x_size : np_size)
    (x_shape : list nat) (st : sqp_state) : Comp (sqp_state * float) :=
  let x := st_x st in
  g0 <- call_g x ;;
  g <- lift (reshape_batch g0 M [x_size]) ;;
  H0 <- call_h x ;;
  H <- lift (reshape_batch H0 M [x_size; x_size]) ;;
  if any_nan (data g) then raise (RuntimeError "Gradient is NaN") else
  if any_nan (data H) then raise (RuntimeError "Hessian is NaN") else
  '(F, _) <- lift (_positive_factorization_lobpcg H (reg0 cfg) fuel) ;;
  d0 <- lift (cholesky_solve T (tensor_neg g) F) ;;
  d <- lift (reshape d0 x_shape) ;;
  f <- lift (or_raise index_error (hd_error (rev (st_f_hist st)))) ;;
  '(bet, dat) <- _linesearch f x d (ls_pts_nb cfg) (force_step cfg) ;;
  x' <- lift (take_step M x_shape x d bet) ;;
  let x_hist := st_x_hist st ++ [x'] in
  bn <- lift (tensor_mul (vec bet) (d_norm dat)) ;;
  let imprv := mean T bn in
  _ <- when (has_callback cfg) (emit (Callback x')) ;;
  '(x_best, f_best') <-
     lift (update_best (batched cfg) M x' (f_best dat)
                       (st_x_best st) (st_f_best st)) ;;
  let f_hist := st_f_hist st ++ [f_best dat] in
  ret ({| st_x := x'; st_x_best := x_best; st_f_best := f_best';
          st_f_hist := f_hist; st_x_hist := x_hist |}, imprv).

(** [for it in range(max_it): ...; if imprv < 1e-9: break] *)
Fixpoint sqp_loop (cfg : config) (fuel : nat) (M : nat)
    (x_size : np_size)
    (x_shape : list nat) (n : nat) (st : sqp_state) : Comp sqp_state :=
  match n with
  | O => ret st
  | S n' =>
    '(st', imprv) <- sqp_iteration cfg fuel M x_size x_shape st ;;
    if ltb imprv c_1e_9 then ret st'
    else sqp_loop cfg fuel M x_size x_shape n' st'
  end.

(** [M, x_size]: [x_shape[0], np.prod(x_shape[1:])] with batching,
    [1, x.numel()] without.  [np.prod] of the empty shape is the float
    [1.0]. *)
Definition batch_dims (batched : bool) (x : tensor)
  : outcome (nat * np_size) :=
  if batched then
    match shape x with
    | [] => Raise index_error
    | [m] => Ret (m, FloatSize one)
    | m :: rest => Ret (m, IntSize (numel_of rest))
    end
  else Ret (1, IntSize (numel x)).

(** The state with which the loop ends: everything up to line 434. *)
Definition sqp_run (cfg : config) (args : list tensor) (fuel : nat)
  : Comp sqp_state :=
  if 1 <? length args
  then raise (ValueError "SQP only only supports single variable functions")
  else
    x <- lift (or_raise index_error (hd_error args)) ;;
    '(M, x_size) <- lift (batch_dims (batched cfg) x) ;;
    fx <- call_f x ;;
    let st0 := {| st_x := x; st_x_best := x; st_f_best := fx;
                  st_f_hist := [fx]; st_x_hist := [x] |} in
    _ <- when (has_callback cfg)
           (_ <- emit Breakpoint ;; emit (Callback x)) ;;
    sqp_loop cfg fuel M x_size (shape x) (Z.to_nat (max_it cfg)) st0.

(** Lines 437-440: what is returned. *)
Definition sqp_result (cfg : config) (st : sqp_state)
  : tensor * option (list tensor) :=
  if full_output cfg
  then (st_x_best st, Some (st_x_hist st ++ [st_x_best st]))
  else (st_x_best st, None).

Definition minimize_sqp (cfg : config) (args : list tensor) (fuel : nat)
  : Comp (tensor * option (list tensor)) :=
  st <- sqp_run cfg args fuel ;;
  ret (sqp_result cfg st).

End Program.

(** ** A reference backend

    Textbook implementations of the torch operations, used to run the
    program on concrete inputs. *)

Module Ref.

Definition of_Z (z : Z) : float := binary_normalize prec emax z 0 false.

Fixpoint chunks (k n : nat) (l : list float) : list (list float) :=
  match k with
  | O => []
  | S k' => firstn n l :: chunks k' n (skipn n l)
  end.

Definition dot (u v : list float) : float :=
  fold_left (fun acc p => add acc (mul (fst p) (snd p))) (combine u v) zero.

(** The entries left of the diagonal of one row of the factor. *)
Fixpoint chol_row (Ls : list (list float)) (arow acc : list float)
  : list float :=
  match Ls, arow with
  | Lj :: Ls', a :: arow' =>
    chol_row Ls' arow' (acc ++ [div (sub a (dot acc Lj)) (last Lj nan)])
  | _, _ => acc
  end.

(** Row by row; a pivot that is not positive makes the factorization
    fail. *)
Fixpoint chol_rows (A Ls : list (list float)) : option (list (list float)) :=
  match A with
  | [] => Some Ls
  | arow :: A' =>
    let acc := chol_row Ls arow [] in
    let v := sub (nth (length Ls) arow nan) (dot acc acc) in
    if gtb v zero then chol_rows A' (Ls ++ [acc ++ [sqrt v]]) else None
  end.

Definition pad_row (n : nat) (r : list float) : list float :=
  r ++ repeat zero (n - length r).

Fixpoint opt_all {A} (l : list (option A)) : option (list A) :=
  match l with
  | [] => Some []
  | Some a :: l' =>
    match opt_all l' with Some r => Some (a :: r) | None => None end
  | None :: _ => None
  end.

Definition cholesky (A : tensor) : option tensor :=
  match rev (shape A) with
  | m :: n :: _ =>
    if negb (n =? m) then None else
    let mats := chunks (length (data A) / (n * n)) (n * n) (data A) in
    match opt_all (map (fun a => chol_rows (chunks n n a) []) mats) with
    | Some Ls => Some (mkT (shape A) (concat (map (fun L => concat (map (pad_row n) L)) Ls)))
    | None => None
    end
  | _ => None
  end.

(** [L y = b] for a lower-triangular [L]. *)
Definition forward (L : list (list float)) (b : list float) : list float :=
  fold_left (fun y p =>
               let i := length y in
               y ++ [div (sub (snd p) (dot (fst p) y)) (nth i (fst p) nan)])
            (combine L b) [].

Definition transpose (n : nat) (L : list (list float)) : list (list float) :=
  map (fun j => map (fun r => nth j r nan) L) (seq 0 n).

(** [L L^T x = b] *)
Definition solve1 (n : nat) (L : list (list float)) (b : list float)
  : list float :=
  let y := forward L b in
  let U' := rev (map (@rev float) (transpose n L)) in
  rev (forward U' (rev y)).

Definition cholesky_solve (b F : tensor) : outcome tensor :=
  match rev (shape F) with
  | m :: n :: _ =>
    let k := length (data F) / (n * n) in
    if length (data b) =? k * n then
      let Ls := map (chunks n n) (chunks k (n * n) (data F)) in
      let bs := chunks k n (data b) in
      Ret (mkT (shape b)
               (concat (map (fun p => solve1 n (fst p) (snd p))
                            (combine Ls bs))))
    else Raise shape_error
  | _ => Raise shape_error
  end.

(** Eigenvalues of a 1x1 matrix and of a symmetric 2x2 matrix. *)
Definition eigvals_real (A : tensor) : outcome (list float) :=
  match data A with
  | [a] => Ret [a]
  | [a; b; _; d] =>
    let h := div (add a d) two in
    let k := div (sub a d) two in
    let r := sqrt (add (mul k k) (mul b b)) in
    Ret [sub h r; add h r]
  | _ => Raise (RuntimeError "eigvals")
  end.

(** A stand-in for the iterative estimator: the least diagonal entry of
    each matrix, which is its lowest eigenvalue when it is diagonal. *)
Definition lobpcg (A : tensor) (k : Z) (largest : bool) (niter : Z)
    (tol : float) : outcome (list float) :=
  match rev (shape A) with
  | m :: n :: _ =>
    let mats := chunks (length (data A) / (n * n)) (n * n) (data A) in
    omapM (fun a => tensor_min (map (fun i => nth (i * n + i) a nan) (seq 0 n)))
          mats
  | _ => Raise shape_error
  end.

Definition norm2 (l : list float) : float := sqrt (dot l l).

Definition norm_rows (d : tensor) : tensor :=
  match shape d with
  | m :: _ :: _ as s =>
    mkT [m] (map norm2 (chunks m (numel_of (tl s)) (data d)))
  | _ => mkT [] [norm2 (data d)]
  end.

Definition mean (t : tensor) : float :=
  div (fold_left add (data t) zero) (of_Z (Z.of_nat (length (data t)))).

(** [torch.linspace]: both halves are computed from their own end. *)
Definition linspace (a b : float) (steps : Z) : list float :=
  let n := Z.to_nat steps in
  let step := div (sub b a) (of_Z (steps - 1)) in
  map (fun i =>
         if i <? n / 2 then add a (mul step (of_Z (Z.of_nat i)))
         else sub b (mul step (of_Z (Z.of_nat (n - 1 - i)))))
      (seq 0 n).

(** Powers of ten: the five exponents of the default line search. *)
Definition c_0_1 : float := S754_finite false 7205759403792794 (-56).
Definition c_10_m05 : float := S754_finite false 5696652996790543 (-54).
Definition c_10_05 : float := S754_finite false 7120816245988179 (-51).
Definition half : float := S754_finite false 4503599627370496 (-53).

Definition pow (base e : float) : float :=
  if eqb e minus_one then c_0_1
  else if eqb e (opp half) then c_10_m05
  else if eqb e zero then one
  else if eqb e half then c_10_05
  else if eqb e one then ten
  else nan.

Definition ops : torch_ops :=
  Build_torch_ops linspace pow cholesky cholesky_solve eigvals_real lobpcg
                  norm_rows mean.

End Ref.

(** ** Definitions used to state the properties *)

(** A non-NaN value is ranked by a triple of integers, compared
    lexicographically: class (infinities, sign), exponent, mantissa. *)
Definition key (a : float) : Z * Z * Z :=
  match a with
  | S754_nan => (0, 0, 0)
  | S754_zero _ => (0, 0, 0)
  | S754_infinity true => (-2, 0, 0)
  | S754_infinity false => (2, 0, 0)
  | S754_finite true m e => (-1, - e, - Zpos m)
  | S754_finite false m e => (1, e, Zpos m)
  end%Z.

Definition lex_lt (p q : Z * Z * Z) : Prop :=
  let '(p1, p2, p3) := p in
  let '(q1, q2, q3) := q in
  (p1 < q1 \/ (p1 = q1 /\ (p2 < q2 \/ (p2 = q2 /\ p3 < q3))))%Z.


(** The candidate multipliers and the loss rows among which
    [_linesearch] selects: the zero step with the incumbent loss comes
    first unless a step is forced. *)
Definition ls_bets (force_step : bool) (bets : list float) : list float :=
  if force_step then bets else zero :: bets.

Definition ls_rows (force_step : bool) (f : list float)
    (y : list (list float)) : list (list float) :=
  if force_step then map (map nan_to_inf) y
  else map (fun p => fst p :: snd p) (combine f (map (map nan_to_inf) y)).

(** ** Concrete inputs *)

Module Ex.

Definition three : float := Ref.of_Z 3.
Definition four : float := Ref.of_Z 4.
Definition nine : float := Ref.of_Z 9.
(** [0.316] and [3.16] *)
Definition c_0_316 : float := S754_finite false 5692549928996307 (-54).
Definition c_3_16 : float := S754_finite false 7115687411245384 (-51).

(** The objective [x^2 - 4x + 4] with its gradient [2x - 4] and its
    Hessian [2], on a single variable. *)
Definition quad_f (x : tensor) : list float :=
  map (fun v => add (sub (mul v v) (mul four v)) four) (data x).
Definition quad_g (x : tensor) : tensor :=
  mkT (shape x) (map (fun v => sub (mul two v) four) (data x)).
Definition quad_h (x : tensor) : tensor := mkT [1; 1; 1] [two].

(** The starting point [x = 0] and a direction. *)
Definition x0 : tensor := mkT [1] [zero].
Definition d1 : tensor := mkT [1] [one].

(** The line-search scenario: five candidates and their losses. *)
Definition scen_bets : list float := [Ref.c_0_1; c_0_316; one; c_3_16; ten].
Definition scen_losses : list (list float) := [[five; three; one; four; nine]].

End Ex.

(** C3 as the specification states it: with [force_step] false the
    chosen loss of every row is less than or equal to the incumbent. *)
Definition linesearch_le_claim (T : torch_ops)
    (f_fn : tensor -> list float) : Prop :=
  forall f x d n bet dat l l',
    _linesearch T f_fn f x d n false l = (Ret (bet, dat), l') ->
    forall i fi chosen,
      nth_error f i = Some fi ->
      nth_error (f_best dat) i = Some chosen ->
      leb chosen fi = true.

(** What the line search returns from [x = 0] along [d = 1] on the
    quadratic objective, whose loss there is 4. *)
Definition ex_ls_dat : ls_data := {| d_norm := mkT [] [one]; f_best := [one] |}.
Definition ex_ls_log (n : Z) (force : bool) : log :=
  snd (_linesearch Ref.ops Ex.quad_f [Ex.four] Ex.x0 Ex.d1 n force []).

(** [k] iterations of the loop body in a row, with the values of [imprv]
    they computed and no convergence test. *)
Fixpoint sqp_steps (T : torch_ops) (f_fn : tensor -> list float)
    (g_fn h_fn : tensor -> tensor) (cfg : config) (fuel : nat)
    (M : nat) (x_size : np_size) (x_shape : list nat) (k : nat)
    (st : sqp_state)
  : Comp (sqp_state * list float) :=
  match k with
  | O => ret (st, [])
  | S k' =>
    '(st', imprv) <- sqp_iteration T f_fn g_fn h_fn cfg fuel M x_size x_shape st ;;
    '(fin, imprvs) <-
       sqp_steps T f_fn g_fn h_fn cfg fuel M x_size x_shape k' st' ;;
    ret (fin, imprv :: imprvs)
  end.

(** The number of batch rows the update of the best point looks at. *)
Definition tracked_rows (batched : bool) (M : nat) : nat :=
  if batched then M else 1.

(** The state with which the loop starts (lines 358-360). *)
Definition init_state (f_fn : tensor -> list float) (x : tensor)
  : sqp_state :=
  {| st_x := x; st_x_best := x; st_f_best := f_fn x;
     st_f_hist := [f_fn x]; st_x_hist := [x] |}.

(** The calls made before the loop starts. *)
Definition init_log (cfg : config) (x : tensor) : log :=
  CallF x :: (if has_callback cfg then [Breakpoint; Callback x] else []).

(** The initial state of the run on the quadratic objective. *)
Definition ex_st0 : sqp_state := init_state Ex.quad_f Ex.x0.

(** The whole default run: three iterations, to [x = 2 - 6e-15]. *)
Definition ex_run : outcome (tensor * option (list tensor)) * log :=
  Eval vm_compute in
    minimize_sqp Ref.ops Ex.quad_f Ex.quad_g Ex.quad_h default_config
                 [Ex.x0] 30 [].

Definition ex_result : tensor * option (list tensor) :=
  match fst ex_run with Ret r => r | _ => (Ex.x0, None) end.




(** A flat objective: loss, gradient and Hessian are zero. *)
Definition flat_f (x : tensor) : list float := [zero].
Definition flat_g (x : tensor) : tensor := mkT (shape x) (map (fun _ => zero) (data x)).
Definition flat_h (x : tensor) : tensor := mkT [1; 1; 1] [zero].

(** The 1x1 zero Hessian, and three 1x1 Hessians [2] in a batch. *)
Definition H_zero : tensor := mkT [1; 1; 1] [zero].
Definition H_batch3 : tensor := mkT [3; 1; 1] [two; two; two].

(** The batched bowls [(x - c_i)^2] for [c = (1, -3, 5)]. *)
Definition bowls_c : list float := [one; Ref.of_Z (-3); five].
Definition bowls_f (x : tensor) : list float :=
  map (fun p => mul (sub (fst p) (snd p)) (sub (fst p) (snd p)))
      (combine (data x) bowls_c).
Definition bowls_g (x : tensor) : tensor :=
  mkT (shape x) (map (fun p => mul two (sub (fst p) (snd p)))
                     (combine (data x) bowls_c)).
Definition bowls_h (x : tensor) : tensor := mkT [3; 1; 1] [two; two; two].
Definition bowls_x0 : tensor := mkT [3; 1] [zero; zero; zero].
Definition batched_config : config := {|
  reg0 := c_1e_7; max_it := 100; ls_pts_nb := 5; force_step := false;
  batched := true; full_output := false; has_callback := false
|}.

(** Row [i] of [a] is row [i] of [b]; without batching the whole
    tensor is the one row. *)
Definition same_row (batched : bool) (i : nat) (a b : tensor) : Prop :=
  if batched then exists r, row a i = Ret r /\ row b i = Ret r else a = b.

(** The best point is, row by row, a row of one of the snapshots in
    [x_hist], with the loss that the line search recorded for it in
    [f_hist], and no recorded loss of that row is lower. *)
Definition best_of_history (batched : bool) (M : nat) (st : sqp_state)
  : Prop :=
  forall i v,
    i < tracked_rows batched M ->
    nth_error (st_f_best st) i = Some v ->
    exists k xk fk,
      nth_error (st_x_hist st) k = Some xk /\
      nth_error (st_f_hist st) k = Some fk /\
      nth_error fk i = Some v /\
      same_row batched i (st_x_best st) xk /\
      forall j fj w,
        nth_error (st_f_hist st) j = Some fj ->
        nth_error fj i = Some w ->
        ltb w v = false.

Definition best_inv (batched : bool) (M : nat) (st : sqp_state) : Prop :=
  wf_tensor (st_x_best st) = true /\
  length (st_x_hist st) = length (st_f_hist st) /\
  best_of_history batched M st.

(** C7 as the specification states it: with full output the returned
    sequence is the sequence of iterate snapshots, [x_hist]. *)
Definition history_claim (T : torch_ops) (f_fn : tensor -> list float)
    (g_fn h_fn : tensor -> tensor) : Prop :=
  forall cfg args fuel l xb hist fin l',
    minimize_sqp T f_fn g_fn h_fn cfg args fuel l
      = (Ret (xb, Some hist), l') ->
    sqp_run T f_fn g_fn h_fn cfg args fuel l = (Ret fin, l') ->
    hist = st_x_hist fin.

(** The default run with the history asked for. *)
Definition full_config : config := {|
  reg0 := c_1e_7; max_it := 100; ls_pts_nb := 5; force_step := false;
  batched := false; full_output := true; has_callback := false
|}.

Definition ex_full_run : outcome (tensor * option (list tensor)) * log :=
  Eval vm_compute in
    minimize_sqp Ref.ops Ex.quad_f Ex.quad_g Ex.quad_h full_config
                 [Ex.x0] 30 [].

Definition ex_full_result : tensor * option (list tensor) :=
  match fst ex_full_run with Ret r => r | _ => (Ex.x0, None) end.

Definition ex_full_state : outcome sqp_state * log :=
  Eval vm_compute in
    sqp_run Ref.ops Ex.quad_f Ex.quad_g Ex.quad_h full_config [Ex.x0] 30 [].

Definition ex_full_fin : sqp_state :=
  match fst ex_full_state with Ret s => s | _ => ex_st0 end.

(** The defaults with no initial regularization. *)
Definition zero_reg_config : config := {|
  reg0 := zero; max_it := 100; ls_pts_nb := 5; force_step := false;
  batched := false; full_output := false; has_callback := false
|}.

(** A positive binary64 value: a finite one within the format, or
    [inf]. *)
Definition positive_shift (x : float) : bool :=
  match x with
  | S754_finite false m e => bounded prec emax m e
  | S754_infinity false => true
  | _ => false
  end.

(** A batch of two rows of three variables: the bowls
    [sum_j (x_j - c_j)^2] around [c = (1, 2, 3)] and [c = (-1, -2, -3)],
    from the origin. *)
Module ExB.

Definition cs : list float := map Ref.of_Z [1; 2; 3; -1; -2; -3]%Z.

Definition sq_dist (r : list (float * float)) : float :=
  fold_left add
    (map (fun p => mul (sub (fst p) (snd p)) (sub (fst p) (snd p))) r) zero.

Definition f (x : tensor) : list float :=
  let r := combine (data x) cs in
  [sq_dist (firstn 3 r); sq_dist (skipn 3 r)].

Definition g (x : tensor) : tensor :=
  mkT (shape x)
      (map (fun p => mul two (sub (fst p) (snd p))) (combine (data x) cs)).

Definition two_eye : list float :=
  [two; zero; zero; zero; two; zero; zero; zero; two].

Definition h (x : tensor) : tensor := mkT [2; 3; 3] (two_eye ++ two_eye).

Definition x0 : tensor := mkT [2; 3] (repeat zero 6).

Definition st0 : sqp_state := init_state f x0.

Definition iter : outcome (sqp_state * float) * log :=
  Eval vm_compute in
    sqp_iteration Ref.ops f g h batched_config 30 2 (IntSize 3) [2; 3] st0
                  (init_log batched_config x0).

Definition st1 : sqp_state :=
  match fst iter with Ret (s, _) => s | _ => st0 end.
Definition imprv1 : float :=
  match fst iter with Ret (_, v) => v | _ => nan end.

(** The whole run on the batch, with the history. *)
Definition full_config : config := {|
  reg0 := c_1e_7; max_it := 100; ls_pts_nb := 5; force_step := false;
  batched := true; full_output := true; has_callback := false
|}.

Definition full_run : outcome (tensor * option (list tensor)) * log :=
  Eval vm_compute in minimize_sqp Ref.ops f g h full_config [x0] 30 [].

Definition full_result : tensor * option (list tensor) :=
  match fst full_run with Ret r => r | _ => (x0, None) end.

End ExB.

(** ** Inputs for the further properties *)

(** The 1x1 Hessians [-1] and [-1e9]. *)
Definition H_minus_one : tensor := mkT [1; 1; 1] [minus_one].
Definition H_minus_1e9 : tensor := mkT [1; 1; 1] [Ref.of_Z (-1000000000)].

(** What the regularizer returns on [-1] from the default shift. *)
Definition ex_chol_out : outcome (tensor * (Z * float)) :=
  Eval vm_compute in
    _positive_factorization_cholesky Ref.ops H_minus_one c_1e_7 30.

Definition ex_chol_F : tensor :=
  match ex_chol_out with Ret (F, _) => F | _ => H_zero end.
Definition ex_chol_reg : float :=
  match ex_chol_out with Ret (_, (_, r)) => r | _ => nan end.

(** The 2x2 Hessian with [inf] on its diagonal: the reference
    eigenvalues of it are NaN. *)
Definition H_inf : tensor := mkT [1; 2; 2] [inf; zero; zero; inf].

(** The quadratic objective, with a NaN loss wherever an entry is
    above 5. *)
Definition nan_past_five_f (x : tensor) : list float :=
  map (fun v => if ltb five v then nan
                else add (sub (mul v v) (mul Ex.four v)) Ex.four) (data x).

(** What the line search returns for a NaN incumbent loss. *)
Definition ex_ls_nan_dat : ls_data :=
  {| d_norm := mkT [] [one]; f_best := [nan] |}.

(** The start of the three bowls as a batch of three scalars. *)
Definition bowls_x0_flat : tensor := mkT [3] [zero; zero; zero].

(** Two losses that compare equal, or are both NaN. *)
Definition same_loss (a b : float) : Prop :=
  eqb a b = true \/ (is_nan a = true /\ is_nan b = true).

(** A run with no iteration allowed, the history asked for. *)
Definition no_it_config : config := {|
  reg0 := c_1e_7; max_it := 0; ls_pts_nb := 5; force_step := false;
  batched := false; full_output := true; has_callback := true
|}.

(** The quadratic objective with a NaN loss at the origin, and a run on
    it that is forced to step. *)
Definition nan_at_origin_f (x : tensor) : list float :=
  if forallb (fun v => eqb v zero) (data x) then [nan] else Ex.quad_f x.

Definition forced_config : config := {|
  reg0 := c_1e_7; max_it := 100; ls_pts_nb := 5; force_step := true;
  batched := false; full_output := true; has_callback := false
|}.

Definition ex_forced_run : outcome (tensor * option (list tensor)) * log :=
  Eval vm_compute in
    minimize_sqp Ref.ops nan_at_origin_f Ex.quad_g Ex.quad_h forced_config
                 [Ex.x0] 30 [].

Definition ex_forced_result : tensor * option (list tensor) :=
  match fst ex_forced_run with Ret r => r | _ => (mkT [] [], None) end.

(** The tracked best loss of every tracked row is the loss that the
    last line search returned for it. *)
Definition best_is_last (b : bool) (M : nat) (st : sqp_state) : Prop :=
  forall i, i < tracked_rows b M ->
    forall v c,
      nth_error (st_f_best st) i = Some v ->
      nth_error (last (st_f_hist st) []) i = Some c ->
      same_loss v c.

(** Row [i] of the best point is still row [i] of [x], with a NaN
    loss. *)
Definition stuck_at (b : bool) (i : nat) (x : tensor) (st : sqp_state)
  : Prop :=
  wf_tensor (st_x_best st) = true /\
  nth_error (st_f_best st) i = Some nan /\
  same_row b i (st_x_best st) x.

(** ** [minimize_agd]

    The driver around [torch.optim.Adam].  The optimizer, the automatic
    differentiation and the power of two floats belong to the libraries:
    they are the fields of a record [optim_ops].  The loss is only
    printed, so that a call of [f_fn] is an event and nothing more; the
    calls of the optimizer are events as well, with the step length they
    see. *)

Module Agd.

Inductive py_exn : Type :=
| AssertionError
| ZeroDivisionError (msg : string)
| OverflowError (msg : string)
| AttributeError (msg : string)
| IndexError (msg : string)
| LibraryError (msg : string).

Inductive result (A : Type) : Type :=
| Ok (a : A)
| Err (e : py_exn).

Arguments Ok {A} a.
Arguments Err {A} e.

(** A Python number: [**] on two floats gives a complex number for a
    negative base and a fractional exponent. *)
Inductive num : Type :=
| Real (v : float)
| Cplx (re im : float).

Inductive event : Type :=
| CallF (args : list tensor)
| CallG (args : list tensor)
| Callback (args : list tensor)
(** [opt.step()], with the [lr] of the parameter group *)
| Step (lr : num).

Definition log := list event.

Definition M (A : Type) : Type := log -> result A * log.

Definition ret {A} (a : A) : M A := fun l => (Ok a, l).
Definition lift {A} (r : result A) : M A := fun l => (r, l).
Definition emit (ev : event) : M unit := fun l => (Ok tt, l ++ [ev]).

Definition bind {A B} (c : M A) (k : A -> M B) : M B :=
  fun l =>
    match c l with
    | (Ok a, l') => k a l'
    | (Err e, l') => (Err e, l')
    end.

Definition rbind {A B} (c : result A) (k : A -> result B) : result B :=
  match c with
  | Ok a => k a
  | Err e => Err e
  end.

Definition when (b : bool) (c : M unit) : M unit := if b then c else ret tt.

(** *** Python arithmetic of the schedule *)

Definition is_zero (v : float) : bool :=
  match v with S754_zero _ => true | _ => false end.

(** [a / b] on floats *)
Definition float_div (a b : float) : result float :=
  if is_zero b then Err (ZeroDivisionError "float division by zero")
  else Ok (div a b).

(** The conversion of an [int] operand to a float. *)
Definition float_of_int (z : Z) : result float :=
  match binary_normalize prec emax z 0 false with
  | S754_infinity _ => Err (OverflowError "int too large to convert to float")
  | v => Ok v
  end.

Record optim_ops (S : Type) : Type := {
  (** [a ** b] on floats *)
  float_pow : float -> float -> result num;
  (** [a * b] when one of the two is complex *)
  cplx_mul : num -> num -> num;
  (** [torch.optim.Adam(args, lr=ai)] *)
  adam_init : list tensor -> float -> result S;
  (** [opt.zero_grad()], on the [.grad] of every argument *)
  zero_grad : list (option tensor) -> list (option tensor);
  (** [opt.step()]: the new state and the new values of the arguments,
      which are updated in place *)
  adam_step : S -> num -> list tensor -> list (option tensor)
              -> result (S * list tensor);
  (** [torch.sum(f_fn( *args)).backward()]: the [.grad] of every
      argument afterwards *)
  backward : list tensor -> list (option tensor)
             -> result (list (option tensor))
}.

Arguments float_pow {S} _ _ _.
Arguments cplx_mul {S} _ _ _.
Arguments adam_init {S} _ _ _.
Arguments zero_grad {S} _ _.
Arguments adam_step {S} _ _ _ _ _.
Arguments backward {S} _ _ _.

Record config : Type := {
  max_it : Z;
  ai : float;
  af : float;
  batched : bool;
  full_output : bool;
  (** [callback_fn is not None] *)
  has_callback : bool
}.

(** The defaults of the signature: [max_it = 10 ** 3], [ai = 1e-1],
    [af = 1e-2]. *)
Definition default_config : config := {|
  max_it := 1000;
  ai := S754_finite false 7205759403792794 (-56);
  af := S754_finite false 5764607523034235 (-59);
  batched := false;
  full_output := false;
  has_callback := false
|}.

(** The local variables that live across iterations; [grads] holds the
    [.grad] of every argument and [lr] the step length of the one
    parameter group. *)
Record state (S : Type) : Type := {
  args : list tensor;
  grads : list (option tensor);
  opt : S;
  lr : num;
  args_hist : list (list tensor)
}.

Arguments args {S} _.
Arguments grads {S} _.
Arguments opt {S} _.
Arguments lr {S} _.
Arguments args_hist {S} _.

(** What is returned for one list of arguments: the tensor itself when
    there is one argument, the list otherwise. *)
Inductive ret_val : Type :=
| One (t : tensor)
| Many (ts : list tensor).

(** [z if len(args) > 1 else z[0]] *)
Definition pack (z : list tensor) : ret_val :=
  match z with
  | [t] => One t
  | _ => Many z
  end.

(** [for (arg, g) in zip(args, gs): arg.grad = torch.detach(g)] *)
Fixpoint assign (grads : list (option tensor)) (gs : list tensor)
  : list (option tensor) :=
  match grads, gs with
  | _ :: grads', g :: gs' => Some g :: assign grads' gs'
  | _, _ => grads
  end.

(** [o is not None] *)
Definition given {A} (o : option A) : bool :=
  match o with Some _ => true | None => false end.

Definition no_grad (grads : list (option tensor)) : bool :=
  forallb (fun o => match o with None => true | Some _ => false end) grads.

Section Program.

Context {S : Type}.
Variable ops : optim_ops S.
(** [g_fn], or [None]; a single tensor that it returns stands for the
    list of that tensor. *)
Variable g_fn : option (list tensor -> list tensor).

Definition num_mul (a b : num) : num :=
  match a, b with
  | Real x, Real y => Real (mul x y)
  | _, _ => cplx_mul ops a b
  end.

(** [gam = (af / ai) ** (1.0 / max_it)] *)
Definition schedule_factor (cfg : config) : result num :=
  rbind (float_div (af cfg) (ai cfg)) (fun q =>
  rbind (float_of_int (max_it cfg)) (fun n =>
  rbind (float_div one n) (fun e =>
  float_pow ops q e))).

(** Lines 75-86: the gradients of the iteration. *)
Definition compute_grads (cfg : config) (st : state S)
  : M (list (option tensor)) :=
  let gr := zero_grad ops (grads st) in
  match g_fn with
  | None =>
    bind (emit (CallF (args st))) (fun _ =>
    bind (lift (backward ops (args st) gr)) (fun gr' =>
    if batched cfg then
      match args st with
      | x :: _ =>
        match shape x with
        | [] => lift (Err (IndexError "tuple index out of range"))
        | _ :: _ => ret gr'
        end
      | [] => lift (Err (IndexError "list index out of range"))
      end
    else ret gr'))
  | Some g =>
    bind (emit (CallF (args st))) (fun _ =>
    bind (emit (CallG (args st))) (fun _ =>
    ret (assign gr (g (args st)))))
  end.

(** The body of the [for] loop. *)
Definition agd_iteration (cfg : config) (gam : num) (st : state S)
  : M (state S) :=
  bind (compute_grads cfg st) (fun gr =>
  if no_grad gr
  then lift (Err (AttributeError "'int' object has no attribute 'detach'"))
  else
    bind (emit (Step (lr st))) (fun _ =>
    bind (lift (adam_step ops (opt st) (lr st) (args st) gr))
         (fun '(s', args') =>
    bind (when (has_callback cfg) (emit (Callback args'))) (fun _ =>
    ret {| args := args'; grads := gr; opt := s';
           lr := num_mul (lr st) gam;
           args_hist := args_hist st ++ [args'] |})))).

(** [for it in range(max_it): ...], with no [break]. *)
Fixpoint agd_loop (cfg : config) (gam : num) (n : nat) (st : state S)
  : M (state S) :=
  match n with
  | O => ret st
  | Datatypes.S n' =>
    bind (agd_iteration cfg gam st) (fun st' => agd_loop cfg gam n' st')
  end.

Definition init_state (cfg : config) (s : S) (args0 : list tensor)
  : state S :=
  {| args := args0; grads := map (fun _ => None) args0; opt := s;
     lr := Real (ai cfg); args_hist := [args0] |}.

Definition minimize_agd (cfg : config) (args0 : list tensor)
  : M (ret_val * option (list ret_val)) :=
  match args0 with
  | [] => lift (Err AssertionError)
  | _ :: _ =>
    bind (lift (schedule_factor cfg)) (fun gam =>
    bind (lift (adam_init ops args0 (ai cfg))) (fun s =>
    bind (when (has_callback cfg) (emit (Callback args0))) (fun _ =>
    bind (agd_loop cfg gam (Z.to_nat (max_it cfg)) (init_state cfg s args0))
         (fun st =>
    ret (pack (args st),
         if full_output cfg then Some (map pack (args_hist st))
         else None)))))
  end.

End Program.

(** The calls of a run that went through the snapshots [z :: hist] of
    the arguments: the loss and the gradient at each snapshot but the
    last, then a step with the step length of the schedule, then the
    callback on the next snapshot. *)
Fixpoint schedule_log (with_g with_cb : bool) (gam_mul : num -> num)
    (lr : num) (z : list tensor) (hist : list (list tensor)) : log :=
  match hist with
  | [] => []
  | z' :: hist' =>
    (CallF z :: (if with_g then [CallG z] else [])) ++ [Step lr]
      ++ (if with_cb then [Callback z'] else [])
      ++ schedule_log with_g with_cb gam_mul (gam_mul lr) z' hist'
  end.

(** *** A reference optimizer

    Plain gradient descent in the place of Adam, and the powers 1 and
    1/2, to run the driver on concrete inputs. *)

Definition half : float := S754_finite false 4503599627370496 (-53).

Definition ref_pow (a b : float) : result num :=
  if eqb b one then Ok (Real a)
  else if eqb b half then
    (if ltb a zero then Ok (Cplx zero (sqrt (opp a))) else Ok (Real (sqrt a)))
  else Err (LibraryError "power not tabulated").

Definition ref_step (count : nat) (lr : num) (args : list tensor)
    (grads : list (option tensor)) : result (nat * list tensor) :=
  match lr with
  | Real v =>
    Ok (Datatypes.S count,
        map (fun p =>
               match snd p with
               | Some g =>
                 mkT (shape (fst p))
                     (map (fun q => sub (fst q) (mul v (snd q)))
                          (combine (data (fst p)) (data g)))
               | None => fst p
               end) (combine args grads))
  | Cplx _ _ => Err (LibraryError "complex step length")
  end.

Definition ref_ops : optim_ops nat := {|
  float_pow := ref_pow;
  cplx_mul := fun a _ => a;
  adam_init := fun _ lr =>
    if ltb lr zero then Err (LibraryError "Invalid learning rate") else Ok 0;
  zero_grad := map (fun _ => None);
  adam_step := ref_step;
  backward := fun _ _ => Err (LibraryError "no automatic differentiation")
|}.

(** Two iterations on the quadratic objective. *)
Definition two_it_config : config := {|
  max_it := 2; ai := ai default_config; af := af default_config;
  batched := false; full_output := true; has_callback := true
|}.

Definition zero_it_config : config := {|
  max_it := 0; ai := ai default_config; af := af default_config;
  batched := false; full_output := false; has_callback := true
|}.

Definition quad_grad (z : list tensor) : list tensor := map Ex.quad_g z.

Definition no_grad_fn (z : list tensor) : list tensor := [].

Definition ex_run : result (ret_val * option (list ret_val)) * log :=
  Eval vm_compute in
    minimize_agd ref_ops (Some quad_grad) two_it_config [Ex.x0] [].

Definition ex_result : ret_val * option (list ret_val) :=
  match fst ex_run with Ok r => r | Err _ => (Many [], None) end.

Definition ex_gam : num :=
  match schedule_factor ref_ops two_it_config with
  | Ok g => g
  | Err _ => Real nan
  end.

End Agd.
(** * Properties *)

(** ** Order facts on binary64 values *)

Section FloatOrder.

Lemma compare_cont_Eq_refl (m : positive) : Pos.compare_cont Eq m m = Eq.
Proof. change (Pos.compare m m = Eq). apply Pos.compare_refl. Qed.

Lemma SFcompare_nan_l (b : float) : SFcompare nan b = None.
Proof. reflexivity. Qed.

Lemma SFcompare_nan_r (a : float) : SFcompare a nan = None.
Proof. destruct a as [ | | |[|] ? ?]; reflexivity. Qed.

Lemma ltb_irrefl (a : float) : ltb a a = false.
Proof.
  unfold ltb, SFltb.
  destruct a as [s|s| |s m e]; simpl; try reflexivity.
  - destruct s; reflexivity.
  - destruct s; rewrite Z.compare_refl, compare_cont_Eq_refl; reflexivity.
Qed.

Lemma ltb_nan_r (a : float) : ltb a nan = false.
Proof. unfold ltb, SFltb. rewrite SFcompare_nan_r. reflexivity. Qed.

Lemma ltb_nan_l (a : float) : ltb nan a = false.
Proof. reflexivity. Qed.

Lemma leb_nan_r (a : float) : leb a nan = false.
Proof. unfold leb, SFleb. rewrite SFcompare_nan_r. reflexivity. Qed.

Lemma compare_cont_Eq_Lt (m n : positive) :
  Pos.compare_cont Eq m n = Lt <-> (Zpos m < Zpos n)%Z.
Proof. change (Pos.compare m n = Lt <-> (Zpos m < Zpos n)%Z). reflexivity. Qed.

Lemma compare_cont_Eq_Gt (m n : positive) :
  Pos.compare_cont Eq m n = Gt <-> (Zpos n < Zpos m)%Z.
Proof.
  change (Pos.compare m n = Gt <-> (Zpos n < Zpos m)%Z).
  rewrite Pos.compare_gt_iff. reflexivity.
Qed.

Ltac cmp_fin :=
  solve [ split; intros; try reflexivity; try discriminate;
          try (exfalso; lia); lia ].

Lemma ltb_key (a b : float) :
  is_nan a = false -> is_nan b = false ->
  (ltb a b = true <-> lex_lt (key a) (key b)).
Proof.
  intros Ha Hb. unfold ltb, SFltb.
  destruct a as [sa|sa| |sa ma ea]; try discriminate Ha;
  destruct b as [sb|sb| |sb mb eb]; try discriminate Hb;
  try destruct sa; try destruct sb; simpl; try cmp_fin;
  destruct (Z.compare_spec ea eb) as [E|E|E]; simpl; try cmp_fin;
  subst eb; destruct (Pos.compare_cont Eq ma mb) eqn:C; simpl;
  try (apply Pos.compare_eq in C; subst);
  try apply (proj1 (compare_cont_Eq_Lt _ _)) in C;
  try apply (proj1 (compare_cont_Eq_Gt _ _)) in C; cmp_fin.
Qed.

Lemma ltb_not_nan (a b : float) :
  ltb a b = true -> is_nan a = false /\ is_nan b = false.
Proof.
  unfold ltb, SFltb. intros H.
  destruct a as [sa|sa| |sa ma ea]; try discriminate H;
  destruct b as [sb|sb| |sb mb eb]; try discriminate H; split; reflexivity.
Qed.

Lemma ltb_trans (a b c : float) :
  ltb a b = true -> ltb b c = true -> ltb a c = true.
Proof.
  intros Hab Hbc.
  destruct (ltb_not_nan _ _ Hab) as [Na Nb].
  destruct (ltb_not_nan _ _ Hbc) as [_ Nc].
  apply ltb_key in Hab; trivial. apply ltb_key in Hbc; trivial.
  apply ltb_key; trivial.
  destruct (key a) as [[a1 a2] a3], (key b) as [[b1 b2] b3],
           (key c) as [[c1 c2] c3].
  unfold lex_lt in *. lia.
Qed.

Lemma ltb_asym (a b : float) : ltb a b = true -> ltb b a = false.
Proof.
  intros Hab. destruct (ltb b a) eqn:Hba; trivial.
  pose proof (ltb_trans _ _ _ Hab Hba) as H.
  rewrite ltb_irrefl in H. discriminate H.
Qed.

Lemma leb_key (a b : float) :
  is_nan a = false -> is_nan b = false ->
  (leb a b = true <-> ~ lex_lt (key b) (key a)).
Proof.
  intros Ha Hb. unfold leb, SFleb.
  destruct a as [sa|sa| |sa ma ea]; try discriminate Ha;
  destruct b as [sb|sb| |sb mb eb]; try discriminate Hb;
  try destruct sa; try destruct sb; simpl; try cmp_fin;
  destruct (Z.compare_spec ea eb) as [E|E|E]; simpl; try cmp_fin;
  subst eb; destruct (Pos.compare_cont Eq ma mb) eqn:C; simpl;
  try (apply Pos.compare_eq in C; subst);
  try apply (proj1 (compare_cont_Eq_Lt _ _)) in C;
  try apply (proj1 (compare_cont_Eq_Gt _ _)) in C; cmp_fin.
Qed.

(** On numbers, "not greater" is "less than or equal". *)
Lemma not_ltb_leb (a b : float) :
  is_nan a = false -> is_nan b = false ->
  ltb a b = false -> leb b a = true.
Proof.
  intros Ha Hb H. apply leb_key; trivial.
  intros L. apply ltb_key in L; trivial. congruence.
Qed.

Lemma eqb_key (a b : float) :
  is_nan a = false -> is_nan b = false ->
  (eqb a b = true <-> key a = key b).
Proof.
  intros Ha Hb. unfold eqb, SFeqb.
  destruct a as [sa|sa| |sa ma ea]; try discriminate Ha;
  destruct b as [sb|sb| |sb mb eb]; try discriminate Hb;
  try destruct sa; try destruct sb; simpl;
  try solve [ split; intros; try reflexivity; try discriminate ];
  destruct (Z.compare_spec ea eb) as [E|E|E]; simpl;
  try solve [ split; intros X; try discriminate X;
              injection X; intros; exfalso; lia ];
  subst eb; destruct (Pos.compare_cont Eq ma mb) eqn:C; simpl;
  try (apply Pos.compare_eq in C; subst);
  try apply (proj1 (compare_cont_Eq_Lt _ _)) in C;
  try apply (proj1 (compare_cont_Eq_Gt _ _)) in C;
  solve [ split; intros X; try reflexivity; try discriminate X;
          injection X; intros; exfalso; lia ].
Qed.

Lemma eqb_not_nan (a b : float) :
  eqb a b = true -> is_nan a = false /\ is_nan b = false.
Proof.
  unfold eqb, SFeqb. intros H.
  destruct a as [sa|sa| |sa ma ea]; try discriminate H;
  destruct b as [sb|sb| |sb mb eb]; try discriminate H; split; reflexivity.
Qed.

Lemma eqb_not_ltb (a b : float) : eqb a b = true -> ltb b a = false.
Proof.
  intros E. destruct (eqb_not_nan _ _ E) as [Na Nb].
  apply eqb_key in E; trivial.
  destruct (ltb b a) eqn:L; trivial.
  apply ltb_key in L; trivial. rewrite E in L.
  destruct (key b) as [[b1 b2] b3]. unfold lex_lt in L. lia.
Qed.

(** Two numbers are ordered one way, the other, or equal. *)
Lemma ltb_trichotomy (a b : float) :
  is_nan a = false -> is_nan b = false ->
  ltb a b = false -> eqb a b = false -> ltb b a = true.
Proof.
  intros Na Nb L E. apply ltb_key; trivial.
  assert (L' : ~ lex_lt (key a) (key b)).
  { intros X. apply ltb_key in X; trivial. congruence. }
  assert (E' : key a <> key b).
  { intros X. apply eqb_key in X; trivial. congruence. }
  destruct (key a) as [[a1 a2] a3], (key b) as [[b1 b2] b3].
  unfold lex_lt in *.
  assert (a1 <> b1 \/ a2 <> b2 \/ a3 <> b3)%Z.
  { destruct (Z.eq_dec a1 b1), (Z.eq_dec a2 b2), (Z.eq_dec a3 b3);
      subst; try tauto. }
  lia.
Qed.

Lemma leb_ltb_trans (a b c : float) :
  leb a b = true -> ltb b c = true -> ltb a c = true.
Proof.
  intros Hab Hbc.
  destruct (ltb_not_nan _ _ Hbc) as [Nb Nc].
  assert (Na : is_nan a = false).
  { destruct a; trivial. discriminate Hab. }
  apply leb_key in Hab; trivial. apply ltb_key in Hbc; trivial.
  apply ltb_key; trivial.
  destruct (key a) as [[a1 a2] a3], (key b) as [[b1 b2] b3],
           (key c) as [[c1 c2] c3].
  unfold lex_lt in *. lia.
Qed.

Lemma ltb_leb (a b : float) : ltb a b = true -> leb a b = true.
Proof.
  unfold ltb, leb, SFltb, SFleb.
  destruct (SFcompare a b) as [[ | | ]|]; trivial.
Qed.

End FloatOrder.

(** ** The arg-min of a row *)

Section Argmin.

Lemma nth_nan_ltb (l : list float) (j : nat) (v : float) :
  length l <= j -> ltb (nth j l nan) v = false.
Proof. intros H. rewrite nth_overflow by assumption. reflexivity. Qed.

Lemma nth_nan_leb (l : list float) (j : nat) (v : float) :
  length l <= j -> leb (nth j l nan) v = false.
Proof. intros H. rewrite nth_overflow by assumption. reflexivity. Qed.

(** What one step of the reduction keeps. *)
Lemma less_or_nan_keep (bv a : float) (bi i : nat) :
  bi < i ->
  less_or_nan bv a bi i = true ->
  ltb a bv = false.
Proof.
  intros Hlt. unfold less_or_nan.
  destruct (is_nan bv) eqn:Nb.
  - intros _. destruct bv; try discriminate Nb. apply ltb_nan_r.
  - destruct (eqb bv a) eqn:E.
    + intros _. apply eqb_not_ltb. exact E.
    + apply ltb_asym.
Qed.

Lemma less_or_nan_switch (bv a : float) (bi i : nat) :
  bi < i ->
  less_or_nan bv a bi i = false ->
  is_nan bv = false /\ (is_nan a = true \/ ltb a bv = true).
Proof.
  intros Hlt. unfold less_or_nan.
  apply Nat.ltb_lt in Hlt.
  destruct (is_nan bv) eqn:Nb.
  - rewrite Hlt. destruct (is_nan a); discriminate.
  - destruct (eqb bv a) eqn:E.
    + rewrite Hlt. discriminate.
    + intros L. split; trivial.
      destruct (is_nan a) eqn:Na; [left; trivial | right].
      apply ltb_trichotomy; trivial.
Qed.

Lemma argmin_from_spec (l pre : list float) (bi : nat) (bv : float) :
  bi < length pre ->
  nth bi pre nan = bv ->
  (forall j, ltb (nth j pre nan) bv = false) ->
  (forall j, j < bi -> leb (nth j pre nan) bv = false) ->
  let idx := argmin_from l (length pre) bi bv in
  let L := pre ++ l in
  idx < length L /\
  (forall j, ltb (nth j L nan) (nth idx L nan) = false) /\
  (forall j, j < idx -> leb (nth j L nan) (nth idx L nan) = false).
Proof.
  revert pre bi bv.
  induction l as [|a l IH]; intros pre bi bv Hbi Hbv Hmin Hfirst; simpl.
  - rewrite app_nil_r, Hbv. auto.
  - assert (HL : pre ++ a :: l = (pre ++ [a]) ++ l)
      by (rewrite <- app_assoc; reflexivity).
    assert (Hlen : length (pre ++ [a]) = S (length pre))
      by (rewrite length_app; simpl; lia).
    destruct (less_or_nan bv a bi (length pre)) eqn:K.
    + pose proof (less_or_nan_keep _ _ _ _ Hbi K) as Ka.
      rewrite HL, <- Hlen. apply IH.
      * lia.
      * rewrite app_nth1 by assumption. exact Hbv.
      * intros j. destruct (Nat.lt_ge_cases j (length pre)) as [Hj|Hj].
        -- rewrite app_nth1 by assumption. apply Hmin.
        -- destruct (Nat.eq_dec j (length pre)) as [->|Hne].
           ++ rewrite app_nth2, Nat.sub_diag by lia. exact Ka.
           ++ apply nth_nan_ltb. lia.
      * intros j Hj. rewrite app_nth1 by lia. apply Hfirst; assumption.
    + destruct (less_or_nan_switch _ _ _ _ Hbi K) as [Nb Ha].
      rewrite HL, <- Hlen. apply IH.
      * lia.
      * rewrite app_nth2, Nat.sub_diag by lia. reflexivity.
      * intros j. destruct Ha as [Na|La].
        -- destruct a; try discriminate Na. apply ltb_nan_r.
        -- destruct (ltb (nth j (pre ++ [a]) nan) a) eqn:X; trivial.
           destruct (Nat.lt_ge_cases j (length pre)) as [Hj|Hj].
           ++ rewrite app_nth1 in X by assumption.
              pose proof (ltb_trans _ _ _ X La) as Y.
              rewrite Hmin in Y. discriminate Y.
           ++ destruct (Nat.eq_dec j (length pre)) as [->|Hne].
              ** rewrite app_nth2, Nat.sub_diag in X by lia. simpl in X.
                 rewrite ltb_irrefl in X. discriminate X.
              ** rewrite nth_nan_ltb in X by lia. discriminate X.
      * intros j Hj. rewrite app_nth1 by assumption.
        destruct Ha as [Na|La].
        -- destruct a; try discriminate Na. apply leb_nan_r.
        -- destruct (leb (nth j pre nan) a) eqn:X; trivial.
           pose proof (leb_ltb_trans _ _ _ X La) as Y.
           rewrite Hmin in Y. discriminate Y.
Qed.

(** [argmin] returns a position of the row; no entry is smaller than the
    one chosen, and no earlier entry is as small. *)
Lemma argmin_spec (l : list float) (idx : nat) :
  argmin l = Ret idx ->
  idx < length l /\
  (forall j, ltb (nth j l nan) (nth idx l nan) = false) /\
  (forall j, j < idx -> leb (nth j l nan) (nth idx l nan) = false).
Proof.
  destruct l as [|a l]; simpl; [discriminate|].
  intros H. injection H as <-.
  apply (argmin_from_spec l [a] 0 a).
  - simpl. lia.
  - reflexivity.
  - intros [|[|j]]; simpl; try reflexivity. apply ltb_irrefl.
  - intros j Hj. lia.
Qed.

Lemma argmin_total (l : list float) :
  l <> [] -> exists idx, argmin l = Ret idx.
Proof. destruct l; [congruence|]. intros _. eexists. reflexivity. Qed.

(** A NaN in the first position is the arg-min. *)
Lemma argmin_from_nan (l : list float) (i bi : nat) :
  bi < i -> argmin_from l i bi nan = bi.
Proof.
  revert i. induction l as [|a l IH]; intros i Hi; simpl; trivial.
  unfold less_or_nan. simpl.
  apply Nat.ltb_lt in Hi as Hb.
  destruct (is_nan a); [rewrite Hb|]; apply IH; lia.
Qed.

End Argmin.

(** ** Inversion of computations *)

Section Inversion.

Lemma obind_Ret {A B} (c : outcome A) (k : A -> outcome B) (b : B) :
  obind c k = Ret b -> exists a, c = Ret a /\ k a = Ret b.
Proof. destruct c; simpl; try discriminate. eauto. Qed.

Lemma or_raise_Ret {A} (e : exn) (o : option A) (a : A) :
  or_raise e o = Ret a -> o = Some a.
Proof. destruct o; simpl; congruence. Qed.

Lemma bind_Ret {A B} (c : Comp A) (k : A -> Comp B) (b : B) (l l' : log) :
  bind c k l = (Ret b, l') ->
  exists a l1, c l = (Ret a, l1) /\ k a l1 = (Ret b, l').
Proof.
  unfold bind. destruct (c l) as [[a|e|] l1]; try discriminate. eauto.
Qed.

Lemma lift_Ret {A} (c : outcome A) (a : A) (l l' : log) :
  lift c l = (Ret a, l') -> c = Ret a /\ l' = l.
Proof. unfold lift. intros H. injection H as -> ->. auto. Qed.

Lemma ret_Ret {A} (a b : A) (l l' : log) :
  ret a l = (Ret b, l') -> a = b /\ l' = l.
Proof. unfold ret. intros H. injection H as -> ->. auto. Qed.

Lemma omapM_Ret {A B} (f : A -> outcome B) (l : list A) (r : list B) :
  omapM f l = Ret r -> Forall2 (fun a b => f a = Ret b) l r.
Proof.
  revert r. induction l as [|a l IH]; simpl; intros r H.
  - injection H as <-. constructor.
  - apply obind_Ret in H. destruct H as (b & Hb & H).
    apply obind_Ret in H. destruct H as (bs & Hbs & H).
    injection H as <-. constructor; auto.
Qed.

Lemma Forall2_nth_error {A B} (P : A -> B -> Prop) (l : list A) (r : list B) :
  Forall2 P l r ->
  forall i a, nth_error l i = Some a ->
  exists b, nth_error r i = Some b /\ P a b.
Proof.
  induction 1 as [|a0 b0 l r H0 H IH]; intros i a Hi.
  - destruct i; discriminate.
  - destruct i as [|i]; simpl in *.
    + injection Hi as <-. eauto.
    + eauto.
Qed.

End Inversion.

(** ** The line search *)

Section LineSearch.

Variable T : torch_ops.
Variable f_fn : tensor -> list float.

Lemma nth_error_combine {A B} (l : list A) (r : list B) i a b :
  nth_error l i = Some a -> nth_error r i = Some b ->
  nth_error (combine l r) i = Some (a, b).
Proof.
  revert r i. induction l as [|a0 l IH]; intros [|b0 r] [|i]; simpl;
    try discriminate.
  - intros Ha Hb. injection Ha as ->. injection Hb as ->. reflexivity.
  - apply IH.
Qed.

Lemma Forall2_length' {A B} (P : A -> B -> Prop) l r :
  Forall2 P l r -> length l = length r.
Proof. induction 1; simpl; congruence. Qed.

(** The selection, row by row. *)
Lemma ls_select_row (force : bool) (f bets : list float)
    (y : list (list float)) (bet fb : list float) :
  ls_select force f bets y = Ret (bet, fb) ->
  (force = false -> length f = length y) /\
  length bet = length (ls_rows force f y) /\
  length fb = length (ls_rows force f y) /\
  forall i r, nth_error (ls_rows force f y) i = Some r ->
    exists idx, argmin r = Ret idx /\
      nth_error bet i = Some (nth idx (ls_bets force bets) nan) /\
      nth_error fb i = Some (nth idx r nan).
Proof.
  unfold ls_select. intros H.
  apply obind_Ret in H. destruct H as ([bets' rows] & Hrows & H).
  apply obind_Ret in H. destruct H as (idxs & Hidx & H).
  injection H as <- <-.
  apply omapM_Ret in Hidx.
  assert (Hr : rows = ls_rows force f y /\ bets' = ls_bets force bets /\
               (force = false -> length f = length y)).
  { unfold ls_rows, ls_bets. destruct force.
    - injection Hrows as <- <-. repeat split; trivial. discriminate.
    - apply obind_Ret in Hrows. destruct Hrows as (y' & Hy' & Hrows).
      injection Hrows as <- <-.
      unfold cat_col in Hy'.
      destruct (length f =? length (map (map nan_to_inf) y)) eqn:E;
        try discriminate.
      injection Hy' as <-. apply Nat.eqb_eq in E.
      rewrite length_map in E. auto. }
  destruct Hr as (-> & -> & Hlen).
  pose proof (Forall2_length' _ _ _ Hidx) as Hl.
  split; [exact Hlen|]. split; [|split].
  - rewrite length_map. auto.
  - rewrite length_map, length_combine. lia.
  - intros i r Hi.
    destruct (Forall2_nth_error _ _ _ Hidx _ _ Hi) as (idx & Hidx_i & Harg).
    exists idx. repeat split; trivial.
    + rewrite nth_error_map, Hidx_i. reflexivity.
    + rewrite nth_error_map, (nth_error_combine _ _ _ _ _ Hi Hidx_i).
      reflexivity.
Qed.

Lemma nan_to_inf_not_nan (v : float) : is_nan (nan_to_inf v) = false.
Proof. unfold nan_to_inf. destruct v; reflexivity. Qed.

(** A row of the unforced search: the incumbent first, then losses that
    are not NaN. *)
Lemma ls_rows_unforced (f : list float) (y : list (list float)) i r :
  nth_error (ls_rows false f y) i = Some r ->
  exists fi yi, r = fi :: map nan_to_inf yi /\
    nth_error f i = Some fi /\ nth_error y i = Some yi.
Proof.
  unfold ls_rows. revert y i.
  induction f as [|f0 f IH]; intros [|y0 y] [|i]; simpl; try discriminate.
  - intros H. injection H as <-. eauto.
  - intros H. apply IH in H. exact H.
Qed.

Lemma ls_rows_forced (f : list float) (y : list (list float)) i r :
  nth_error (ls_rows true f y) i = Some r ->
  exists yi, r = map nan_to_inf yi /\ nth_error y i = Some yi.
Proof.
  unfold ls_rows. intros H.
  rewrite nth_error_map in H.
  destruct (nth_error y i) as [yi|]; simpl in H; try discriminate.
  injection H as <-. eauto.
Qed.

Lemma nth_map_nan_to_inf_not_nan (l : list float) (j : nat) :
  j < length l -> is_nan (nth j (map nan_to_inf l) nan) = false.
Proof.
  intros Hj.
  rewrite (nth_indep _ nan (nan_to_inf nan)) by (rewrite length_map; lia).
  rewrite map_nth. apply nan_to_inf_not_nan.
Qed.

(** What a successful [_linesearch] computed. *)
Lemma linesearch_inv (f : list float) (x d : tensor) (n : Z)
    (force : bool) (bet : list float) (dat : ls_data) (l l' : log) :
  _linesearch T f_fn f x d n force l = (Ret (bet, dat), l') ->
  exists cols y,
    mapM (ls_eval f_fn x d) (ls_candidates T n) l = (Ret cols, l') /\
    stack_cols cols = Ret y /\
    ls_select force f (ls_candidates T n) y = Ret (bet, f_best dat) /\
    d_norm dat = norm_rows T d.
Proof.
  unfold _linesearch. intros H.
  apply bind_Ret in H. destruct H as (cols & l1 & Hcols & H).
  apply bind_Ret in H. destruct H as (y & l2 & Hy & H).
  apply lift_Ret in Hy. destruct Hy as [Hy ->].
  apply bind_Ret in H. destruct H as ([bet' fb] & l3 & Hs & H).
  apply lift_Ret in Hs. destruct Hs as [Hs ->].
  apply ret_Ret in H. destruct H as [H ->].
  injection H as <- <-. simpl.
  exists cols, y. auto.
Qed.

End LineSearch.

Section LineSearchClaims.

Variable T : torch_ops.
Variable f_fn : tensor -> list float.

(** The candidates are evaluated in order, each at [x + bet * d]. *)
Lemma mapM_ls_eval (x d : tensor) (bets : list float)
    (cols : list (list float)) (l l' : log) :
  mapM (ls_eval f_fn x d) bets l = (Ret cols, l') ->
  exists ps,
    Forall2 (fun bet p => tensor_add x (scalar_mul bet d) = Ret p) bets ps /\
    cols = map f_fn ps /\ l' = l ++ map CallF ps.
Proof.
  revert cols l l'. induction bets as [|b bets IH]; intros cols l l' H.
  - apply ret_Ret in H. destruct H as [<- ->].
    exists []. simpl. rewrite app_nil_r. auto.
  - simpl in H.
    apply bind_Ret in H. destruct H as (c & l1 & Hc & H).
    apply bind_Ret in H. destruct H as (cs & l2 & Hcs & H).
    apply ret_Ret in H. destruct H as [<- ->].
    unfold ls_eval in Hc.
    apply bind_Ret in Hc. destruct Hc as (p & l3 & Hp & Hc).
    apply lift_Ret in Hp. destruct Hp as [Hp ->].
    unfold call_f in Hc.
    apply bind_Ret in Hc. destruct Hc as ([] & l4 & He & Hc).
    unfold emit in He. injection He as <-.
    apply ret_Ret in Hc. destruct Hc as [<- ->].
    apply IH in Hcs. destruct Hcs as (ps & Hps & -> & ->).
    exists (p :: ps). simpl. rewrite <- app_assoc. simpl. auto.
Qed.

Lemma stack_cols_inv (cols : list (list float)) (y : list (list float)) :
  stack_cols cols = Ret y ->
  exists c cs, cols = c :: cs /\
    Forall (fun c' => length c' = length c) cols /\
    y = map (fun i => map (fun col => nth i col nan) cols)
            (seq 0 (length c)).
Proof.
  unfold stack_cols. destruct cols as [|c cs]; try discriminate.
  destruct (forallb _ _) eqn:E; try discriminate.
  intros H. injection H as <-.
  exists c, cs. repeat split.
  rewrite forallb_forall in E. apply Forall_forall.
  intros c' Hc'. apply Nat.eqb_eq. apply E. exact Hc'.
Qed.

Lemma nth_error_unforced_row (f : list float) (y : list (list float))
    i fi :
  length f = length y ->
  nth_error f i = Some fi ->
  exists yi, nth_error y i = Some yi /\
    nth_error (ls_rows false f y) i = Some (fi :: map nan_to_inf yi).
Proof.
  intros Hlen Hfi.
  assert (Hi : i < length y).
  { rewrite <- Hlen. apply nth_error_Some. congruence. }
  destruct (nth_error y i) as [yi|] eqn:Hy.
  - exists yi. split; trivial.
    assert (Hy' : nth_error (map (map nan_to_inf) y) i
                  = Some (map nan_to_inf yi))
      by (rewrite nth_error_map, Hy; reflexivity).
    unfold ls_rows.
    rewrite nth_error_map, (nth_error_combine _ _ _ _ _ Hfi Hy').
    reflexivity.
  - apply nth_error_None in Hy. lia.
Qed.

(** C3, as amended.  With [force_step] false, the loss chosen for a row
    is never greater than the incumbent loss of the row; it is less than
    or equal to it whenever the incumbent is a number.  A NaN incumbent
    is returned as it is, with the zero step. *)
Theorem linesearch_never_worse (f : list float) (x d : tensor) (n : Z)
    (bet : list float) (dat : ls_data) (l l' : log) :
  _linesearch T f_fn f x d n false l = (Ret (bet, dat), l') ->
  length (f_best dat) = length f /\
  forall i fi, nth_error f i = Some fi ->
    exists chosen b,
      nth_error (f_best dat) i = Some chosen /\
      nth_error bet i = Some b /\
      ltb fi chosen = false /\
      (is_nan fi = false -> leb chosen fi = true) /\
      (is_nan fi = true -> is_nan chosen = true /\ b = zero).
Proof.
  intros H.
  apply linesearch_inv in H. destruct H as (cols & y & _ & _ & Hsel & _).
  apply ls_select_row in Hsel.
  destruct Hsel as (Hlen & Hbet & Hfb & Hrow).
  specialize (Hlen eq_refl).
  split.
  { rewrite Hfb. unfold ls_rows.
    rewrite length_map, length_combine, length_map. lia. }
  intros i fi Hfi.
  destruct (nth_error_unforced_row _ _ _ _ Hlen Hfi) as (yi & Hyi & Hr).
  destruct (Hrow _ _ Hr) as (idx & Harg & Hb & Hc).
  exists (nth idx (fi :: map nan_to_inf yi) nan),
         (nth idx (ls_bets false (ls_candidates T n)) nan).
  split; [exact Hc|]. split; [exact Hb|].
  pose proof (argmin_spec _ _ Harg) as (Hidx & Hmin & _).
  split; [exact (Hmin 0)|]. split.
  - intros Nf. apply not_ltb_leb; trivial; [|exact (Hmin 0)].
    destruct idx as [|idx]; simpl; trivial.
    apply nth_map_nan_to_inf_not_nan.
    simpl in Hidx. rewrite length_map in Hidx. lia.
  - intros Nf. destruct fi; try discriminate Nf.
    simpl in Harg. rewrite argmin_from_nan in Harg by lia.
    injection Harg as <-. simpl. auto.
Qed.

(** The rows among which the arg-min is taken, written out: the losses
    of the candidates with [inf] in the place of every NaN, after the
    incumbent loss unless a step is forced. *)
Lemma ls_rows_explicit (force : bool) (f : list float) (ps : list tensor)
    (y : list (list float)) :
  stack_cols (map f_fn ps) = Ret y ->
  (force = false -> length f = length y) ->
  exists m,
    Forall (fun p => length (f_fn p) = m) ps /\
    length (ls_rows force f y) = m /\
    (force = false -> length f = m) /\
    forall i, i < m ->
      let losses :=
        map (fun p => let v := nth i (f_fn p) nan in
                      if is_nan v then inf else v) ps in
      nth_error (ls_rows force f y) i
      = Some (if force then losses else nth i f nan :: losses).
Proof.
  intros Hy Hlen.
  apply stack_cols_inv in Hy. destruct Hy as (c & cs & Hcs & Hall & ->).
  exists (length c).
  assert (Hly : length (map (fun i => map (fun col => nth i col nan)
                                          (map f_fn ps))
                            (seq 0 (length c))) = length c)
    by (rewrite length_map, length_seq; reflexivity).
  rewrite Hly in Hlen.
  split.
  { apply Forall_forall. intros p Hp.
    rewrite Forall_forall in Hall. apply Hall. apply in_map. exact Hp. }
  split.
  { unfold ls_rows. destruct force.
    - rewrite length_map. exact Hly.
    - rewrite length_map, length_combine, length_map, Hly.
      rewrite (Hlen eq_refl). apply Nat.min_id. }
  split; [exact Hlen|].
  intros i Hi losses.
  assert (Hyi : nth_error (map (fun i0 => map (fun col => nth i0 col nan)
                                              (map f_fn ps))
                               (seq 0 (length c))) i
                = Some (map (fun col => nth i col nan) (map f_fn ps))).
  { rewrite nth_error_map, nth_error_seq.
    apply Nat.ltb_lt in Hi as ->. reflexivity. }
  assert (Hl : map nan_to_inf (map (fun col => nth i col nan) (map f_fn ps))
               = losses).
  { unfold losses. rewrite !map_map. reflexivity. }
  destruct force.
  - unfold ls_rows. rewrite nth_error_map, Hyi. simpl. rewrite Hl.
    reflexivity.
  - assert (Hfi : nth_error f i = Some (nth i f nan)).
    { apply nth_error_nth'. rewrite (Hlen eq_refl). exact Hi. }
    assert (Hlen' : length f
                    = length (map (fun i0 => map (fun col => nth i0 col nan)
                                                 (map f_fn ps))
                                  (seq 0 (length c))))
      by (rewrite Hly; auto).
    destruct (nth_error_unforced_row _ _ _ _ Hlen' Hfi) as (yi & Hyi' & Hr).
    rewrite Hyi in Hyi'. injection Hyi' as <-.
    rewrite Hr, Hl. reflexivity.
Qed.

(** C4.  The candidates are [10 ** linspace(-1, 1, n)] (five by
    default); the loss of each is taken at [x + bet * d], in order, and
    a loss that is NaN is replaced by [inf]; the zero step with the
    incumbent loss comes first unless a step is forced; every row gets
    the first candidate of minimal loss.  On the scenario of the
    specification the multiplier 1 with loss 1 is selected. *)
Theorem linesearch_selection (f : list float) (x d : tensor) (n : Z)
    (force : bool) (bet : list float) (dat : ls_data) (l l' : log) :
  _linesearch T f_fn f x d n force l = (Ret (bet, dat), l') ->
  let bets := ls_candidates T n in
  ls_pts_nb default_config = 5%Z /\
  ((2 <= n)%Z -> bets = map (pow T ten) (linspace T minus_one one n)) /\
  ((n < 2)%Z -> bets = [one]) /\
  (exists ps m,
     Forall2 (fun b p => tensor_add x (scalar_mul b d) = Ret p) bets ps /\
     l' = l ++ map CallF ps /\
     Forall (fun p => length (f_fn p) = m) ps /\
     (force = false -> length f = m) /\
     length bet = m /\
     length (f_best dat) = m /\
     forall i, i < m ->
       let losses :=
         map (fun p => let v := nth i (f_fn p) nan in
                       if is_nan v then inf else v) ps in
       let r := if force then losses else nth i f nan :: losses in
       let steps := if force then bets else zero :: bets in
       exists idx, idx < length r /\
         nth_error bet i = Some (nth idx steps nan) /\
         nth_error (f_best dat) i = Some (nth idx r nan) /\
         (forall j, ltb (nth j r nan) (nth idx r nan) = false) /\
         (forall j, j < idx -> leb (nth j r nan) (nth idx r nan) = false)) /\
  ls_select false [two] Ex.scen_bets Ex.scen_losses = Ret ([one], [one]).
Proof.
  intros H bets.
  split; [reflexivity|]. split.
  { intros Hn. unfold bets, ls_candidates.
    apply Z.leb_le in Hn. rewrite Hn. reflexivity. }
  split.
  { intros Hn. unfold bets, ls_candidates.
    destruct (2 <=? n)%Z eqn:E; trivial. apply Z.leb_le in E. lia. }
  split; [|vm_compute; reflexivity].
  apply linesearch_inv in H.
  destruct H as (cols & y & Hcols & Hy & Hsel & _).
  apply mapM_ls_eval in Hcols. destruct Hcols as (ps & Hps & -> & ->).
  apply ls_select_row in Hsel.
  destruct Hsel as (Hlen & Hbet & Hfb & Hrow).
  destruct (ls_rows_explicit force f ps y Hy Hlen)
    as (m & Hall & Hm & Hfm & Hrows).
  exists ps, m.
  split; [exact Hps|]. split; [reflexivity|]. split; [exact Hall|].
  split; [exact Hfm|]. split; [congruence|]. split; [congruence|].
  intros i Hi losses r steps.
  pose proof (Hrows i Hi) as Hr. cbv zeta in Hr. fold losses in Hr.
  destruct (Hrow _ _ Hr) as (idx & Harg & Hb & Hc).
  pose proof (argmin_spec _ _ Harg) as (Hidx & Hmin & Hfirst).
  exists idx. unfold r, steps.
  unfold ls_bets in Hb. fold bets in Hb.
  destruct force; auto.
Qed.
(** C10.  With fewer than two line-search points the only candidate is
    the multiplier 1; unforced, every row chooses between the zero step
    with its incumbent loss and the full step. *)
Theorem linesearch_single_candidate (f : list float) (x d : tensor)
    (n : Z) (bet : list float) (dat : ls_data) (l l' : log) :
  (n < 2)%Z ->
  _linesearch T f_fn f x d n false l = (Ret (bet, dat), l') ->
  ls_candidates T n = [one] /\
  ls_bets false (ls_candidates T n) = [zero; one] /\
  exists p,
    tensor_add x (scalar_mul one d) = Ret p /\
    l' = l ++ [CallF p] /\
    length (f_fn p) = length f /\
    forall i fi yi,
      nth_error f i = Some fi -> nth_error (f_fn p) i = Some yi ->
      let v := nan_to_inf yi in
      if less_or_nan fi v 0 1
      then nth_error bet i = Some zero /\ nth_error (f_best dat) i = Some fi
      else nth_error bet i = Some one /\ nth_error (f_best dat) i = Some v.
Proof.
  intros Hn H.
  assert (Hc : ls_candidates T n = [one]).
  { unfold ls_candidates.
    destruct (2 <=? n)%Z eqn:E; trivial. apply Z.leb_le in E. lia. }
  split; [exact Hc|]. split; [rewrite Hc; reflexivity|].
  apply linesearch_inv in H.
  destruct H as (cols & y & Hcols & Hy & Hsel & _).
  rewrite Hc in Hcols, Hsel.
  apply mapM_ls_eval in Hcols. destruct Hcols as (ps & Hps & -> & ->).
  inversion Hps as [|b p bs ps' Hp Hps' E1 E2]; subst.
  inversion Hps'; subst. clear Hps Hps'.
  exists p. split; [exact Hp|]. split; [reflexivity|].
  apply stack_cols_inv in Hy.
  destruct Hy as (c & cs & Hcs & _ & ->).
  simpl in Hcs. injection Hcs as <- <-.
  apply ls_select_row in Hsel.
  destruct Hsel as (Hlen & _ & _ & Hrow).
  specialize (Hlen eq_refl). rewrite length_map, length_seq in Hlen.
  split; [auto|].
  intros i fi yi Hfi Hyi v.
  assert (Hi : i < length (f_fn p)) by (apply nth_error_Some; congruence).
  assert (Hy : nth_error (map (fun i0 => map (fun col => nth i0 col nan)
                                             [f_fn p])
                              (seq 0 (length (f_fn p)))) i = Some [yi]).
  { rewrite nth_error_map, nth_error_seq.
    apply Nat.ltb_lt in Hi as ->. simpl.
    rewrite (nth_error_nth _ _ _ Hyi). reflexivity. }
  assert (Hl : length f = length (map (fun i0 => map (fun col => nth i0 col nan)
                                             [f_fn p])
                              (seq 0 (length (f_fn p)))))
    by (rewrite length_map, length_seq; exact Hlen).
  destruct (nth_error_unforced_row _ _ _ _ Hl Hfi) as (yi' & Hyi' & Hr).
  rewrite Hy in Hyi'. injection Hyi' as <-.
  destruct (Hrow _ _ Hr) as (idx & Harg & Hb & Hcn).
  simpl in Harg. fold v in Harg.
  destruct (less_or_nan fi v 0 1); injection Harg as <-; simpl in *; auto.
Qed.

End LineSearchClaims.

Section LineSearchExamples.

(** On the quadratic objective the full step from 0 is taken: the loss
    falls from 4 to 1. *)
Lemma linesearch_never_worse_witness :
  _linesearch Ref.ops Ex.quad_f [Ex.four] Ex.x0 Ex.d1 5 false []
    = (Ret ([one], ex_ls_dat), ex_ls_log 5 false) /\
  (length (f_best ex_ls_dat) = length [Ex.four] /\
   forall i fi, nth_error [Ex.four] i = Some fi ->
     exists chosen b,
       nth_error (f_best ex_ls_dat) i = Some chosen /\
       nth_error [one] i = Some b /\
       ltb fi chosen = false /\
       (is_nan fi = false -> leb chosen fi = true) /\
       (is_nan fi = true -> is_nan chosen = true /\ b = zero)).
Proof.
  split; [vm_compute; reflexivity|].
  apply (linesearch_never_worse Ref.ops Ex.quad_f [Ex.four] Ex.x0 Ex.d1 5
           [one] ex_ls_dat [] (ex_ls_log 5 false)).
  vm_compute. reflexivity.
Defined.

(** An incumbent loss that is NaN is returned as the chosen loss, and
    NaN is not less than or equal to NaN. *)
Lemma linesearch_le_counterexample :
  ~ linesearch_le_claim Ref.ops Ex.quad_f.
Proof.
  intros C.
  specialize (C [nan] Ex.x0 Ex.d1 5%Z [zero]
                {| d_norm := mkT [] [one]; f_best := [nan] |} []
                (snd (_linesearch Ref.ops Ex.quad_f [nan] Ex.x0 Ex.d1 5
                                  false []))).
  assert (H : leb nan nan = true).
  { apply (C ltac:(vm_compute; reflexivity) 0 nan nan); reflexivity. }
  discriminate H.
Qed.

(** The quadratic objective with a NaN loss past 5: the last candidate,
    at 10, is read as [inf], and the full step is selected. *)
Lemma linesearch_selection_witness :
  _linesearch Ref.ops nan_past_five_f [Ex.four] Ex.x0 Ex.d1 5 false []
    = (Ret ([one], ex_ls_dat), ex_ls_log 5 false) /\
  exists ps m,
    Forall2 (fun b p => tensor_add Ex.x0 (scalar_mul b Ex.d1) = Ret p)
            (ls_candidates Ref.ops 5) ps /\
    ex_ls_log 5 false = [] ++ map CallF ps /\
    Forall (fun p => length (nan_past_five_f p) = m) ps /\
    (false = false -> length [Ex.four] = m) /\
    length [one] = m /\
    length (f_best ex_ls_dat) = m /\
    forall i, i < m ->
      let losses :=
        map (fun p => let v := nth i (nan_past_five_f p) nan in
                      if is_nan v then inf else v) ps in
      let r := nth i [Ex.four] nan :: losses in
      let steps := zero :: ls_candidates Ref.ops 5 in
      exists idx, idx < length r /\
        nth_error [one] i = Some (nth idx steps nan) /\
        nth_error (f_best ex_ls_dat) i = Some (nth idx r nan) /\
        (forall j, ltb (nth j r nan) (nth idx r nan) = false) /\
        (forall j, j < idx -> leb (nth j r nan) (nth idx r nan) = false).
Proof.
  split; [vm_compute; reflexivity|].
  apply (linesearch_selection Ref.ops nan_past_five_f [Ex.four] Ex.x0 Ex.d1
           5 false [one] ex_ls_dat [] (ex_ls_log 5 false)).
  vm_compute. reflexivity.
Defined.

Lemma linesearch_single_candidate_witness :
  (1 < 2)%Z /\
  _linesearch Ref.ops Ex.quad_f [Ex.four] Ex.x0 Ex.d1 1 false []
    = (Ret ([one], ex_ls_dat), ex_ls_log 1 false) /\
  ls_bets false (ls_candidates Ref.ops 1) = [zero; one].
Proof.
  split; [lia|]. split; [vm_compute; reflexivity|].
  apply (linesearch_single_candidate Ref.ops Ex.quad_f [Ex.four] Ex.x0
           Ex.d1 1 [one] ex_ls_dat [] (ex_ls_log 1 false)).
  - lia.
  - vm_compute. reflexivity.
Defined.

End LineSearchExamples.

(** ** The Newton-step driver *)

Section Driver.

Variable T : torch_ops.
Variable f_fn : tensor -> list float.
Variable g_fn h_fn : tensor -> tensor.

Lemma emit_Ret (ev : event) (u : unit) (l l' : log) :
  emit ev l = (Ret u, l') -> l' = l ++ [ev].
Proof. unfold emit. intros H. injection H as _ <-. reflexivity. Qed.

Lemma when_Ret (b : bool) (ev : event) (u : unit) (l l' : log) :
  when b (emit ev) l = (Ret u, l') -> l' = l ++ (if b then [ev] else []).
Proof.
  destruct b; simpl.
  - apply emit_Ret.
  - intros H. apply ret_Ret in H. destruct H as [_ ->].
    rewrite app_nil_r. reflexivity.
Qed.

(** Everything a successful iteration did, in the order of the source. *)
Lemma sqp_iteration_inv (cfg : config) (fuel M : nat) (x_size : np_size)
    (x_shape : list nat) (st st' : sqp_state) (imprv : float)
    (l l' : log) :
  sqp_iteration T f_fn g_fn h_fn cfg fuel M x_size x_shape st l
    = (Ret (st', imprv), l') ->
  let x := st_x st in
  exists g H F info d0 d f bet dat x' bn l_ls,
    reshape_batch (g_fn x) M [x_size] = Ret g /\
    reshape_batch (h_fn x) M [x_size; x_size] = Ret H /\
    any_nan (data g) = false /\ any_nan (data H) = false /\
    _positive_factorization_lobpcg T H (reg0 cfg) fuel = Ret (F, info) /\
    cholesky_solve T (tensor_neg g) F = Ret d0 /\
    reshape d0 x_shape = Ret d /\
    hd_error (rev (st_f_hist st)) = Some f /\
    _linesearch T f_fn f x d (ls_pts_nb cfg) (force_step cfg)
                (l ++ [CallG x; CallH x]) = (Ret (bet, dat), l_ls) /\
    take_step M x_shape x d bet = Ret x' /\
    tensor_mul (vec bet) (d_norm dat) = Ret bn /\
    imprv = mean T bn /\
    l' = l_ls ++ (if has_callback cfg then [Callback x'] else []) /\
    update_best (batched cfg) M x' (f_best dat)
                (st_x_best st) (st_f_best st)
      = Ret (st_x_best st', st_f_best st') /\
    st_x st' = x' /\
    st_f_hist st' = st_f_hist st ++ [f_best dat] /\
    st_x_hist st' = st_x_hist st ++ [x'].
Proof.
  intros H x. unfold sqp_iteration in H. fold x in H.
  apply bind_Ret in H. destruct H as (g0 & l1 & Hg0 & H).
  unfold call_g in Hg0.
  apply bind_Ret in Hg0. destruct Hg0 as (u & l1' & He & Hg0).
  apply emit_Ret in He. subst l1'.
  apply ret_Ret in Hg0. destruct Hg0 as [<- ->].
  apply bind_Ret in H. destruct H as (g & l2 & Hg & H).
  apply lift_Ret in Hg. destruct Hg as [Hg ->].
  apply bind_Ret in H. destruct H as (H0 & l3 & HH0 & H).
  unfold call_h in HH0.
  apply bind_Ret in HH0. destruct HH0 as (u' & l3' & He & HH0).
  apply emit_Ret in He. subst l3'.
  apply ret_Ret in HH0. destruct HH0 as [<- ->].
  apply bind_Ret in H. destruct H as (Hm & l4 & HHm & H).
  apply lift_Ret in HHm. destruct HHm as [HHm ->].
  destruct (any_nan (data g)) eqn:Ng; [discriminate H|].
  destruct (any_nan (data Hm)) eqn:Nh; [discriminate H|].
  apply bind_Ret in H. destruct H as ([F info] & l5 & HF & H).
  apply lift_Ret in HF. destruct HF as [HF ->].
  apply bind_Ret in H. destruct H as (d0 & l6 & Hd0 & H).
  apply lift_Ret in Hd0. destruct Hd0 as [Hd0 ->].
  apply bind_Ret in H. destruct H as (d & l7 & Hd & H).
  apply lift_Ret in Hd. destruct Hd as [Hd ->].
  apply bind_Ret in H. destruct H as (f & l8 & Hf & H).
  apply lift_Ret in Hf. destruct Hf as [Hf ->].
  apply or_raise_Ret in Hf.
  apply bind_Ret in H. destruct H as ([bet dat] & l9 & Hls & H).
  apply bind_Ret in H. destruct H as (x' & l10 & Hx' & H).
  apply lift_Ret in Hx'. destruct Hx' as [Hx' ->].
  apply bind_Ret in H. destruct H as (bn & l11 & Hbn & H).
  apply lift_Ret in Hbn. destruct Hbn as [Hbn ->].
  apply bind_Ret in H. destruct H as (u'' & l12 & Hcb & H).
  apply when_Ret in Hcb. subst l12.
  apply bind_Ret in H. destruct H as ([xb fb] & l13 & Hub & H).
  apply lift_Ret in Hub. destruct Hub as [Hub ->].
  apply ret_Ret in H. destruct H as [H ->].
  injection H as <- <-. simpl.
  rewrite <- app_assoc in Hls. simpl in Hls.
  exists g, Hm, F, info, d0, d, f, bet, dat, x', bn, l9.
  repeat (split; [assumption || reflexivity|]). reflexivity.
Qed.

Lemma best_row_inv (x : tensor) (cand : list float) (xb : tensor)
    (fb : list float) (i : nat) (xr : tensor) (v : float) :
  best_row x cand xb fb i = Ret (xr, v) ->
  exists c b,
    nth_error cand i = Some c /\ nth_error fb i = Some b /\
    v = (if ltb c b then c else b) /\
    (if ltb c b then row x i else row xb i) = Ret xr.
Proof.
  unfold best_row. intros H.
  apply obind_Ret in H. destruct H as (c & Hc & H).
  apply obind_Ret in H. destruct H as (b & Hb & H).
  apply or_raise_Ret in Hc. apply or_raise_Ret in Hb.
  exists c, b. split; [exact Hc|]. split; [exact Hb|].
  destruct (ltb c b);
    apply obind_Ret in H; destruct H as (r & Hr & H);
    injection H as <- <-; auto.
Qed.

Lemma nth_error_seq_lt (M i : nat) :
  i < M -> nth_error (seq 0 M) i = Some i.
Proof.
  intros H. rewrite nth_error_seq.
  apply Nat.ltb_lt in H as ->. reflexivity.
Qed.

(** The update of the best loss, row by row: the lower of the
    candidate and the previous best, the previous best on a tie. *)
Lemma update_best_rows (batched : bool) (M : nat) (x : tensor)
    (cand : list float) (xb : tensor) (fb : list float)
    (xb' : tensor) (fb' : list float) :
  update_best batched M x cand xb fb = Ret (xb', fb') ->
  forall i, i < tracked_rows batched M ->
    exists c b,
      nth_error cand i = Some c /\ nth_error fb i = Some b /\
      nth_error fb' i = Some (if ltb c b then c else b).
Proof.
  unfold update_best, tracked_rows. destruct batched; intros H i Hi.
  - apply obind_Ret in H. destruct H as (rows & Hrows & H).
    apply obind_Ret in H. destruct H as (s & Hs & H).
    injection H as <- <-.
    apply omapM_Ret in Hrows.
    destruct (Forall2_nth_error _ _ _ Hrows _ _ (nth_error_seq_lt _ _ Hi))
      as ([xr v] & Hr & Hbr).
    apply best_row_inv in Hbr.
    destruct Hbr as (c & b & Hc & Hb & -> & _).
    exists c, b. repeat split; trivial.
    rewrite nth_error_map, Hr. reflexivity.
  - assert (i = 0) as -> by lia.
    apply obind_Ret in H. destruct H as (c & Hc & H).
    apply obind_Ret in H. destruct H as (b & Hb & H).
    apply or_raise_Ret in Hc. apply or_raise_Ret in Hb.
    exists c, b. repeat split; trivial.
    destruct (ltb c b); injection H as <- <-; assumption.
Qed.

Lemma last_snoc {A} (l : list A) (a d : A) : last (l ++ [a]) d = a.
Proof. apply last_last. Qed.

(** C5.  Across an iteration the best loss of every tracked row becomes
    the lower of the line-search candidate of the row and its previous
    value; it never increases. *)
Theorem f_best_never_increases (cfg : config) (fuel M : nat) (x_size : np_size)
    (x_shape : list nat) (st st' : sqp_state) (imprv : float)
    (l l' : log) :
  sqp_iteration T f_fn g_fn h_fn cfg fuel M x_size x_shape st l
    = (Ret (st', imprv), l') ->
  forall i, i < tracked_rows (batched cfg) M ->
    exists old cand new,
      nth_error (st_f_best st) i = Some old /\
      nth_error (last (st_f_hist st') []) i = Some cand /\
      nth_error (st_f_best st') i = Some new /\
      new = (if ltb cand old then cand else old) /\
      ltb old new = false.
Proof.
  intros H i Hi.
  apply sqp_iteration_inv in H.
  destruct H as (g & Hm & F & info & d0 & d & f & bet & dat & x' & bn & l_ls
                 & _ & _ & _ & _ & _ & _ & _ & _ & _ & _ & _ & _ & _
                 & Hub & _ & Hfh & _).
  destruct (update_best_rows _ _ _ _ _ _ _ _ Hub i Hi)
    as (c & b & Hc & Hb & Hn).
  exists b, c, (if ltb c b then c else b).
  rewrite Hfh, last_snoc.
  repeat (split; [assumption || reflexivity|]).
  destruct (ltb c b) eqn:E.
  - apply ltb_asym. exact E.
  - apply ltb_irrefl.
Qed.

(** *** The loop and its convergence test *)

Lemma sqp_steps_length (cfg : config) (fuel M : nat) (x_size : np_size)
    (x_shape : list nat) (k : nat) (st fin : sqp_state)
    (imprvs : list float) (l l' : log) :
  sqp_steps T f_fn g_fn h_fn cfg fuel M x_size x_shape k st l
    = (Ret (fin, imprvs), l') ->
  length imprvs = k.
Proof.
  revert st l fin imprvs l'.
  induction k as [|k IH]; intros st l fin imprvs l' H; simpl in H.
  - apply ret_Ret in H. destruct H as [H _]. injection H as _ <-.
    reflexivity.
  - apply bind_Ret in H. destruct H as ([st1 v] & l1 & H1 & H).
    apply bind_Ret in H. destruct H as ([fin' vs] & l2 & H2 & H).
    apply ret_Ret in H. destruct H as [H _]. injection H as _ <-.
    simpl. f_equal. eapply IH. exact H2.
Qed.

(** A run of the loop that returns is a run of [k] iterations, none of
    which but the last saw [imprv < 1e-9]; when the budget is not
    spent the last one did. *)
Lemma sqp_loop_steps (cfg : config) (fuel M : nat) (x_size : np_size)
    (x_shape : list nat) (n : nat) (st fin : sqp_state) (l l' : log) :
  sqp_loop T f_fn g_fn h_fn cfg fuel M x_size x_shape n st l
    = (Ret fin, l') ->
  exists k imprvs,
    k <= n /\
    sqp_steps T f_fn g_fn h_fn cfg fuel M x_size x_shape k st l
      = (Ret (fin, imprvs), l') /\
    (forall j, S j < k -> ltb (nth j imprvs nan) c_1e_9 = false) /\
    (k < n -> 0 < k /\ ltb (nth (k - 1) imprvs nan) c_1e_9 = true).
Proof.
  revert st l.
  induction n as [|n IH]; intros st l H; simpl in H.
  - apply ret_Ret in H. destruct H as [<- <-].
    exists 0, []. repeat split; try lia. 
  - apply bind_Ret in H. destruct H as ([st1 v] & l1 & H1 & H).
    destruct (ltb v c_1e_9) eqn:E.
    + apply ret_Ret in H. destruct H as [<- <-].
      exists 1, [v]. split; [lia|]. split.
      { simpl. unfold bind. rewrite H1. reflexivity. }
      split; [intros j Hj; lia|]. intros _. split; [lia|exact E].
    + apply IH in H. destruct H as (k & vs & Hk & Hs & Hall & Hlast).
      exists (S k), (v :: vs). split; [lia|]. split.
      { simpl. unfold bind at 1. rewrite H1.
        unfold bind. rewrite Hs. reflexivity. }
      split.
      * intros [|j] Hj; simpl; [exact E|]. apply Hall. lia.
      * intros Hkn. destruct Hlast as [Hpos Hl]; [lia|].
        split; [lia|].
        destruct k as [|k]; [lia|]. simpl in *.
        rewrite Nat.sub_0_r in Hl. exact Hl.
Qed.


(** *** Runs *)

Lemma sqp_run_inv (cfg : config) (args : list tensor) (fuel : nat)
    (fin : sqp_state) (l l' : log) :
  sqp_run T f_fn g_fn h_fn cfg args fuel l = (Ret fin, l') ->
  exists x M x_size,
    args = [x] /\
    batch_dims (batched cfg) x = Ret (M, x_size) /\
    sqp_loop T f_fn g_fn h_fn cfg fuel M x_size (shape x)
             (Z.to_nat (max_it cfg)) (init_state f_fn x)
             (l ++ init_log cfg x) = (Ret fin, l').
Proof.
  unfold sqp_run. intros H.
  destruct (1 <? length args) eqn:E; [discriminate H|].
  apply Nat.ltb_ge in E.
  apply bind_Ret in H. destruct H as (x & l1 & Hx & H).
  apply lift_Ret in Hx. destruct Hx as [Hx ->].
  apply or_raise_Ret in Hx.
  apply bind_Ret in H. destruct H as ([M x_size] & l2 & Hd & H).
  apply lift_Ret in Hd. destruct Hd as [Hd ->].
  apply bind_Ret in H. destruct H as (fx & l3 & Hf & H).
  unfold call_f in Hf.
  apply bind_Ret in Hf. destruct Hf as (u & l3' & He & Hf).
  apply emit_Ret in He. subst l3'.
  apply ret_Ret in Hf. destruct Hf as [<- ->].
  apply bind_Ret in H. destruct H as (u' & l4 & Hcb & H).
  exists x, M, x_size.
  split.
  { destruct args as [|a [|b args]]; simpl in *; try discriminate; try lia.
    congruence. }
  split; [exact Hd|].
  unfold init_state, init_log.
  destruct (has_callback cfg); simpl in Hcb.
  - apply bind_Ret in Hcb. destruct Hcb as (u2 & l5 & He1 & He2).
    apply emit_Ret in He1. apply emit_Ret in He2. subst l5 l4.
    rewrite <- !app_assoc in H. simpl in H. exact H.
  - apply ret_Ret in Hcb. destruct Hcb as [_ ->]. exact H.
Qed.

Lemma minimize_sqp_inv (cfg : config) (args : list tensor) (fuel : nat)
    (r : tensor * option (list tensor)) (l l' : log) :
  minimize_sqp T f_fn g_fn h_fn cfg args fuel l = (Ret r, l') ->
  exists fin,
    sqp_run T f_fn g_fn h_fn cfg args fuel l = (Ret fin, l') /\
    r = sqp_result cfg fin.
Proof.
  unfold minimize_sqp. intros H.
  apply bind_Ret in H. destruct H as (fin & l1 & Hr & H).
  apply ret_Ret in H. destruct H as [<- ->]. eauto.
Qed.

(** A run on a single variable is the loop from the initial state. *)
Lemma sqp_run_single (cfg : config) (x : tensor) (M : nat)
    (x_size : np_size) (fuel : nat) (l : log) :
  batch_dims (batched cfg) x = Ret (M, x_size) ->
  sqp_run T f_fn g_fn h_fn cfg [x] fuel l
  = sqp_loop T f_fn g_fn h_fn cfg fuel M x_size (shape x)
             (Z.to_nat (max_it cfg)) (init_state f_fn x)
             (l ++ init_log cfg x).
Proof.
  intros Hd.
  unfold sqp_run, bind, lift, call_f, bind, emit, ret, when, init_log.
  simpl. rewrite Hd.
  destruct (has_callback cfg); simpl; rewrite <- ?app_assoc; reflexivity.
Qed.

(** An iteration whose regularizer is still running when the fuel is
    spent. *)
Lemma sqp_iteration_out_of_fuel (cfg : config) (fuel M : nat) (x_size : np_size)
    (x_shape : list nat) (st : sqp_state) (l : log) (g H : tensor) :
  reshape_batch (g_fn (st_x st)) M [x_size] = Ret g ->
  reshape_batch (h_fn (st_x st)) M [x_size; x_size] = Ret H ->
  any_nan (data g) = false ->
  any_nan (data H) = false ->
  _positive_factorization_lobpcg T H (reg0 cfg) fuel = OutOfFuel ->
  sqp_iteration T f_fn g_fn h_fn cfg fuel M x_size x_shape st l
  = (OutOfFuel, l ++ [CallG (st_x st); CallH (st_x st)]).
Proof.
  intros Hg HH Ng NH Hout.
  unfold sqp_iteration, bind, lift, call_g, call_h, bind, emit, ret.
  rewrite Hg, HH, Ng, NH, Hout, <- app_assoc. reflexivity.
Qed.

Lemma sqp_loop_out_of_fuel (cfg : config) (fuel M : nat) (x_size : np_size)
    (x_shape : list nat) (n : nat) (st : sqp_state) (l l' : log) :
  sqp_iteration T f_fn g_fn h_fn cfg fuel M x_size x_shape st l
    = (OutOfFuel, l') ->
  sqp_loop T f_fn g_fn h_fn cfg fuel M x_size x_shape (S n) st l
    = (OutOfFuel, l').
Proof. intros H. simpl. unfold bind. rewrite H. reflexivity. Qed.


(** C9.  More than one variable: the run raises the input error at
    once; the log is as it was, no function of the caller was called. *)
Theorem several_variables_rejected (cfg : config) (args : list tensor)
    (fuel : nat) (l : log) :
  1 < length args ->
  minimize_sqp T f_fn g_fn h_fn cfg args fuel l
    = (Raise (ValueError "SQP only only supports single variable functions"),
       l).
Proof.
  intros H. apply Nat.ltb_lt in H.
  unfold minimize_sqp, sqp_run, bind. rewrite H. reflexivity.
Qed.

(** *** NaN in the gradient or the Hessian *)

Lemma sqp_loop_raise (cfg : config) (fuel M : nat) (x_size : np_size)
    (x_shape : list nat) (n : nat) (st : sqp_state) (e : exn) (l l' : log) :
  sqp_iteration T f_fn g_fn h_fn cfg fuel M x_size x_shape st l
    = (Raise e, l') ->
  sqp_loop T f_fn g_fn h_fn cfg fuel M x_size x_shape (S n) st l
    = (Raise e, l').
Proof. intros H. simpl. unfold bind. rewrite H. reflexivity. Qed.




Lemma minimize_sqp_raise (cfg : config) (args : list tensor) (fuel : nat)
    (e : exn) (l l' : log) :
  sqp_run T f_fn g_fn h_fn cfg args fuel l = (Raise e, l') ->
  minimize_sqp T f_fn g_fn h_fn cfg args fuel l = (Raise e, l').
Proof. intros H. unfold minimize_sqp, bind. rewrite H. reflexivity. Qed.



End Driver.

Section DriverExamples.

(** The first iteration on the batch of two bowls: both rows improve. *)
Lemma f_best_never_increases_witness :
  sqp_iteration Ref.ops ExB.f ExB.g ExB.h batched_config 30
                2 (IntSize 3) [2; 3] ExB.st0 (init_log batched_config ExB.x0)
    = (Ret (ExB.st1, ExB.imprv1), snd ExB.iter) /\
  forall i, i < tracked_rows (batched batched_config) 2 ->
    exists old cand new,
      nth_error (st_f_best ExB.st0) i = Some old /\
      nth_error (last (st_f_hist ExB.st1) []) i = Some cand /\
      nth_error (st_f_best ExB.st1) i = Some new /\
      new = (if ltb cand old then cand else old) /\
      ltb old new = false.
Proof.
  split; [vm_compute; reflexivity|].
  apply (f_best_never_increases Ref.ops ExB.f ExB.g ExB.h
           batched_config 30 2 (IntSize 3) [2; 3] ExB.st0 ExB.st1 ExB.imprv1
           (init_log batched_config ExB.x0) (snd ExB.iter)).
  vm_compute. reflexivity.
Defined.


Lemma several_variables_rejected_witness :
  1 < length [Ex.x0; Ex.x0] /\
  minimize_sqp Ref.ops Ex.quad_f Ex.quad_g Ex.quad_h default_config
               [Ex.x0; Ex.x0] 30 []
    = (Raise (ValueError "SQP only only supports single variable functions"),
       []).
Proof.
  split; [simpl; lia|].
  apply several_variables_rejected. simpl. lia.
Defined.


End DriverExamples.

(** ** The Hessian regularizer *)

Section Regularizer.

Variable T : torch_ops.

(** A shift that the escalation leaves where it is, below the bound:
    when the factorization fails at it, the loop goes on for ever. *)
Lemma chol_loop_stuck (H : tensor) (reg : float) :
  mul reg five = reg ->
  geb reg c_0_99e7 = false ->
  try_factor T H reg = None ->
  forall fuel reg_it, chol_loop T fuel H reg reg_it = OutOfFuel.
Proof.
  intros Hmul Hge Hfail.
  induction fuel as [|fuel IH]; intros reg_it; simpl; trivial.
  rewrite Hfail, Hmul, Hge. apply IH.
Qed.

(** C1, at the failing input.  From the initial shift 0, a Hessian whose
    factorization fails is retried with the shift [0 * 5 = 0] without
    end: whatever the fuel, the loop has neither returned nor raised. *)
Theorem cholesky_escalation_stuck_at_zero (H : tensor) :
  try_factor T H zero = None ->
  forall fuel, _positive_factorization_cholesky T H zero fuel = OutOfFuel.
Proof.
  intros Hfail fuel. unfold _positive_factorization_cholesky.
  apply chol_loop_stuck; trivial.
Qed.

(** What the loop returns, when it returns: the shift after [k]
    escalations, the first at which the factorization succeeds. *)
Lemma iter_mul_succ (n : nat) (reg : float) :
  Nat.iter (S n) (fun v => mul v five) reg
  = Nat.iter n (fun v => mul v five) (mul reg five).
Proof.
  induction n as [|n IH]; [reflexivity|].
  simpl in *. rewrite IH. reflexivity.
Qed.

Lemma chol_loop_Ret (fuel : nat) (H : tensor) (reg : float) (reg_it : Z)
    (F : tensor) (k : Z) (r : float) :
  chol_loop T fuel H reg reg_it = Ret (F, (k, r)) ->
  exists n,
    k = (reg_it + Z.of_nat n)%Z /\
    r = Nat.iter n (fun v => mul v five) reg /\
    try_factor T H r = Some F /\
    forall j, j < n ->
      try_factor T H (Nat.iter j (fun v => mul v five) reg) = None /\
      geb (Nat.iter (S j) (fun v => mul v five) reg) c_0_99e7 = false.
Proof.
  revert reg reg_it.
  induction fuel as [|fuel IH]; intros reg reg_it Hl; simpl in Hl;
    [discriminate Hl|].
  destruct (try_factor T H reg) as [F'|] eqn:Hf.
  - injection Hl as <- <- <-. exists 0.
    split; [lia|]. split; [reflexivity|]. split; [exact Hf|].
    intros j Hj. lia.
  - destruct (geb (mul reg five) c_0_99e7) eqn:Hg; [discriminate Hl|].
    apply IH in Hl. destruct Hl as (n & -> & -> & Hs & Hall).
    exists (S n). split; [lia|]. split; [apply eq_sym, iter_mul_succ|].
    split; [exact Hs|].
    intros [|j] Hj.
    + split; [exact Hf|exact Hg].
    + rewrite (iter_mul_succ j), (iter_mul_succ (S j)).
      apply Hall. lia.
Qed.

(** When [n + 1] escalations take the shift to the bound, the loop ends
    within [n + 1] attempts. *)
Lemma chol_loop_bounded (n : nat) (H : tensor) :
  forall (reg : float) (fuel : nat) (reg_it : Z),
  geb (Nat.iter (S n) (fun v => mul v five) reg) c_0_99e7 = true ->
  n < fuel ->
  chol_loop T fuel H reg reg_it <> OutOfFuel.
Proof.
  induction n as [|n IH]; intros reg fuel reg_it Hb Hfuel;
    (destruct fuel as [|fuel]; [lia|]); simpl;
    destruct (try_factor T H reg); try discriminate;
    destruct (geb (mul reg five) c_0_99e7) eqn:Hg; try discriminate.
  - simpl in Hb. congruence.
  - rewrite iter_mul_succ in Hb. apply IH; trivial. lia.
Qed.

(** The only exception of the loop is the one of line 294. *)
Lemma chol_loop_Raise (fuel : nat) (H : tensor) (reg : float) (reg_it : Z)
    (e : exn) :
  chol_loop T fuel H reg reg_it = Raise e ->
  e = RuntimeError "Numerical problems".
Proof.
  revert reg reg_it.
  induction fuel as [|fuel IH]; intros reg reg_it Hl; simpl in Hl;
    [discriminate Hl|].
  destruct (try_factor T H reg); [discriminate Hl|].
  destruct (geb (mul reg five) c_0_99e7).
  - injection Hl as <-. reflexivity.
  - eapply IH. exact Hl.
Qed.

(** C2, at the failing input.  A batch of three 1x1 Hessians cannot be
    reshaped to one 1x1 matrix: the exact branch for dimensions below 3
    raises, whatever the backend. *)
Theorem tiny_batched_hessian_raises (reg0 : float) (fuel : nat) :
  _positive_factorization_lobpcg T H_batch3 reg0 fuel = Raise shape_error.
Proof. reflexivity. Qed.

(** The same for every batch of more than one matrix of dimension 1
    or 2. *)
Lemma batched_tiny_reshape_fails (H : tensor) (M n : nat)
    (reg0 : float) (fuel : nat) :
  shape H = [M; n; n] ->
  length (data H) = M * n * n ->
  0 < n < 3 -> 1 < M ->
  _positive_factorization_lobpcg T H reg0 fuel = Raise shape_error.
Proof.
  intros Hs Hl Hn HM.
  unfold _positive_factorization_lobpcg, min_eig_estimate.
  rewrite Hs. simpl.
  assert (E : (n <? 3) = true) by (apply Nat.ltb_lt; lia).
  rewrite E. unfold reshape. rewrite Hl.
  assert (E' : (M * n * n =? numel_of [n; n]) = false).
  { apply Nat.eqb_neq. simpl. nia. }
  rewrite E'. reflexivity.
Qed.

(** Where an estimate of the lowest eigenvalue is obtained, the initial
    shift is [max(max(-2 * estimate, 0), reg0)]; the estimate is the
    least entry of [eigvals] below dimension 3 and the first value
    returned by [lobpcg] with [k=1, largest=False, niter=100, tol=1e-3]
    from dimension 3 on. *)
Lemma lobpcg_shift (H : tensor) (reg0 : float) (fuel : nat) (lam : float) :
  min_eig_estimate T H = Ret lam ->
  _positive_factorization_lobpcg T H reg0 fuel
    = _positive_factorization_cholesky T H
        (py_max (py_max (mul minus_two lam) zero) reg0) fuel.
Proof.
  intros E. unfold _positive_factorization_lobpcg. rewrite E. reflexivity.
Qed.

Lemma min_eig_estimate_exact (H : tensor) (n : nat) (s : list nat) :
  shape H = s ++ [n] -> n < 3 ->
  min_eig_estimate T H =
    obind (reshape H [n; n])
          (fun H2 => obind (eigvals_real T H2) tensor_min).
Proof.
  intros Hs Hn. unfold min_eig_estimate.
  rewrite Hs, rev_app_distr. simpl.
  apply Nat.ltb_lt in Hn. rewrite Hn.
  destruct (reshape H [n; n]) as [H2| |]; simpl; trivial.
  destruct (eigvals_real T H2) as [ev| |]; simpl; trivial.
  destruct (tensor_min ev); reflexivity.
Qed.

Lemma min_eig_estimate_iterative (H : tensor) (n : nat) (s : list nat) :
  shape H = s ++ [n] -> 3 <= n ->
  min_eig_estimate T H =
    obind (lobpcg T H 1%Z false 100%Z c_1e_3)
          (fun ev => or_raise index_error (hd_error ev)).
Proof.
  intros Hs Hn. unfold min_eig_estimate.
  rewrite Hs, rev_app_distr. simpl.
  assert (E : (n <? 3) = false) by (apply Nat.ltb_ge; lia).
  rewrite E. reflexivity.
Qed.

End Regularizer.

Section RegularizerExamples.

Lemma cholesky_escalation_stuck_at_zero_witness :
  try_factor Ref.ops H_zero zero = None /\
  _positive_factorization_cholesky Ref.ops H_zero zero 1000 = OutOfFuel.
Proof.
  split; [vm_compute; reflexivity|].
  apply cholesky_escalation_stuck_at_zero. vm_compute. reflexivity.
Defined.

(** The same through the wrapper: the estimate of the lowest eigenvalue
    of the zero Hessian is 0, the initial shift [max(max(-0.0, 0.0), 0.0)]
    is a zero. *)
Lemma lobpcg_stuck_at_zero (fuel : nat) :
  _positive_factorization_lobpcg Ref.ops H_zero zero fuel = OutOfFuel.
Proof.
  rewrite (lobpcg_shift Ref.ops H_zero zero fuel zero)
    by (vm_compute; reflexivity).
  unfold _positive_factorization_cholesky.
  apply chol_loop_stuck; vm_compute; reflexivity.
Qed.

(** And through the optimizer: on a flat objective with [reg0 = 0] the
    first iteration never gets past the regularizer. *)
Lemma minimize_sqp_stuck_at_zero (fuel : nat) :
  minimize_sqp Ref.ops flat_f flat_g flat_h zero_reg_config [Ex.x0] fuel []
  = (OutOfFuel, [CallF Ex.x0; CallG Ex.x0; CallH Ex.x0]).
Proof.
  unfold minimize_sqp.
  unfold bind at 1.
  rewrite (sqp_run_single Ref.ops flat_f flat_g flat_h zero_reg_config
             Ex.x0 1 (IntSize 1) fuel []) by reflexivity.
  change (Z.to_nat (max_it zero_reg_config)) with (S 99).
  rewrite (sqp_loop_out_of_fuel Ref.ops flat_f flat_g flat_h
             zero_reg_config fuel 1 (IntSize 1) (shape Ex.x0) 99
             (init_state flat_f Ex.x0) ([] ++ init_log zero_reg_config Ex.x0)
             [CallF Ex.x0; CallG Ex.x0; CallH Ex.x0]);
    [reflexivity|].
  apply (sqp_iteration_out_of_fuel Ref.ops flat_f flat_g flat_h
           zero_reg_config fuel 1 (IntSize 1) [1] (init_state flat_f Ex.x0)
           [CallF Ex.x0] (mkT [1; 1] [zero]) H_zero);
    try reflexivity.
  apply lobpcg_stuck_at_zero.
Qed.

(** The batched bowls of the specification, one variable per row: the
    first iteration raises in the regularizer. *)
Lemma batched_bowls_raise :
  fst (minimize_sqp Ref.ops bowls_f bowls_g bowls_h batched_config
                    [bowls_x0] 30 []) = Raise shape_error.
Proof. vm_compute. reflexivity. Qed.

(** From the default [reg0 = 1e-7] the bound is reached with the 21st
    escalation, whatever the Hessian and the backend. *)
Lemma default_shift_bounded (T : torch_ops) (H : tensor) :
  _positive_factorization_cholesky T H c_1e_7 21 <> OutOfFuel.
Proof.
  apply (chol_loop_bounded T 20). 
  - vm_compute. reflexivity.
  - lia.
Qed.

End RegularizerExamples.

(** ** Escalation from a positive shift *)

Section Escalation.

Local Open Scope Z_scope.

Lemma digits2_pos_size (p : positive) : digits2_pos p = Pos.size p.
Proof. induction p; simpl; congruence. Qed.

Lemma digits_log2 (p : positive) :
  Zpos (digits2_pos p) = Z.log2 (Zpos p) + 1.
Proof.
  rewrite digits2_pos_size.
  destruct p; simpl; rewrite ?Pos2Z.inj_succ; lia.
Qed.

Lemma Zdigits2_log2 (v : Z) : 0 < v -> Zdigits2 v = Z.log2 v + 1.
Proof. destruct v; try lia. intros _. apply digits_log2. Qed.

Lemma iter_pos_nat {A} (f : A -> A) (p : positive) :
  forall x, iter_pos f p x = Nat.iter (Pos.to_nat p) f x.
Proof.
  induction p as [p IH|p IH|]; intros x; cbn [iter_pos].
  - rewrite !IH, Pos2Nat.inj_xI.
    replace (S (2 * Pos.to_nat p))%nat
      with (Pos.to_nat p + S (Pos.to_nat p))%nat by lia.
    rewrite Nat.iter_add, Nat.iter_succ_r. reflexivity.
  - rewrite !IH, Pos2Nat.inj_xO.
    replace (2 * Pos.to_nat p)%nat
      with (Pos.to_nat p + Pos.to_nat p)%nat by lia.
    rewrite Nat.iter_add. reflexivity.
  - reflexivity.
Qed.

Lemma shr_1_m (r : shr_record) :
  0 <= shr_m r -> shr_m (shr_1 r) = shr_m r / 2.
Proof.
  destruct r as [m r s]. cbn [shr_m]. intros Hm.
  destruct m as [|[p|p|]|p]; cbn [shr_1 shr_m]; try lia.
  - reflexivity.
  - rewrite Pos2Z.inj_xI.
    apply (Z.div_unique _ _ _ 1); lia.
  - rewrite Pos2Z.inj_xO.
    apply (Z.div_unique _ _ _ 0); lia.
  - reflexivity.
Qed.

Lemma shr_m_iter (k : nat) (r : shr_record) :
  0 <= shr_m r ->
  shr_m (Nat.iter k shr_1 r) = shr_m r / 2 ^ Z.of_nat k.
Proof.
  intros Hm. induction k as [|k IH].
  - simpl. rewrite Z.div_1_r. reflexivity.
  - simpl Nat.iter. rewrite shr_1_m.
    + rewrite IH, Nat2Z.inj_succ, Z.pow_succ_r by lia.
      rewrite Z.div_div by lia. f_equal. lia.
    + rewrite IH. apply Z.div_pos; lia.
Qed.

Lemma shr_record_of_loc_m (m : Z) (l : location) :
  shr_m (shr_record_of_loc m l) = m.
Proof. destruct l as [|[ | | ]]; reflexivity. Qed.

(** [shr_fexp] divides the mantissa by the power of two that brings
    the exponent up to the one of the format. *)
Lemma shr_fexp_spec (m e : Z) (l : location) :
  0 < m ->
  let k := Z.max (fexp prec emax (Zdigits2 m + e) - e) 0 in
  exists r,
    shr_fexp prec emax m e l = (r, e + k) /\ shr_m r = m / 2 ^ k.
Proof.
  intros Hm k. unfold shr_fexp, shr. subst k.
  destruct (fexp prec emax (Zdigits2 m + e) - e) as [|p|p] eqn:E.
  - eexists. rewrite Z.add_0_r. split; [reflexivity|].
    rewrite shr_record_of_loc_m. simpl. rewrite Z.div_1_r. reflexivity.
  - eexists. rewrite Z.max_l by lia. split; [reflexivity|].
    rewrite iter_pos_nat, shr_m_iter, shr_record_of_loc_m.
    + rewrite positive_nat_Z. reflexivity.
    + rewrite shr_record_of_loc_m. lia.
  - eexists. rewrite Z.max_r by lia. rewrite Z.add_0_r.
    split; [reflexivity|].
    rewrite shr_record_of_loc_m. simpl. rewrite Z.div_1_r. reflexivity.
Qed.

Lemma round_nearest_even_bounds (m : Z) (l : location) :
  m <= round_nearest_even m l <= m + 1.
Proof.
  destruct l as [|[ | | ]]; simpl; try lia.
  destruct (Z.even m); lia.
Qed.

(** What rounding a positive mantissa gives, in two steps. *)
Lemma binary_round_aux_pos (mx ex : Z) (l : location) :
  0 < mx ->
  let k1 := Z.max (fexp prec emax (Zdigits2 mx + ex) - ex) 0 in
  let e1 := ex + k1 in
  exists m2,
    mx / 2 ^ k1 <= m2 <= mx / 2 ^ k1 + 1 /\
    (0 < m2 ->
     let k2 := Z.max (fexp prec emax (Zdigits2 m2 + e1) - e1) 0 in
     binary_round_aux prec emax false mx ex l =
     match m2 / 2 ^ k2 with
     | Z0 => S754_zero false
     | Zpos m3 =>
       if e1 + k2 <=? emax - prec then S754_finite false m3 (e1 + k2)
       else S754_infinity false
     | Zneg _ => S754_nan
     end).
Proof.
  intros Hm k1 e1.
  destruct (shr_fexp_spec mx ex l Hm) as (r1 & H1 & Hr1).
  fold k1 in H1, Hr1. fold e1 in H1.
  exists (round_nearest_even (shr_m r1) (loc_of_shr_record r1)).
  split.
  { rewrite <- Hr1. apply round_nearest_even_bounds. }
  intros Hm2 k2.
  destruct (shr_fexp_spec _ e1 loc_Exact Hm2) as (r2 & H2 & Hr2).
  fold k2 in H2, Hr2.
  unfold binary_round_aux. rewrite H1, H2, Hr2. reflexivity.
Qed.

Lemma fexp_64 (z : Z) : fexp prec emax z = Z.max (z - 53) (-1074).
Proof. reflexivity. Qed.

Lemma bounded_64 (m : positive) (e : Z) :
  bounded prec emax m e = true <->
  Z.max (Z.log2 (Zpos m) + 1 + e - 53) (-1074) = e /\ e <= 971.
Proof.
  unfold bounded, canonical_mantissa.
  rewrite fexp_64, digits_log2, andb_true_iff, Z.eqb_eq, Z.leb_le.
  reflexivity.
Qed.

Lemma log2_div_pow2 (a k : Z) :
  0 < a -> 0 <= k -> Z.log2 (a / 2 ^ k) = Z.max 0 (Z.log2 a - k).
Proof.
  intros Ha Hk. rewrite <- Z.shiftr_div_pow2 by assumption.
  apply Z.log2_shiftr. assumption.
Qed.

(** Multiplying a positive binary64 number by 5 gives infinity or a
    binary64 number whose binary order of magnitude is at least 2
    more. *)
Lemma mul_five_grows (m : positive) (e : Z) :
  bounded prec emax m e = true ->
  mul (S754_finite false m e) five = S754_infinity false \/
  exists m' e',
    mul (S754_finite false m e) five = S754_finite false m' e' /\
    bounded prec emax m' e' = true /\
    Z.log2 (Zpos m) + e + 2 <= Z.log2 (Zpos m') + e'.
Proof.
  intros Hb. apply bounded_64 in Hb. destruct Hb as [Hcan Hmax].
  unfold mul, five, SFmul. cbn [xorb].
  set (mx := Zpos (m * 5629499534213120)).
  set (ex := e + -50).
  assert (Hmx : 0 < mx) by (unfold mx; lia).
  set (L := Z.log2 (Zpos m)) in *.
  assert (HL : 0 <= L) by apply Z.log2_nonneg.
  assert (Hm : 2 ^ L <= Zpos m < 2 ^ (L + 1)).
  { pose proof (Z.log2_spec (Zpos m) ltac:(lia)) as X.
    unfold L. rewrite <- Z.add_1_r in X. exact X. }
  assert (Hmxv : mx = Zpos m * 5629499534213120) by (unfold mx; lia).
  assert (Hd : L + 52 <= Z.log2 mx <= L + 53).
  { split.
    - apply Z.log2_le_pow2; trivial.
      rewrite Z.pow_add_r by lia. rewrite Hmxv.
      change (2 ^ 52) with 4503599627370496. nia.
    - apply Z.lt_succ_r. apply Z.log2_lt_pow2; trivial.
      replace (Z.succ (L + 53)) with ((L + 1) + 53) by lia.
      rewrite Z.pow_add_r by lia. rewrite Hmxv.
      change (2 ^ 53) with 9007199254740992. nia. }
  destruct (binary_round_aux_pos mx ex loc_Exact Hmx) as (m2 & Hm2 & Heq).
  cbv zeta in Hm2, Heq.
  rewrite (Zdigits2_log2 mx Hmx), fexp_64 in Hm2.
  set (d := Z.log2 mx + 1) in *.
  set (k1 := Z.max (Z.max (d + ex - 53) (-1074) - ex) 0) in *.
  assert (Hk1 : d - 53 <= k1 <= d - 1 /\ 0 <= k1) by (unfold k1, ex, d; lia).
  assert (Hm1 : 0 < mx / 2 ^ k1).
  { apply Z.div_str_pos. split; [apply Z.pow_pos_nonneg; lia|].
    apply Z.le_trans with (2 ^ Z.log2 mx).
    - apply Z.pow_le_mono_r; lia.
    - apply Z.log2_spec. assumption. }
  assert (Hl1 : Z.log2 (mx / 2 ^ k1) = d - 1 - k1).
  { rewrite log2_div_pow2 by lia. unfold d. lia. }
  assert (Hm2pos : 0 < m2) by lia.
  assert (Hm1lt : mx / 2 ^ k1 < 2 ^ 53).
  { apply Z.log2_lt_pow2; lia. }
  assert (Hl2 : d - 1 - k1 <= Z.log2 m2 <= 53).
  { split.
    - rewrite <- Hl1. apply Z.log2_le_mono. lia.
    - change 53 with (Z.log2 (2 ^ 53)). apply Z.log2_le_mono. lia. }
  specialize (Heq Hm2pos).
  rewrite (Zdigits2_log2 mx Hmx), (Zdigits2_log2 m2 Hm2pos), !fexp_64 in Heq.
  fold d in Heq. fold k1 in Heq.
  set (e1 := ex + k1) in *.
  assert (He1 : e1 = Z.max (d + ex - 53) (-1074)) by (unfold e1, k1; lia).
  set (k2 := Z.max (Z.max (Z.log2 m2 + 1 + e1 - 53) (-1074) - e1) 0) in *.
  change (emax - prec) with 971 in Heq.
  destruct (Z.eq_dec (Z.log2 m2) 53) as [E53|N53].
  - (* the rounding carried to 2^53 *)
    assert (Hm2v : m2 = 2 ^ 53).
    { pose proof (Z.log2_spec m2 Hm2pos) as X. rewrite E53 in X. lia. }
    assert (Hk2 : k2 = 1) by (unfold k2; lia).
    rewrite Hk2, Hm2v in Heq.
    change (2 ^ 53 / 2 ^ 1) with (Zpos 4503599627370496) in Heq.
    cbv iota in Heq. rewrite Heq.
    destruct (e1 + 1 <=? 971) eqn:Ele; [right|left; reflexivity].
    apply Z.leb_le in Ele.
    exists 4503599627370496%positive, (e1 + 1). split; [reflexivity|].
    split.
    + apply bounded_64. change (Z.log2 4503599627370496) with 52. lia.
    + change (Z.log2 4503599627370496) with 52. unfold ex, d in *. lia.
  - assert (Hk2 : k2 = 0) by (unfold k2; lia).
    rewrite Hk2 in Heq. change (2 ^ 0) with 1 in Heq.
    rewrite Z.div_1_r, Z.add_0_r in Heq.
    destruct m2 as [|m3|m3]; try lia.
    rewrite Heq.
    destruct (e1 <=? 971) eqn:Ele; [right|left; reflexivity].
    apply Z.leb_le in Ele.
    exists m3, e1. split; [reflexivity|]. split.
    + apply bounded_64. unfold ex, d in *. lia.
    + unfold ex, d in *. lia.
Qed.

Lemma geb_bound_of_log2 (m : positive) (e : Z) :
  bounded prec emax m e = true ->
  24 <= Z.log2 (Zpos m) + e ->
  geb (S754_finite false m e) c_0_99e7 = true.
Proof.
  intros Hb Hl. apply bounded_64 in Hb. destruct Hb as [Hcan _].
  unfold geb, SFleb, c_0_99e7, SFcompare.
  assert (E : (-29 ?= e) = Lt) by (apply Z.compare_lt_iff; lia).
  rewrite E. reflexivity.
Qed.

Lemma iter_mul_one (x : float) :
  Nat.iter 1 (fun v => mul v five) x = mul x five.
Proof. reflexivity. Qed.

(** From a positive shift the escalation reaches the bound: the order of
    magnitude grows by 2 with every multiplication. *)
Lemma escalation_reaches_bound (n : nat) :
  forall x : float,
  positive_shift x = true ->
  match x with
  | S754_finite _ m e => 24 <= Z.log2 (Zpos m) + e + 2 * Z.of_nat n
  | _ => True
  end ->
  exists k, (k <= n)%nat /\
    geb (Nat.iter (S k) (fun v => mul v five) x) c_0_99e7 = true.
Proof.
  induction n as [|n IH]; intros x Hx Hn;
    (destruct x as [s|[|]| |[|] m e]; try discriminate Hx;
     [exists 0%nat; split; [lia|reflexivity]|]);
    simpl in Hx;
    (destruct (mul_five_grows m e Hx) as [Hinf|(m' & e' & Hy & Hb' & Hg)];
     [exists 0%nat; split; [lia|]; rewrite iter_mul_one, Hinf; reflexivity|]).
  - exists 0%nat. split; [lia|]. rewrite iter_mul_one, Hy.
    apply geb_bound_of_log2; trivial. lia.
  - destruct (geb (mul (S754_finite false m e) five) c_0_99e7) eqn:G.
    + exists 0%nat. split; [lia|exact G].
    + destruct (IH (S754_finite false m' e') Hb' ltac:(cbv beta iota; lia))
        as (k & Hk & Hgk).
      exists (S k). split; [lia|].
      rewrite iter_mul_succ, Hy. exact Hgk.
Qed.

Lemma positive_shift_reaches_bound (x : float) :
  positive_shift x = true ->
  exists k, (k <= 549)%nat /\
    geb (Nat.iter (S k) (fun v => mul v five) x) c_0_99e7 = true.
Proof.
  intros Hx. apply escalation_reaches_bound; trivial.
  destruct x as [s|[|]| |[|] m e]; trivial; try discriminate Hx.
  simpl in Hx. apply bounded_64 in Hx. destruct Hx as [Hcan _].
  pose proof (Z.log2_nonneg (Zpos m)). lia.
Qed.

(** For every Hessian and every positive initial shift, finite or
    infinite, the loop ends within 550 attempts, and a factorization it
    returns was reached with at most 549 escalations. *)
Lemma positive_shift_terminates (T : torch_ops) (H : tensor)
    (reg0 : float) (fuel : nat) :
  positive_shift reg0 = true ->
  (549 < fuel)%nat ->
  _positive_factorization_cholesky T H reg0 fuel <> OutOfFuel /\
  forall F k r,
    _positive_factorization_cholesky T H reg0 fuel = Ret (F, (k, r)) ->
    0 <= k <= 549.
Proof.
  intros Hpos Hfuel.
  destruct (positive_shift_reaches_bound reg0 Hpos) as (k0 & Hk0 & Hg).
  unfold _positive_factorization_cholesky. split.
  - apply (chol_loop_bounded T k0); trivial. lia.
  - intros F k r HR. apply chol_loop_Ret in HR.
    destruct HR as (n & -> & _ & _ & Hall).
    destruct (Nat.lt_ge_cases k0 n) as [Hlt|Hge]; [|lia].
    destruct (Hall k0 Hlt) as [_ Hf]. congruence.
Qed.

End Escalation.

(** ** Rows of tensors *)

Section Rows.

Lemma bcast2_wf (op : float -> float -> float) (a b c : tensor) :
  bcast2 op a b = Ret c -> wf_tensor c = true.
Proof.
  unfold bcast2.
  destruct (bshape _ _) as [so|]; [|discriminate].
  intros H. injection H as <-.
  unfold wf_tensor. simpl. rewrite length_map, length_seq.
  apply Nat.eqb_refl.
Qed.

Lemma take_step_wf (M : nat) (x_shape : list nat) (x d : tensor)
    (bet : list float) (x' : tensor) :
  take_step M x_shape x d bet = Ret x' -> wf_tensor x' = true.
Proof.
  unfold take_step. intros H.
  apply obind_Ret in H. destruct H as (b & _ & H).
  apply obind_Ret in H. destruct H as (bd & _ & H).
  eapply bcast2_wf. exact H.
Qed.

Lemma row_wf (t : tensor) (i : nat) (r : tensor) :
  wf_tensor t = true -> row t i = Ret r -> wf_tensor r = true.
Proof.
  unfold wf_tensor, row. intros Hwf.
  destruct (shape t) as [|m rest] eqn:Hs; [discriminate|].
  destruct (i <? m) eqn:Hi; [|discriminate].
  intros H. injection H as <-. simpl.
  apply Nat.eqb_eq in Hwf. apply Nat.ltb_lt in Hi. simpl in Hwf.
  apply Nat.eqb_eq.
  rewrite length_firstn, length_skipn, Hwf. nia.
Qed.

(** The [i]-th chunk of a concatenation of chunks of one length. *)
Lemma concat_chunk (N : nat) (ds : list (list float)) :
  Forall (fun d => length d = N) ds ->
  forall i d, nth_error ds i = Some d ->
    firstn N (skipn (i * N) (concat ds)) = d.
Proof.
  induction 1 as [|d0 ds Hd0 Hds IH]; intros i d Hi.
  - destruct i; discriminate Hi.
  - destruct i as [|i]; simpl in *.
    + injection Hi as <-.
      rewrite firstn_app, Hd0, Nat.sub_diag. simpl.
      rewrite app_nil_r. rewrite <- Hd0. apply firstn_all.
    + rewrite skipn_app, Hd0.
      rewrite skipn_all2 by lia. simpl.
      replace (N + i * N - N) with (i * N) by lia.
      apply IH. exact Hi.
Qed.

Lemma length_concat_chunks (N : nat) (ds : list (list float)) :
  Forall (fun d => length d = N) ds ->
  length (concat ds) = length ds * N.
Proof.
  induction 1 as [|d0 ds Hd0 Hds IH]; simpl; trivial.
  rewrite length_app, IH, Hd0. reflexivity.
Qed.

Lemma shape_eqb_eq (s1 s2 : list nat) : shape_eqb s1 s2 = true -> s1 = s2.
Proof.
  unfold shape_eqb. destruct (list_eq_dec Nat.eq_dec s1 s2); congruence.
Qed.

Lemma stack_inv (rs : list tensor) (s : tensor) :
  stack rs = Ret s ->
  exists sh,
    rs <> [] /\
    Forall (fun r => shape r = sh) rs /\
    s = mkT (length rs :: sh) (concat (map data rs)).
Proof.
  unfold stack. destruct rs as [|t rs]; [discriminate|].
  destruct (forallb _ _) eqn:E; [|discriminate].
  intros H. injection H as <-.
  exists (shape t). split; [discriminate|]. split; [|reflexivity].
  rewrite forallb_forall in E. apply Forall_forall.
  intros r Hr. apply shape_eqb_eq. apply E. exact Hr.
Qed.

Lemma stack_chunks (rs : list tensor) (sh : list nat) :
  Forall (fun r => shape r = sh) rs ->
  Forall (fun r => wf_tensor r = true) rs ->
  Forall (fun d => length d = numel_of sh) (map data rs).
Proof.
  intros Hs Hw. apply Forall_forall. intros d Hd.
  apply in_map_iff in Hd. destruct Hd as (r & <- & Hr).
  rewrite Forall_forall in Hs, Hw.
  specialize (Hs r Hr). specialize (Hw r Hr).
  unfold wf_tensor in Hw. apply Nat.eqb_eq in Hw. congruence.
Qed.

(** A stack of well-formed rows gives each of them back. *)
Lemma row_stack (rs : list tensor) (s : tensor) :
  stack rs = Ret s ->
  Forall (fun r => wf_tensor r = true) rs ->
  forall i r, nth_error rs i = Some r -> row s i = Ret r.
Proof.
  intros Hst Hwf i r Hi.
  apply stack_inv in Hst. destruct Hst as (sh & _ & Hsh & ->).
  unfold row. simpl.
  assert (Hlt : i < length rs) by (apply nth_error_Some; congruence).
  apply Nat.ltb_lt in Hlt. rewrite Hlt.
  rewrite (concat_chunk (numel_of sh) (map data rs)
             (stack_chunks _ _ Hsh Hwf) i (data r)).
  - rewrite Forall_forall in Hsh.
    rewrite <- (Hsh r (nth_error_In _ _ Hi)). destruct r; reflexivity.
  - rewrite nth_error_map, Hi. reflexivity.
Qed.

Lemma stack_wf (rs : list tensor) (s : tensor) :
  stack rs = Ret s ->
  Forall (fun r => wf_tensor r = true) rs ->
  wf_tensor s = true.
Proof.
  intros Hst Hwf.
  apply stack_inv in Hst. destruct Hst as (sh & _ & Hsh & ->).
  unfold wf_tensor. simpl. apply Nat.eqb_eq.
  rewrite (length_concat_chunks (numel_of sh)).
  - rewrite length_map. reflexivity.
  - apply stack_chunks; assumption.
Qed.

End Rows.

(** ** The best point and the history *)

Section BestPoint.

Variable T : torch_ops.
Variable f_fn : tensor -> list float.
Variable g_fn h_fn : tensor -> tensor.

Lemma update_best_batched (M : nat) (x : tensor) (cand : list float)
    (xb : tensor) (fb : list float) (xb' : tensor) (fb' : list float) :
  update_best true M x cand xb fb = Ret (xb', fb') ->
  wf_tensor x = true -> wf_tensor xb = true ->
  wf_tensor xb' = true /\
  forall i, i < M ->
    exists c b xr,
      nth_error cand i = Some c /\ nth_error fb i = Some b /\
      nth_error fb' i = Some (if ltb c b then c else b) /\
      row xb' i = Ret xr /\
      (if ltb c b then row x i else row xb i) = Ret xr.
Proof.
  unfold update_best. intros H Hx Hxb.
  apply obind_Ret in H. destruct H as (rows & Hrows & H).
  apply obind_Ret in H. destruct H as (s & Hs & H).
  injection H as <- <-.
  apply omapM_Ret in Hrows.
  assert (Hwf : Forall (fun r => wf_tensor r = true) (map fst rows)).
  { apply Forall_forall. intros r Hr.
    apply in_map_iff in Hr. destruct Hr as ([xr v] & <- & Hin).
    apply In_nth_error in Hin. destruct Hin as (i & Hi).
    assert (Hlt : i < length (seq 0 M)).
    { rewrite (Forall2_length' _ _ _ Hrows).
      apply nth_error_Some. congruence. }
    rewrite length_seq in Hlt.
    destruct (Forall2_nth_error _ _ _ Hrows _ _ (nth_error_seq_lt _ _ Hlt))
      as (r' & Hr' & Hbr).
    rewrite Hi in Hr'. injection Hr' as <-.
    apply best_row_inv in Hbr.
    destruct Hbr as (c & b & _ & _ & _ & Hrow). simpl.
    destruct (ltb c b);
      [apply (row_wf x i xr Hx Hrow) | apply (row_wf xb i xr Hxb Hrow)]. }
  split; [eapply stack_wf; eauto|].
  intros i Hi.
  destruct (Forall2_nth_error _ _ _ Hrows _ _ (nth_error_seq_lt _ _ Hi))
    as ([xr v] & Hr & Hbr).
  apply best_row_inv in Hbr.
  destruct Hbr as (c & b & Hc & Hb & -> & Hrow).
  exists c, b, xr. repeat (split; [assumption|]).
  split; [rewrite nth_error_map, Hr; reflexivity|].
  split; [|exact Hrow].
  apply (row_stack _ _ Hs Hwf).
  rewrite nth_error_map, Hr. reflexivity.
Qed.

Lemma update_best_unbatched (M : nat) (x : tensor) (cand : list float)
    (xb : tensor) (fb : list float) (xb' : tensor) (fb' : list float) :
  update_best false M x cand xb fb = Ret (xb', fb') ->
  exists c b,
    nth_error cand 0 = Some c /\ nth_error fb 0 = Some b /\
    (if ltb c b then xb' = x /\ fb' = cand else xb' = xb /\ fb' = fb).
Proof.
  unfold update_best. intros H.
  apply obind_Ret in H. destruct H as (c & Hc & H).
  apply obind_Ret in H. destruct H as (b & Hb & H).
  apply or_raise_Ret in Hc. apply or_raise_Ret in Hb.
  exists c, b. repeat (split; [assumption|]).
  destruct (ltb c b); injection H as <- <-; auto.
Qed.

Lemma nth_error_snoc_old {A} (l : list A) (a x : A) (k : nat) :
  nth_error l k = Some x -> nth_error (l ++ [a]) k = Some x.
Proof.
  intros H. rewrite nth_error_app1; trivial.
  apply nth_error_Some. congruence.
Qed.

Lemma nth_error_snoc_new {A} (l : list A) (a : A) :
  nth_error (l ++ [a]) (length l) = Some a.
Proof. rewrite nth_error_app2, Nat.sub_diag by lia. reflexivity. Qed.

Lemma nth_error_snoc_inv {A} (l : list A) (a x : A) (j : nat) :
  nth_error (l ++ [a]) j = Some x ->
  nth_error l j = Some x \/ (j = length l /\ x = a).
Proof.
  intros H. destruct (Nat.lt_ge_cases j (length l)) as [Hj|Hj].
  - rewrite nth_error_app1 in H by assumption. auto.
  - rewrite nth_error_app2 in H by assumption.
    destruct (j - length l) as [|[|n]] eqn:E; simpl in H; try discriminate.
    injection H as <-. right. split; [lia|reflexivity].
Qed.

(** The update keeps the best point the best of the history. *)
Lemma update_best_keeps_inv (batched : bool) (M : nat)
    (st : sqp_state) (x' : tensor) (cand : list float)
    (xb' : tensor) (fb' : list float) :
  best_inv batched M st ->
  wf_tensor x' = true ->
  update_best batched M x' cand (st_x_best st) (st_f_best st)
    = Ret (xb', fb') ->
  best_inv batched M
    {| st_x := x'; st_x_best := xb'; st_f_best := fb';
       st_f_hist := st_f_hist st ++ [cand];
       st_x_hist := st_x_hist st ++ [x'] |}.
Proof.
  intros (Hwb & Hlen & Hbest) Hwx Hub.
  assert (Hmin_new :
    forall i c b, nth_error cand i = Some c ->
      nth_error (st_f_best st) i = Some b ->
      i < tracked_rows batched M ->
      forall j fj w,
        nth_error (st_f_hist st ++ [cand]) j = Some fj ->
        nth_error fj i = Some w ->
        ltb w (if ltb c b then c else b) = false).
  { intros i c b Hc Hb Hi j fj w Hj Hw.
    destruct (Hbest i b Hi Hb) as (_ & _ & _ & _ & _ & _ & _ & Hmin).
    apply nth_error_snoc_inv in Hj. destruct Hj as [Hj|[_ ->]].
    - specialize (Hmin j fj w Hj Hw).
      destruct (ltb c b) eqn:E; trivial.
      destruct (ltb w c) eqn:E'; trivial.
      rewrite (ltb_trans _ _ _ E' E) in Hmin. discriminate Hmin.
    - rewrite Hc in Hw. injection Hw as <-.
      destruct (ltb c b) eqn:E; [apply ltb_irrefl|exact E]. }
  unfold best_inv, best_of_history. simpl.
  destruct batched.
  - destruct (update_best_batched _ _ _ _ _ _ _ Hub Hwx Hwb) as [Hw' Hr].
    split; [exact Hw'|]. split; [rewrite !length_app; simpl; lia|].
    intros i v Hi Hv.
    destruct (Hr i Hi) as (c & b & xr & Hc & Hb & Hn & Hxr & Hsel).
    rewrite Hn in Hv. injection Hv as <-.
    destruct (ltb c b) eqn:E.
    + exists (length (st_x_hist st)), x', cand.
      split; [apply nth_error_snoc_new|].
      split; [rewrite Hlen; apply nth_error_snoc_new|].
      split; [exact Hc|]. split; [exists xr; auto|].
      intros j fj w Hj Hw.
      pose proof (Hmin_new i c b Hc Hb Hi j fj w Hj Hw) as X.
      rewrite E in X. exact X.
    + destruct (Hbest i b Hi Hb) as (k & xk & fk & Hxk & Hfk & Hfi & Hsame & _).
      exists k, xk, fk.
      split; [apply nth_error_snoc_old; exact Hxk|].
      split; [apply nth_error_snoc_old; exact Hfk|].
      split; [exact Hfi|]. split.
      * destruct Hsame as (r & Hr1 & Hr2).
        exists r. split; [|exact Hr2]. congruence.
      * intros j fj w Hj Hw.
        pose proof (Hmin_new i c b Hc Hb Hi j fj w Hj Hw) as X.
        rewrite E in X. exact X.
  - destruct (update_best_unbatched _ _ _ _ _ _ _ Hub)
      as (c & b & Hc & Hb & Hsel).
    assert (Hxb' : wf_tensor xb' = true).
    { destruct (ltb c b); destruct Hsel as [-> _]; assumption. }
    split; [exact Hxb'|]. split; [rewrite !length_app; simpl; lia|].
    intros i v Hi Hv. unfold tracked_rows in Hi.
    assert (i = 0) as -> by lia.
    destruct (ltb c b) eqn:E; destruct Hsel as [-> ->].
    + rewrite Hc in Hv. injection Hv as <-.
      exists (length (st_x_hist st)), x', cand.
      split; [apply nth_error_snoc_new|].
      split; [rewrite Hlen; apply nth_error_snoc_new|].
      split; [exact Hc|]. split; [reflexivity|].
      intros j fj w Hj Hw.
      pose proof (Hmin_new 0 c b Hc Hb ltac:(simpl; lia) j fj w Hj Hw) as X.
      rewrite E in X. exact X.
    + rewrite Hb in Hv. injection Hv as <-.
      destruct (Hbest 0 b ltac:(simpl; lia) Hb)
        as (k & xk & fk & Hxk & Hfk & Hfi & Hsame & _).
      exists k, xk, fk.
      split; [apply nth_error_snoc_old; exact Hxk|].
      split; [apply nth_error_snoc_old; exact Hfk|].
      split; [exact Hfi|]. split; [exact Hsame|].
      intros j fj w Hj Hw.
      pose proof (Hmin_new 0 c b Hc Hb ltac:(simpl; lia) j fj w Hj Hw) as X.
      rewrite E in X. exact X.
Qed.

Lemma sqp_iteration_keeps_inv (cfg : config) (fuel M : nat) (x_size : np_size)
    (x_shape : list nat) (st st' : sqp_state) (imprv : float)
    (l l' : log) :
  sqp_iteration T f_fn g_fn h_fn cfg fuel M x_size x_shape st l
    = (Ret (st', imprv), l') ->
  best_inv (batched cfg) M st ->
  best_inv (batched cfg) M st' /\
  st_x_hist st' = st_x_hist st ++ [st_x st'].
Proof.
  intros H Hinv.
  apply sqp_iteration_inv in H.
  destruct H as (g & Hm & F & info & d0 & d & f & bet & dat & x' & bn & l_ls
                 & _ & _ & _ & _ & _ & _ & _ & _ & _ & Hstep & _ & _ & _
                 & Hub & Hx & Hfh & Hxh).
  split; [|rewrite Hx; exact Hxh].
  pose proof (update_best_keeps_inv _ _ _ _ _ _ _ Hinv
                (take_step_wf _ _ _ _ _ _ Hstep) Hub) as X.
  destruct st' as [x1 xb1 fb1 fh1 xh1]. simpl in *. subst. exact X.
Qed.

Lemma init_state_inv (b : bool) (x : tensor) (M : nat) (x_size : np_size) :
  wf_tensor x = true ->
  batch_dims b x = Ret (M, x_size) ->
  best_inv b M (init_state f_fn x).
Proof.
  intros Hwf Hd. unfold best_inv, best_of_history. simpl.
  split; [exact Hwf|]. split; [reflexivity|].
  intros i v Hi Hv. exists 0, x, (f_fn x).
  repeat (split; [assumption || reflexivity|]). split.
  - unfold same_row, batch_dims, tracked_rows in *. destruct b; trivial.
    unfold row. destruct (shape x) as [|m rest]; [discriminate Hd|].
    assert (Hm : M = m) by (destruct rest; injection Hd as <- _; trivial).
    subst M. apply Nat.ltb_lt in Hi. rewrite Hi. eauto.
  - intros [|[|j]] fj w Hj Hw; simpl in Hj; try discriminate Hj.
    injection Hj as <-. rewrite Hv in Hw. injection Hw as <-.
    apply ltb_irrefl.
Qed.

(** [k] iterations keep the invariant and add [k] snapshots, the
    iterates, to the history. *)
Lemma sqp_steps_keep_inv (cfg : config) (fuel M : nat) (x_size : np_size)
    (x_shape : list nat) (k : nat) :
  forall (st fin : sqp_state) (imprvs : list float) (l l' : log),
  sqp_steps T f_fn g_fn h_fn cfg fuel M x_size x_shape k st l
    = (Ret (fin, imprvs), l') ->
  best_inv (batched cfg) M st ->
  nth_error (st_x_hist st) (length (st_x_hist st) - 1) = Some (st_x st) ->
  best_inv (batched cfg) M fin /\
  length (st_x_hist fin) = length (st_x_hist st) + k /\
  firstn (length (st_x_hist st)) (st_x_hist fin) = st_x_hist st /\
  nth_error (st_x_hist fin) (length (st_x_hist fin) - 1) = Some (st_x fin).
Proof.
  induction k as [|k IH]; intros st fin imprvs l l' H Hinv Hlast;
    simpl in H.
  - apply ret_Ret in H. destruct H as [H _]. injection H as <- _.
    split; [exact Hinv|]. split; [lia|].
    split; [apply firstn_all|exact Hlast].
  - apply bind_Ret in H. destruct H as ([st1 v] & l1 & H1 & H).
    apply bind_Ret in H. destruct H as ([fin' vs] & l2 & H2 & H).
    apply ret_Ret in H. destruct H as [H _]. injection H as <- _.
    destruct (sqp_iteration_keeps_inv _ _ _ _ _ _ _ _ _ _ H1 Hinv)
      as [Hinv1 Hh1].
    assert (Hlast1 : nth_error (st_x_hist st1) (length (st_x_hist st1) - 1)
                     = Some (st_x st1)).
    { rewrite Hh1, length_app. simpl.
      replace (length (st_x_hist st) + 1 - 1) with (length (st_x_hist st))
        by lia.
      apply nth_error_snoc_new. }
    destruct (IH _ _ _ _ _ H2 Hinv1 Hlast1) as (Hi & Hl & Hf & Hn).
    split; [exact Hi|].
    assert (Hl1 : length (st_x_hist st1) = length (st_x_hist st) + 1)
      by (rewrite Hh1, length_app; reflexivity).
    split; [lia|]. split; [|exact Hn].
    assert (E : firstn (length (st_x_hist st)) (st_x_hist fin')
                = firstn (length (st_x_hist st))
                         (firstn (length (st_x_hist st1)) (st_x_hist fin')))
      by (rewrite firstn_firstn; f_equal; lia).
    rewrite E, Hf, Hh1, firstn_app, Nat.sub_diag, firstn_all. simpl.
    apply app_nil_r.
Qed.

Lemma sqp_steps_split (cfg : config) (fuel M : nat) (x_size : np_size)
    (x_shape : list nat) (k : nat) :
  forall (st fin : sqp_state) (imprvs : list float) (l l' : log),
  sqp_steps T f_fn g_fn h_fn cfg fuel M x_size x_shape k st l
    = (Ret (fin, imprvs), l') ->
  forall j, j <= k ->
    exists st_j vs_j l_j vs',
      sqp_steps T f_fn g_fn h_fn cfg fuel M x_size x_shape j st l
        = (Ret (st_j, vs_j), l_j) /\
      sqp_steps T f_fn g_fn h_fn cfg fuel M x_size x_shape (k - j) st_j l_j
        = (Ret (fin, vs'), l').
Proof.
  induction k as [|k IH]; intros st fin imprvs l l' H j Hj.
  - assert (j = 0) as -> by lia.
    exists st, [], l, imprvs. split; [reflexivity|exact H].
  - destruct j as [|j].
    { exists st, [], l, imprvs. split; [reflexivity|exact H]. }
    simpl in H.
    apply bind_Ret in H. destruct H as ([st1 v] & l1 & H1 & H).
    apply bind_Ret in H. destruct H as ([fin' vs] & l2 & H2 & H).
    apply ret_Ret in H. destruct H as [H ->]. injection H as <- <-.
    destruct (IH _ _ _ _ _ H2 j ltac:(lia))
      as (st_j & vs_j & l_j & vs' & Hj1 & Hj2).
    exists st_j, (v :: vs_j), l_j, vs'. split; [|exact Hj2].
    simpl. unfold bind at 1. rewrite H1.
    unfold bind. rewrite Hj1. reflexivity.
Qed.

(** C7, as amended.  A run that returns went through [k <= max_it]
    iterations.  What it returns first is the tracked best point: row
    by row a row of one of the snapshots of the iterates, one with the
    lowest loss recorded for the row.  The snapshots are the initial
    point and the iterate after each iteration, in order.  With full
    output the second component is this sequence followed by one more
    entry, the best point. *)
Theorem best_point_and_history (cfg : config) (args : list tensor)
    (fuel : nat) (l l' : log) (r : tensor * option (list tensor)) :
  minimize_sqp T f_fn g_fn h_fn cfg args fuel l = (Ret r, l') ->
  Forall (fun x => wf_tensor x = true) args ->
  exists x M x_size k fin imprvs,
    args = [x] /\
    batch_dims (batched cfg) x = Ret (M, x_size) /\
    k <= Z.to_nat (max_it cfg) /\
    sqp_steps T f_fn g_fn h_fn cfg fuel M x_size (shape x) k
              (init_state f_fn x) (l ++ init_log cfg x)
      = (Ret (fin, imprvs), l') /\
    fst r = st_x_best fin /\
    best_of_history (batched cfg) M fin /\
    length (st_x_hist fin) = S k /\
    (forall j, j <= k ->
       exists st_j vs_j l_j,
         sqp_steps T f_fn g_fn h_fn cfg fuel M x_size (shape x) j
                   (init_state f_fn x) (l ++ init_log cfg x)
           = (Ret (st_j, vs_j), l_j) /\
         nth_error (st_x_hist fin) j = Some (st_x st_j)) /\
    snd r = (if full_output cfg
             then Some (st_x_hist fin ++ [st_x_best fin]) else None).
Proof.
  intros H Hwf.
  apply minimize_sqp_inv in H. destruct H as (fin & Hrun & ->).
  apply sqp_run_inv in Hrun.
  destruct Hrun as (x & M & x_size & -> & Hd & Hloop).
  apply sqp_loop_steps in Hloop.
  destruct Hloop as (k & imprvs & Hk & Hs & _ & _).
  inversion Hwf as [|? ? Hwx _]; subst.
  pose proof (init_state_inv (batched cfg) x M x_size Hwx Hd) as Hinv0.
  assert (Hlast0 : nth_error (st_x_hist (init_state f_fn x))
                     (length (st_x_hist (init_state f_fn x)) - 1)
                   = Some (st_x (init_state f_fn x))) by reflexivity.
  destruct (sqp_steps_keep_inv _ _ _ _ _ _ _ _ _ _ _ Hs Hinv0 Hlast0)
    as ((_ & _ & Hbest) & Hlen & _ & _).
  exists x, M, x_size, k, fin, imprvs.
  split; [reflexivity|]. split; [exact Hd|]. split; [exact Hk|].
  split; [exact Hs|].
  split; [unfold sqp_result; destruct (full_output cfg); reflexivity|].
  split; [exact Hbest|]. split; [simpl in Hlen; lia|]. split.
  - intros j Hj.
    destruct (sqp_steps_split _ _ _ _ _ _ _ _ _ _ _ Hs j Hj)
      as (st_j & vs_j & l_j & vs' & Hj1 & Hj2).
    exists st_j, vs_j, l_j. split; [exact Hj1|].
    destruct (sqp_steps_keep_inv _ _ _ _ _ _ _ _ _ _ _ Hj1 Hinv0 Hlast0)
      as (Hinvj & Hlenj & _ & Hlastj).
    destruct (sqp_steps_keep_inv _ _ _ _ _ _ _ _ _ _ _ Hj2 Hinvj Hlastj)
      as (_ & _ & Hfirst & _).
    simpl in Hlenj.
    replace (length (st_x_hist st_j) - 1) with j in Hlastj by lia.
    rewrite <- Hlastj, <- Hfirst at 1.
    rewrite nth_error_firstn.
    assert (E : (j <? length (st_x_hist st_j)) = true)
      by (apply Nat.ltb_lt; lia).
    rewrite E. reflexivity.
  - unfold sqp_result. destruct (full_output cfg); reflexivity.
Qed.

End BestPoint.

Section BestPointExamples.

(** With full output the default run on the quadratic objective returns
    five tensors after three iterations: the four snapshots and the
    best point once more. *)
Lemma history_counterexample :
  ~ history_claim Ref.ops Ex.quad_f Ex.quad_g Ex.quad_h.
Proof.
  intros C.
  specialize (C full_config [Ex.x0] 30 []
                (fst ex_full_result)
                (st_x_hist ex_full_fin ++ [st_x_best ex_full_fin])
                ex_full_fin (snd ex_full_run)
                ltac:(vm_compute; reflexivity)
                ltac:(vm_compute; reflexivity)).
  apply (f_equal (@length tensor)) in C.
  vm_compute in C. discriminate C.
Qed.

(** The run on the batch of two bowls, with full output. *)
Lemma best_point_and_history_witness :
  minimize_sqp Ref.ops ExB.f ExB.g ExB.h ExB.full_config [ExB.x0] 30 []
    = (Ret ExB.full_result, snd ExB.full_run) /\
  Forall (fun x => wf_tensor x = true) [ExB.x0] /\
  exists k fin,
    fst ExB.full_result = st_x_best fin /\
    best_of_history true 2 fin /\
    length (st_x_hist fin) = S k /\
    snd ExB.full_result = Some (st_x_hist fin ++ [st_x_best fin]).
Proof.
  assert (Hrun : minimize_sqp Ref.ops ExB.f ExB.g ExB.h ExB.full_config
                   [ExB.x0] 30 []
                 = (Ret ExB.full_result, snd ExB.full_run))
    by (vm_compute; reflexivity).
  assert (Hwf : Forall (fun x => wf_tensor x = true) [ExB.x0])
    by (repeat constructor).
  split; [exact Hrun|]. split; [exact Hwf|].
  destruct (best_point_and_history Ref.ops ExB.f ExB.g ExB.h
              ExB.full_config [ExB.x0] 30 [] (snd ExB.full_run)
              ExB.full_result Hrun Hwf)
    as (x & M & x_size & k & fin & imprvs & Hx & Hd & _ & _ & Hb & Hbest
        & Hl & _ & Hh).
  injection Hx as <-. injection Hd as <- _.
  exists k, fin. auto.
Defined.

End BestPointExamples.

(** * Further properties *)

(** ** The escalation loop *)

Section EscalationLoopLemmas.

Variable T : torch_ops.

(** More fuel does not change what the loop has returned or raised. *)
Lemma chol_loop_fuel_mono (H : tensor) (fuel : nat) :
  forall (reg : float) (reg_it : Z) (r : outcome (tensor * (Z * float))),
  chol_loop T fuel H reg reg_it = r ->
  r <> OutOfFuel ->
  forall fuel', fuel <= fuel' -> chol_loop T fuel' H reg reg_it = r.
Proof.
  induction fuel as [|fuel IH]; intros reg reg_it r Hr Hne fuel' Hle.
  - simpl in Hr. congruence.
  - destruct fuel' as [|fuel']; [lia|]. simpl in *.
    destruct (try_factor T H reg); trivial.
    destruct (geb (mul reg five) c_0_99e7); trivial.
    apply IH; trivial. lia.
Qed.

Lemma try_factor_Some (H : tensor) (reg : float) (F : tensor) :
  try_factor T H reg = Some F ->
  exists H_reg,
    add_diag H reg = Ret H_reg /\ cholesky T H_reg = Some F /\
    any_nan (data F) = false.
Proof.
  unfold try_factor.
  destruct (add_diag H reg) as [H_reg| |]; try discriminate.
  destruct (cholesky T H_reg) as [F'|] eqn:E; try discriminate.
  destruct (any_nan (data F')) eqn:N; try discriminate.
  intros X. injection X as <-. eauto.
Qed.

Lemma chol_loop_Raise_inv (fuel : nat) (H : tensor) :
  forall (reg : float) (reg_it : Z) (e : exn),
  chol_loop T fuel H reg reg_it = Raise e ->
  exists n,
    n < fuel /\
    (forall j, j <= n ->
       try_factor T H (Nat.iter j (fun v => mul v five) reg) = None) /\
    (forall j, j < n ->
       geb (Nat.iter (S j) (fun v => mul v five) reg) c_0_99e7 = false) /\
    geb (Nat.iter (S n) (fun v => mul v five) reg) c_0_99e7 = true.
Proof.
  induction fuel as [|fuel IH]; intros reg reg_it e Hl; simpl in Hl;
    [discriminate Hl|].
  destruct (try_factor T H reg) eqn:Hf; [discriminate Hl|].
  destruct (geb (mul reg five) c_0_99e7) eqn:Hg.
  - exists 0. split; [lia|]. split; [|split].
    + intros j Hj. assert (j = 0) as -> by lia. exact Hf.
    + intros j Hj. lia.
    + exact Hg.
  - apply IH in Hl. destruct Hl as (n & Hn & Hall & Hlt & Hge).
    exists (S n). split; [lia|]. split; [|split].
    + intros [|j] Hj; [exact Hf|].
      rewrite iter_mul_succ. apply Hall. lia.
    + intros [|j] Hj; [exact Hg|].
      rewrite (iter_mul_succ (S j)). apply Hlt. lia.
    + rewrite (iter_mul_succ (S n)). exact Hge.
Qed.

(** Conversely: failures at the first [n + 1] shifts, the last of which
    is escalated to the bound, make the loop raise, whatever the
    factorization would do from there on. *)
Lemma chol_loop_exhausted (H : tensor) (n : nat) :
  forall (reg : float) (reg_it : Z) (fuel : nat),
  (forall j, j <= n ->
     try_factor T H (Nat.iter j (fun v => mul v five) reg) = None) ->
  (forall j, j < n ->
     geb (Nat.iter (S j) (fun v => mul v five) reg) c_0_99e7 = false) ->
  geb (Nat.iter (S n) (fun v => mul v five) reg) c_0_99e7 = true ->
  n < fuel ->
  chol_loop T fuel H reg reg_it = Raise (RuntimeError "Numerical problems").
Proof.
  induction n as [|n IH]; intros reg reg_it fuel Hall Hlt Hge Hfuel;
    (destruct fuel as [|fuel]; [lia|]); simpl.
  - rewrite (Hall 0 ltac:(lia) : try_factor T H reg = None).
    simpl in Hge. rewrite Hge. reflexivity.
  - rewrite (Hall 0 ltac:(lia) : try_factor T H reg = None).
    rewrite (Hlt 0 ltac:(lia) : geb (mul reg five) c_0_99e7 = false).
    apply IH.
    + intros j Hj. rewrite <- iter_mul_succ. apply Hall. lia.
    + intros j Hj. rewrite <- (iter_mul_succ (S j)). apply Hlt. lia.
    + rewrite <- (iter_mul_succ (S n)). exact Hge.
    + lia.
Qed.

End EscalationLoopLemmas.

Section EscalationLoop.

Variable T : torch_ops.

(** X1.  From a positive initial shift, finite or infinite, the loop
    ends whatever the Hessian and the backend: it returns or raises
    within 550 attempts, and a factorization it returns was reached with
    at most 549 escalations. *)
Theorem regularizer_ends_from_positive_shift (H : tensor) (reg0 : float) :
  positive_shift reg0 = true ->
  exists r,
    r <> OutOfFuel /\
    (forall fuel, 549 < fuel ->
       _positive_factorization_cholesky T H reg0 fuel = r) /\
    (forall F k reg, r = Ret (F, (k, reg)) -> (0 <= k <= 549)%Z).
Proof.
  intros Hpos.
  destruct (positive_shift_reaches_bound reg0 Hpos) as (k0 & Hk0 & Hg).
  exists (chol_loop T 550 H reg0 0).
  assert (Hne : chol_loop T 550 H reg0 0 <> OutOfFuel)
    by (apply (chol_loop_bounded T k0); trivial; lia).
  split; [exact Hne|]. split.
  - intros fuel Hfuel. unfold _positive_factorization_cholesky.
    apply (chol_loop_fuel_mono T H 550); trivial; lia.
  - intros F k reg HR. apply chol_loop_Ret in HR.
    destruct HR as (n & -> & _ & _ & Hall).
    destruct (Nat.lt_ge_cases k0 n) as [Hlt|Hge]; [|lia].
    destruct (Hall k0 Hlt) as [_ Hf]. congruence.
Qed.

(** X2.  When the loop returns [(F, (reg_it, reg))], [reg] is the
    initial shift multiplied [reg_it] times by 5, [F] is the Cholesky
    factor of [H] with [reg] added on the diagonal and holds no NaN, and
    the factorization failed at every shift before, each of which was
    followed by one below the bound. *)
Theorem regularizer_returns_first_success (H : tensor) (reg0 : float)
    (fuel : nat) (F : tensor) (k : Z) (reg : float) :
  _positive_factorization_cholesky T H reg0 fuel = Ret (F, (k, reg)) ->
  exists n,
    k = Z.of_nat n /\
    reg = Nat.iter n (fun v => mul v five) reg0 /\
    (exists H_reg,
       add_diag H reg = Ret H_reg /\ cholesky T H_reg = Some F) /\
    any_nan (data F) = false /\
    forall j, j < n ->
      try_factor T H (Nat.iter j (fun v => mul v five) reg0) = None /\
      geb (Nat.iter (S j) (fun v => mul v five) reg0) c_0_99e7 = false.
Proof.
  unfold _positive_factorization_cholesky. intros HR.
  apply chol_loop_Ret in HR. destruct HR as (n & Hk & Hreg & Hs & Hall).
  apply try_factor_Some in Hs. destruct Hs as (H_reg & Ha & Hc & Hn).
  exists n. split; [lia|]. split; [exact Hreg|].
  split; [eauto|]. split; [exact Hn|exact Hall].
Qed.

(** X3.  The only exception of the loop is the [RuntimeError] of line
    294, and it is raised exactly when the factorization fails at every
    shift up to one whose escalation is the first to reach [0.99e7]:
    a run that raises has gone through such shifts, and such shifts
    make every run with fuel for them raise.  The shift that reached
    the bound is never tried: a backend that agrees on the shifts
    before it raises as well, whatever it does at that one. *)
Theorem regularizer_raises_at_bound (H : tensor) (reg0 : float) :
  let shift := fun j => Nat.iter j (fun v => mul v five) reg0 in
  let exhausted := fun (B : torch_ops) (n : nat) =>
    (forall j, j <= n -> try_factor B H (shift j) = None) /\
    (forall j, j < n -> geb (shift (S j)) c_0_99e7 = false) /\
    geb (shift (S n)) c_0_99e7 = true in
  (forall fuel e,
     _positive_factorization_cholesky T H reg0 fuel = Raise e ->
     e = RuntimeError "Numerical problems" /\
     exists n, n < fuel /\ exhausted T n) /\
  (forall n fuel,
     exhausted T n -> n < fuel ->
     _positive_factorization_cholesky T H reg0 fuel
       = Raise (RuntimeError "Numerical problems")) /\
  (forall (T' : torch_ops) n fuel,
     exhausted T n -> n < fuel ->
     (forall j, j <= n ->
        try_factor T' H (shift j) = try_factor T H (shift j)) ->
     _positive_factorization_cholesky T' H reg0 fuel
       = Raise (RuntimeError "Numerical problems")).
Proof.
  intros shift exhausted. unfold _positive_factorization_cholesky.
  split; [|split].
  - intros fuel e HR. split.
    + eapply chol_loop_Raise. exact HR.
    + exact (chol_loop_Raise_inv T fuel H reg0 0%Z e HR).
  - intros n fuel (Hall & Hlt & Hge) Hfuel.
    apply (chol_loop_exhausted T H n); trivial.
  - intros T' n fuel (Hall & Hlt & Hge) Hfuel Hsame.
    apply (chol_loop_exhausted T' H n); trivial.
    intros j Hj. unfold shift in Hsame.
    rewrite (Hsame j Hj). apply Hall. exact Hj.
Qed.

End EscalationLoop.

Section EscalationLoopExamples.

Lemma regularizer_ends_from_positive_shift_witness :
  positive_shift c_1e_7 = true /\
  exists r,
    r <> OutOfFuel /\
    (forall fuel, 549 < fuel ->
       _positive_factorization_cholesky Ref.ops H_minus_one c_1e_7 fuel = r) /\
    (forall F k reg, r = Ret (F, (k, reg)) -> (0 <= k <= 549)%Z).
Proof.
  split; [reflexivity|].
  apply regularizer_ends_from_positive_shift. reflexivity.
Defined.

(** On the Hessian [-1] the default shift [1e-7] is escalated 11 times,
    to [1e-7 * 5^11 = 4.88...]. *)
Lemma regularizer_returns_first_success_witness :
  _positive_factorization_cholesky Ref.ops H_minus_one c_1e_7 30
    = Ret (ex_chol_F, (11%Z, ex_chol_reg)) /\
  exists n,
    11%Z = Z.of_nat n /\
    ex_chol_reg = Nat.iter n (fun v => mul v five) c_1e_7 /\
    any_nan (data ex_chol_F) = false.
Proof.
  assert (Hr : _positive_factorization_cholesky Ref.ops H_minus_one c_1e_7 30
               = Ret (ex_chol_F, (11%Z, ex_chol_reg)))
    by (vm_compute; reflexivity).
  split; [exact Hr|].
  destruct (regularizer_returns_first_success Ref.ops H_minus_one c_1e_7 30
              ex_chol_F 11%Z ex_chol_reg Hr)
    as (n & Hk & Hreg & _ & Hn & _).
  exists n. auto.
Defined.

(** On the Hessian [-1e9] every shift below the bound fails. *)
Lemma regularizer_raises_at_bound_witness :
  _positive_factorization_cholesky Ref.ops H_minus_1e9 c_1e_7 30
    = Raise (RuntimeError "Numerical problems") /\
  exists n,
    n < 30 /\
    (forall j, j <= n ->
       try_factor Ref.ops H_minus_1e9
                  (Nat.iter j (fun v => mul v five) c_1e_7) = None) /\
    geb (Nat.iter (S n) (fun v => mul v five) c_1e_7) c_0_99e7 = true.
Proof.
  assert (Hr : _positive_factorization_cholesky Ref.ops H_minus_1e9 c_1e_7 30
               = Raise (RuntimeError "Numerical problems"))
    by (vm_compute; reflexivity).
  split; [exact Hr|].
  destruct (proj1 (regularizer_raises_at_bound Ref.ops H_minus_1e9 c_1e_7)
              30 _ Hr)
    as (_ & n & Hn & Hall & _ & Hg).
  exists n. auto.
Defined.

End EscalationLoopExamples.

(** ** Products of binary64 values *)

Section MulValid.

Local Open Scope Z_scope.

Lemma shr_fexp_spec0 (m e : Z) (l : location) :
  0 <= m ->
  let k := Z.max (fexp prec emax (Zdigits2 m + e) - e) 0 in
  exists r,
    shr_fexp prec emax m e l = (r, e + k) /\ shr_m r = m / 2 ^ k.
Proof.
  intros Hm k. unfold shr_fexp, shr. subst k.
  destruct (fexp prec emax (Zdigits2 m + e) - e) as [|p|p] eqn:E.
  - eexists. rewrite Z.add_0_r. split; [reflexivity|].
    rewrite shr_record_of_loc_m. simpl. rewrite Z.div_1_r. reflexivity.
  - eexists. rewrite Z.max_l by lia. split; [reflexivity|].
    rewrite iter_pos_nat, shr_m_iter, shr_record_of_loc_m.
    + rewrite positive_nat_Z. reflexivity.
    + rewrite shr_record_of_loc_m. exact Hm.
  - eexists. rewrite Z.max_r by lia. rewrite Z.add_0_r.
    split; [reflexivity|].
    rewrite shr_record_of_loc_m. simpl. rewrite Z.div_1_r. reflexivity.
Qed.

(** Rounding a positive mantissa, whatever the sign of the result. *)
Lemma binary_round_aux_spec (s : bool) (mx ex : Z) (l : location) :
  0 < mx ->
  let k1 := Z.max (fexp prec emax (Zdigits2 mx + ex) - ex) 0 in
  let e1 := ex + k1 in
  exists m2,
    mx / 2 ^ k1 <= m2 <= mx / 2 ^ k1 + 1 /\
    let k2 := Z.max (fexp prec emax (Zdigits2 m2 + e1) - e1) 0 in
    binary_round_aux prec emax s mx ex l =
    match m2 / 2 ^ k2 with
    | Z0 => S754_zero s
    | Zpos m3 =>
      if e1 + k2 <=? emax - prec then S754_finite s m3 (e1 + k2)
      else S754_infinity s
    | Zneg _ => S754_nan
    end.
Proof.
  intros Hm k1 e1.
  destruct (shr_fexp_spec0 mx ex l ltac:(lia)) as (r1 & H1 & Hr1).
  fold k1 in H1, Hr1. fold e1 in H1.
  exists (round_nearest_even (shr_m r1) (loc_of_shr_record r1)).
  assert (Hb : mx / 2 ^ k1
               <= round_nearest_even (shr_m r1) (loc_of_shr_record r1)
               <= mx / 2 ^ k1 + 1)
    by (rewrite <- Hr1; apply round_nearest_even_bounds).
  split; [exact Hb|].
  intros k2.
  assert (Hm2 : 0 <= round_nearest_even (shr_m r1) (loc_of_shr_record r1)).
  { assert (0 <= mx / 2 ^ k1) by (apply Z.div_pos; [lia|apply Z.pow_pos_nonneg; lia]).
    lia. }
  destruct (shr_fexp_spec0 _ e1 loc_Exact Hm2) as (r2 & H2 & Hr2).
  fold k2 in H2, Hr2.
  unfold binary_round_aux. rewrite H1, H2, Hr2. reflexivity.
Qed.

(** The product of two finite binary64 numbers is zero, infinite, or a
    binary64 number. *)
Lemma mul_finite_valid (sx sy : bool) (m my : positive) (e ey : Z) :
  bounded prec emax m e = true ->
  bounded prec emax my ey = true ->
  valid_binary prec emax
    (mul (S754_finite sx m e) (S754_finite sy my ey)) = true.
Proof.
  intros Hb Hby.
  apply bounded_64 in Hb. destruct Hb as [Hcan Hmax].
  apply bounded_64 in Hby. destruct Hby as [Hcany Hmaxy].
  unfold mul, SFmul.
  set (mx := Zpos (m * my)). set (ex := e + ey). set (s := xorb sx sy).
  assert (Hmx : 0 < mx) by (unfold mx; lia).
  pose proof (Z.log2_nonneg (Zpos m)) as HL.
  pose proof (Z.log2_nonneg (Zpos my)) as HLy.
  assert (Hd : Z.log2 (Zpos m) + Z.log2 (Zpos my) <= Z.log2 mx).
  { unfold mx. rewrite Pos2Z.inj_mul. apply Z.log2_mul_below; lia. }
  destruct (binary_round_aux_spec s mx ex loc_Exact Hmx) as (m2 & Hm2 & Heq).
  cbv zeta in Hm2, Heq.
  rewrite (Zdigits2_log2 mx Hmx) in Hm2, Heq.
  rewrite !fexp_64 in Hm2. rewrite !fexp_64 in Heq.
  set (d := Z.log2 mx + 1) in *.
  set (k1 := Z.max (Z.max (d + ex - 53) (-1074) - ex) 0) in *.
  set (e1 := ex + k1) in *.
  assert (Hdd : d = Z.log2 mx + 1) by reflexivity.
  assert (Hkd : k1 = Z.max (Z.max (d + ex - 53) (-1074) - ex) 0)
    by reflexivity.
  assert (Hed : e1 = ex + k1) by reflexivity.
  assert (Hexd : ex = e + ey) by reflexivity.
  clearbody e1 k1 d ex.
  assert (He1 : e1 = Z.max (d + ex - 53) (-1074)) by lia.
  assert (Hk1 : 0 <= k1) by lia.
  change (emax - prec) with 971 in Heq.
  rewrite Heq. clear Heq.
  destruct (Z.le_gt_cases d k1) as [Hbig|Hsmall].
  - (* everything is shifted out: zero or the least subnormal *)
    assert (Hm1 : mx / 2 ^ k1 = 0).
    { apply Z.div_small. split; [lia|].
      apply Z.lt_le_trans with (2 ^ d).
      - rewrite Hdd, Z.add_1_r. apply Z.log2_spec. assumption.
      - apply Z.pow_le_mono_r; lia. }
    assert (He1' : e1 = -1074) by lia.
    assert (Hm2' : m2 = 0 \/ m2 = 1) by lia.
    destruct Hm2' as [-> | ->].
    + reflexivity.
    + rewrite He1'. reflexivity.
  - assert (Hm1 : 0 < mx / 2 ^ k1).
    { apply Z.div_str_pos. split; [apply Z.pow_pos_nonneg; lia|].
      apply Z.le_trans with (2 ^ Z.log2 mx).
      - apply Z.pow_le_mono_r; lia.
      - apply Z.log2_spec. assumption. }
    assert (Hl1 : Z.log2 (mx / 2 ^ k1) = d - 1 - k1).
    { rewrite log2_div_pow2 by lia. lia. }
    assert (Hm2pos : 0 < m2) by lia.
    assert (Hk1' : d - 53 <= k1) by lia.
    assert (Hm1lt : mx / 2 ^ k1 < 2 ^ 53).
    { apply Z.log2_lt_pow2; lia. }
    assert (Hl2 : d - 1 - k1 <= Z.log2 m2 <= 53).
    { split.
      - rewrite <- Hl1. apply Z.log2_le_mono. lia.
      - change 53 with (Z.log2 (2 ^ 53)). apply Z.log2_le_mono. lia. }
    rewrite (Zdigits2_log2 m2 Hm2pos).
    set (k2 := Z.max (Z.max (Z.log2 m2 + 1 + e1 - 53) (-1074) - e1) 0).
    destruct (Z.eq_dec (Z.log2 m2) 53) as [E53|N53].
    + assert (Hm2v : m2 = 2 ^ 53).
      { pose proof (Z.log2_spec m2 Hm2pos) as X. rewrite E53 in X. lia. }
      assert (Hk2 : k2 = 1) by (unfold k2; lia).
      rewrite Hk2, Hm2v.
      change (2 ^ 53 / 2 ^ 1) with (Zpos 4503599627370496).
      cbv iota.
      destruct (e1 + 1 <=? 971) eqn:Ele; [|reflexivity].
      apply Z.leb_le in Ele. simpl valid_binary.
      apply bounded_64. change (Z.log2 4503599627370496) with 52. lia.
    + assert (Hk2 : k2 = 0) by (unfold k2; lia).
      rewrite Hk2. change (2 ^ 0) with 1.
      rewrite Z.div_1_r, Z.add_0_r.
      destruct m2 as [|m3|m3]; try lia.
      destruct (e1 <=? 971) eqn:Ele; [|reflexivity].
      apply Z.leb_le in Ele. simpl valid_binary.
      apply bounded_64. lia.
Qed.

Lemma mul_valid (x y : float) :
  valid_binary prec emax x = true ->
  valid_binary prec emax y = true ->
  valid_binary prec emax (mul x y) = true.
Proof.
  destruct x as [sx|sx| |sx m e], y as [sy|sy| |sy my ey];
    try reflexivity.
  simpl valid_binary at 1 2. apply mul_finite_valid.
Qed.

End MulValid.

(** ** The initial shift *)

Section InitialShift.

Variable T : torch_ops.

Lemma leb_refl (a : float) : is_nan a = false -> leb a a = true.
Proof.
  intros Na. apply leb_key; trivial.
  destruct (key a) as [[a1 a2] a3]. unfold lex_lt. lia.
Qed.

Lemma leb_trans (a b c : float) :
  leb a b = true -> leb b c = true -> leb a c = true.
Proof.
  intros Hab Hbc.
  assert (Na : is_nan a = false) by (destruct a; trivial; discriminate Hab).
  assert (Nb : is_nan b = false) by (destruct b; trivial; discriminate Hbc).
  assert (Nc : is_nan c = false).
  { destruct c; trivial. rewrite leb_nan_r in Hbc. discriminate Hbc. }
  apply leb_key in Hab; trivial. apply leb_key in Hbc; trivial.
  apply leb_key; trivial.
  destruct (key a) as [[a1 a2] a3], (key b) as [[b1 b2] b3],
           (key c) as [[c1 c2] c3].
  unfold lex_lt in *. lia.
Qed.

(** Python's [max] of two numbers is one of them and bounds both. *)
Lemma py_max_bounds (a b : float) :
  is_nan a = false -> is_nan b = false ->
  is_nan (py_max a b) = false /\
  leb a (py_max a b) = true /\ leb b (py_max a b) = true.
Proof.
  intros Na Nb. unfold py_max, gtb.
  destruct (SFltb a b) eqn:E.
  - repeat split; trivial.
    + apply ltb_leb. exact E.
    + apply leb_refl. exact Nb.
  - repeat split; trivial.
    + apply leb_refl. exact Na.
    + apply not_ltb_leb; trivial.
Qed.

Lemma mul_finite_not_nan (sx sy : bool) (mx my : positive) (ex ey : Z) :
  is_nan (mul (S754_finite sx mx ex) (S754_finite sy my ey)) = false.
Proof.
  unfold mul, SFmul.
  destruct (binary_round_aux_spec (xorb sx sy) (Z.pos (mx * my)) (ex + ey)
              loc_Exact ltac:(lia)) as (m2 & Hm2 & Heq).
  cbv zeta in Heq. rewrite Heq. clear Heq.
  match goal with |- context [(m2 / ?d)%Z] =>
    assert (Hq : (0 <= m2 / d)%Z)
  end.
  { apply Z.div_pos; [|apply Z.pow_pos_nonneg; lia].
    assert (0 <= Z.pos (mx * my) /
              2 ^ Z.max (fexp prec emax (Zdigits2 (Z.pos (mx * my)) + (ex + ey))
                         - (ex + ey)) 0)%Z; [|lia].
    apply Z.div_pos; [lia|apply Z.pow_pos_nonneg; lia]. }
  match goal with |- context [(m2 / ?d)%Z] =>
    destruct (m2 / d)%Z as [|q|q]
  end; trivial.
  - match goal with |- context [if ?c then _ else _] => destruct c end;
      reflexivity.
  - lia.
Qed.

Lemma mul_minus_two_not_nan (lam : float) :
  is_nan lam = false -> is_nan (mul minus_two lam) = false.
Proof.
  destruct lam as [s|s| |s m e]; try discriminate; intros _;
    try reflexivity.
  apply mul_finite_not_nan.
Qed.

(** X4.  The shift with which the wrapper starts the escalation is
    [max(max(-2 * lam, 0.0), reg0)] of the estimate [lam], with the
    order of Python's [max]: it bounds [-2 * lam], 0 and [reg0] when
    these are numbers; a NaN estimate makes it NaN whatever [reg0] is,
    and a NaN [reg0] is ignored. *)
Theorem wrapper_initial_shift (H : tensor) (reg0 : float) (fuel : nat)
    (lam : float) :
  min_eig_estimate T H = Ret lam ->
  let s := py_max (py_max (mul minus_two lam) zero) reg0 in
  _positive_factorization_lobpcg T H reg0 fuel
    = _positive_factorization_cholesky T H s fuel /\
  (is_nan lam = true -> s = nan) /\
  (is_nan lam = false -> is_nan reg0 = true ->
   s = py_max (mul minus_two lam) zero) /\
  (is_nan lam = false -> is_nan reg0 = false ->
   is_nan s = false /\ leb (mul minus_two lam) s = true /\
   leb zero s = true /\ leb reg0 s = true).
Proof.
  intros E s. split; [apply lobpcg_shift; exact E|].
  split; [|split].
  - intros N. destruct lam; try discriminate N. reflexivity.
  - intros _ N. destruct reg0; try discriminate N.
    unfold s, py_max at 1, gtb.
    change (SFltb (py_max (mul minus_two lam) zero) S754_nan)
      with (ltb (py_max (mul minus_two lam) zero) nan).
    rewrite ltb_nan_r. reflexivity.
  - intros Nl Nr.
    pose proof (mul_minus_two_not_nan lam Nl) as Na.
    destruct (py_max_bounds (mul minus_two lam) zero Na eq_refl)
      as (Nb & Hab & Hzb).
    destruct (py_max_bounds _ reg0 Nb Nr) as (Ns & Hbs & Hrs).
    fold s in Ns, Hbs, Hrs.
    repeat split; trivial; eapply leb_trans; eauto.
Qed.

Lemma ltb_zero_positive (r : float) (s : bool) :
  positive_shift r = true -> ltb (S754_zero s) r = true.
Proof. destruct r as [?|[|]| |[|] ? ?]; try discriminate; reflexivity. Qed.

(** A binary64 number that is not below a positive one is positive. *)
Lemma not_below_positive (a r : float) :
  positive_shift r = true ->
  valid_binary prec emax a = true ->
  is_nan a = false ->
  ltb a r = false ->
  positive_shift a = true.
Proof.
  intros Hr Hv Na Hlt.
  destruct r as [?|[|]| |[|] mr er]; try discriminate Hr;
    destruct a as [sa|[|]| |[|] ma ea]; try discriminate Na;
    try discriminate Hlt; trivial.
Qed.

Lemma initial_shift_positive (lam reg0 : float) :
  positive_shift reg0 = true ->
  valid_binary prec emax lam = true ->
  is_nan lam = false ->
  positive_shift (py_max (py_max (mul minus_two lam) zero) reg0) = true.
Proof.
  intros Hr Hv Nl.
  unfold py_max at 1, gtb.
  destruct (SFltb (py_max (mul minus_two lam) zero) reg0) eqn:E; trivial.
  unfold py_max, gtb in *.
  destruct (SFltb (mul minus_two lam) zero) eqn:E0.
  - rewrite (ltb_zero_positive reg0 false Hr : SFltb zero reg0 = true) in E.
    discriminate E.
  - apply (not_below_positive _ reg0); trivial.
    + apply mul_valid; trivial.
    + apply mul_minus_two_not_nan. exact Nl.
Qed.

(** X5.  With a positive [reg0] the wrapper ends whatever the Hessian,
    as soon as the estimate of its lowest eigenvalue is a binary64
    number: the shift it starts from is positive, and the escalation
    returns or raises within 550 attempts. *)
Theorem wrapper_ends_with_positive_reg0 (H : tensor) (reg0 lam : float) :
  min_eig_estimate T H = Ret lam ->
  valid_binary prec emax lam = true ->
  is_nan lam = false ->
  positive_shift reg0 = true ->
  exists r,
    r <> OutOfFuel /\
    forall fuel, 549 < fuel ->
      _positive_factorization_lobpcg T H reg0 fuel = r.
Proof.
  intros E Hv Nl Hr.
  pose proof (initial_shift_positive lam reg0 Hr Hv Nl) as Hpos.
  set (s := py_max (py_max (mul minus_two lam) zero) reg0) in *.
  destruct (positive_shift_reaches_bound s Hpos) as (k0 & Hk0 & Hg).
  exists (chol_loop T 550 H s 0).
  assert (Hne : chol_loop T 550 H s 0 <> OutOfFuel)
    by (apply (chol_loop_bounded T k0); trivial; lia).
  split; [exact Hne|].
  intros fuel Hfuel.
  rewrite (lobpcg_shift T H reg0 fuel lam E). fold s.
  unfold _positive_factorization_cholesky.
  apply (chol_loop_fuel_mono T H 550); trivial; lia.
Qed.

(** X6.  When the estimate of the lowest eigenvalue is NaN, the shift is
    NaN and stays NaN under the escalation, so that the wrapper never
    ends once the factorization fails at it, whatever [reg0] is. *)
Theorem wrapper_never_ends_on_nan_estimate (H : tensor) (lam : float) :
  min_eig_estimate T H = Ret lam ->
  is_nan lam = true ->
  try_factor T H nan = None ->
  forall reg0 fuel, _positive_factorization_lobpcg T H reg0 fuel = OutOfFuel.
Proof.
  intros E N Hf reg0 fuel.
  rewrite (lobpcg_shift T H reg0 fuel lam E).
  destruct lam; try discriminate N.
  unfold _positive_factorization_cholesky.
  apply chol_loop_stuck; trivial.
Qed.

End InitialShift.

Section InitialShiftExamples.

Lemma wrapper_initial_shift_witness :
  min_eig_estimate Ref.ops H_minus_one = Ret minus_one /\
  _positive_factorization_lobpcg Ref.ops H_minus_one c_1e_7 30
    = _positive_factorization_cholesky Ref.ops H_minus_one
        (py_max (py_max (mul minus_two minus_one) zero) c_1e_7) 30.
Proof.
  split; [reflexivity|].
  apply (wrapper_initial_shift Ref.ops H_minus_one c_1e_7 30 minus_one).
  reflexivity.
Defined.

Lemma wrapper_ends_with_positive_reg0_witness :
  min_eig_estimate Ref.ops H_minus_one = Ret minus_one /\
  valid_binary prec emax minus_one = true /\
  is_nan minus_one = false /\
  positive_shift c_1e_7 = true /\
  exists r,
    r <> OutOfFuel /\
    forall fuel, 549 < fuel ->
      _positive_factorization_lobpcg Ref.ops H_minus_one c_1e_7 fuel = r.
Proof.
  repeat (split; [reflexivity|]).
  apply (wrapper_ends_with_positive_reg0 Ref.ops H_minus_one c_1e_7
           minus_one); reflexivity.
Defined.

Lemma wrapper_never_ends_on_nan_estimate_witness :
  min_eig_estimate Ref.ops H_inf = Ret nan /\
  is_nan nan = true /\
  try_factor Ref.ops H_inf nan = None /\
  _positive_factorization_lobpcg Ref.ops H_inf c_1e_7 1000 = OutOfFuel.
Proof.
  split; [vm_compute; reflexivity|]. split; [reflexivity|].
  split; [vm_compute; reflexivity|].
  apply (wrapper_never_ends_on_nan_estimate Ref.ops H_inf nan).
  - vm_compute. reflexivity.
  - reflexivity.
  - vm_compute. reflexivity.
Defined.

End InitialShiftExamples.

(** ** The loss the line search returns *)

Section LineSearchLoss.

Variable T : torch_ops.
Variable f_fn : tensor -> list float.

Lemma not_leb_ltb (a b : float) :
  is_nan a = false -> is_nan b = false ->
  leb a b = false -> ltb b a = true.
Proof.
  intros Na Nb H. apply ltb_key; trivial.
  destruct (leb_key a b Na Nb) as [_ K].
  destruct (key a) as [[a1 a2] a3], (key b) as [[b1 b2] b3].
  unfold lex_lt in *.
  assert (X : ~ ~ (b1 < a1 \/ b1 = a1 /\ (b2 < a2 \/ b2 = a2 /\ b3 < a3))%Z).
  { intros X. rewrite (K X) in H. discriminate H. }
  lia.
Qed.

Lemma ltb_inf_l (a : float) : ltb inf a = false.
Proof. destruct a as [?|[|]| |[|] ? ?]; reflexivity. Qed.

(** X7.  The loss the line search returns for a row is NaN in one case
    only: no step is forced and the incumbent loss of the row is NaN;
    the row then keeps the zero step.  A NaN loss of a candidate is read
    as [inf] and never returned. *)
Theorem linesearch_nan_only_from_incumbent (f : list float) (x d : tensor)
    (n : Z) (force : bool) (bet : list float) (dat : ls_data) (l l' : log)
    (i : nat) (chosen : float) :
  _linesearch T f_fn f x d n force l = (Ret (bet, dat), l') ->
  nth_error (f_best dat) i = Some chosen ->
  is_nan chosen = true ->
  force = false /\ nth_error f i = Some nan /\ nth_error bet i = Some zero.
Proof.
  intros H Hc N.
  apply linesearch_inv in H. destruct H as (cols & y & _ & _ & Hsel & _).
  apply ls_select_row in Hsel.
  destruct Hsel as (_ & _ & Hfb & Hrow).
  assert (Hi : i < length (ls_rows force f y)).
  { rewrite <- Hfb. apply nth_error_Some. congruence. }
  destruct (nth_error (ls_rows force f y) i) as [r|] eqn:Hr;
    [|apply nth_error_None in Hr; lia].
  destruct (Hrow _ _ Hr) as (idx & Harg & Hb & Hc').
  rewrite Hc in Hc'. injection Hc' as ->.
  pose proof (argmin_spec _ _ Harg) as (Hidx & _ & _).
  destruct force.
  - apply ls_rows_forced in Hr. destruct Hr as (yi & -> & _).
    rewrite length_map in Hidx.
    rewrite (nth_map_nan_to_inf_not_nan yi idx Hidx) in N. discriminate N.
  - apply ls_rows_unforced in Hr. destruct Hr as (fi & yi & -> & Hfi & _).
    destruct idx as [|idx].
    + simpl in N, Hb. destruct fi; try discriminate N. auto.
    + simpl in N, Hidx. rewrite length_map in Hidx.
      rewrite (nth_map_nan_to_inf_not_nan yi idx) in N by lia.
      discriminate N.
Qed.

(** X8.  When no step is forced, a row either keeps the zero step and
    its incumbent loss, or takes one of the candidate multipliers, and
    then the loss of [f_fn] at that candidate is returned as it is and
    is strictly less than the incumbent loss: a candidate whose loss is
    NaN, [inf] or equal to the incumbent is never taken. *)
Theorem linesearch_steps_only_to_improve (f : list float) (x d : tensor)
    (n : Z) (bet : list float) (dat : ls_data) (l l' : log)
    (i : nat) (fi : float) :
  _linesearch T f_fn f x d n false l = (Ret (bet, dat), l') ->
  nth_error f i = Some fi ->
  exists b chosen,
    nth_error bet i = Some b /\
    nth_error (f_best dat) i = Some chosen /\
    ((b = zero /\ chosen = fi) \/
     (exists j p,
        nth_error (ls_candidates T n) j = Some b /\
        tensor_add x (scalar_mul b d) = Ret p /\
        nth_error (f_fn p) i = Some chosen /\
        ltb chosen fi = true)).
Proof.
  intros H Hfi.
  apply linesearch_inv in H.
  destruct H as (cols & y & Hcols & Hy & Hsel & _).
  apply mapM_ls_eval in Hcols. destruct Hcols as (ps & Hps & -> & _).
  apply stack_cols_inv in Hy. destruct Hy as (c & cs & Hcs & Hall & ->).
  apply ls_select_row in Hsel.
  destruct Hsel as (Hlen & _ & _ & Hrow).
  specialize (Hlen eq_refl).
  destruct (nth_error_unforced_row _ _ _ _ Hlen Hfi) as (yi & Hyi & Hr).
  destruct (Hrow _ _ Hr) as (idx & Harg & Hb & Hc).
  exists (nth idx (ls_bets false (ls_candidates T n)) nan),
         (nth idx (fi :: map nan_to_inf yi) nan).
  split; [exact Hb|]. split; [exact Hc|].
  pose proof (argmin_spec _ _ Harg) as (Hidx & _ & Hfirst).
  destruct idx as [|j]; [left; split; reflexivity|right].
  assert (Hic : i < length c).
  { rewrite length_map, length_seq in Hlen. rewrite <- Hlen.
    apply nth_error_Some. congruence. }
  rewrite nth_error_map, nth_error_seq in Hyi.
  apply Nat.ltb_lt in Hic as Hic'. rewrite Hic' in Hyi.
  simpl in Hyi. injection Hyi as <-.
  simpl in Hidx. rewrite !length_map in Hidx.
  assert (Hj : j < length ps) by lia.
  pose proof (Forall2_length' _ _ _ Hps) as Hlps.
  destruct (nth_error (ls_candidates T n) j) as [b|] eqn:Hbj;
    [|apply nth_error_None in Hbj; lia].
  destruct (Forall2_nth_error _ _ _ Hps _ _ Hbj) as (p & Hp & Hadd).
  assert (Hlp : length (f_fn p) = length c).
  { rewrite Forall_forall in Hall. apply Hall.
    apply in_map. eapply nth_error_In. exact Hp. }
  destruct (nth_error (f_fn p) i) as [v|] eqn:Hv;
    [|apply nth_error_None in Hv; lia].
  assert (Hraw : nth j (map (fun col => nth i col nan) (map f_fn ps)) nan = v).
  { rewrite map_map.
    apply nth_error_nth.
    rewrite nth_error_map, Hp. simpl.
    rewrite (nth_error_nth _ _ _ Hv). reflexivity. }
  assert (Hch : nth (S j)
                  (fi :: map nan_to_inf
                           (map (fun col => nth i col nan) (map f_fn ps))) nan
                = nan_to_inf v).
  { simpl.
    rewrite (nth_indep _ nan (nan_to_inf nan)) by (rewrite !length_map; lia).
    rewrite map_nth, Hraw. reflexivity. }
  assert (Nf : is_nan fi = false).
  { destruct fi; trivial.
    simpl in Harg. rewrite argmin_from_nan in Harg by lia.
    discriminate Harg. }
  pose proof (Hfirst 0 ltac:(lia)) as Hle.
  rewrite Hch in Hle. simpl in Hle.
  pose proof (not_leb_ltb _ _ Nf (nan_to_inf_not_nan v) Hle) as Hlt.
  assert (Nv : is_nan v = false).
  { destruct (is_nan v) eqn:Nv; trivial.
    unfold nan_to_inf in Hlt. rewrite Nv in Hlt.
    rewrite ltb_inf_l in Hlt. discriminate Hlt. }
  assert (Hvv : nan_to_inf v = v) by (unfold nan_to_inf; rewrite Nv; trivial).
  exists j, p.
  simpl (nth (S j) (ls_bets _ _) nan).
  rewrite (nth_error_nth _ _ _ Hbj).
  rewrite Hch, Hvv. rewrite Hvv in Hlt. auto.
Qed.

End LineSearchLoss.

Section LineSearchLossExamples.

Lemma linesearch_nan_only_from_incumbent_witness :
  _linesearch Ref.ops Ex.quad_f [nan] Ex.x0 Ex.d1 5 false []
    = (Ret ([zero], ex_ls_nan_dat), ex_ls_log 5 false) /\
  nth_error (f_best ex_ls_nan_dat) 0 = Some nan /\
  is_nan nan = true /\
  nth_error [nan] 0 = Some nan /\ nth_error [zero] 0 = Some zero.
Proof.
  split; [vm_compute; reflexivity|].
  split; [reflexivity|]. split; [reflexivity|].
  apply (linesearch_nan_only_from_incumbent Ref.ops Ex.quad_f [nan] Ex.x0
           Ex.d1 5 false [zero] ex_ls_nan_dat [] (ex_ls_log 5 false) 0 nan).
  - vm_compute. reflexivity.
  - reflexivity.
  - reflexivity.
Defined.

Lemma linesearch_steps_only_to_improve_witness :
  _linesearch Ref.ops Ex.quad_f [Ex.four] Ex.x0 Ex.d1 5 false []
    = (Ret ([one], ex_ls_dat), ex_ls_log 5 false) /\
  nth_error [Ex.four] 0 = Some Ex.four /\
  exists b chosen,
    nth_error [one] 0 = Some b /\
    nth_error (f_best ex_ls_dat) 0 = Some chosen /\
    ((b = zero /\ chosen = Ex.four) \/
     (exists j p,
        nth_error (ls_candidates Ref.ops 5) j = Some b /\
        tensor_add Ex.x0 (scalar_mul b Ex.d1) = Ret p /\
        nth_error (Ex.quad_f p) 0 = Some chosen /\
        ltb chosen Ex.four = true)).
Proof.
  split; [vm_compute; reflexivity|]. split; [reflexivity|].
  apply (linesearch_steps_only_to_improve Ref.ops Ex.quad_f [Ex.four] Ex.x0
           Ex.d1 5 [one] ex_ls_dat [] (ex_ls_log 5 false) 0 Ex.four).
  - vm_compute. reflexivity.
  - reflexivity.
Defined.

End LineSearchLossExamples.

(** ** Runs of the driver *)

Section Runs.

Variable T : torch_ops.
Variable f_fn : tensor -> list float.
Variable g_fn h_fn : tensor -> tensor.

(** X9.  With [max_it <= 0] the loop body never runs: the loss is
    evaluated once, at the initial point, the gradient and the Hessian
    never, and the initial point is returned; with full output the
    history holds it twice. *)
Theorem no_iteration_returns_start (cfg : config) (x : tensor)
    (M : nat) (x_size : np_size) (fuel : nat) (l : log) :
  (max_it cfg <= 0)%Z ->
  batch_dims (batched cfg) x = Ret (M, x_size) ->
  minimize_sqp T f_fn g_fn h_fn cfg [x] fuel l
  = (Ret (x, if full_output cfg then Some [x; x] else None),
     l ++ CallF x :: (if has_callback cfg then [Breakpoint; Callback x]
                      else [])).
Proof.
  intros Hm Hd. unfold minimize_sqp, bind.
  rewrite (sqp_run_single T f_fn g_fn h_fn cfg x M x_size fuel l Hd).
  replace (Z.to_nat (max_it cfg)) with 0 by lia.
  simpl. unfold ret, sqp_result, init_log. simpl.
  destruct (full_output cfg); reflexivity.
Qed.

(** X10.  The calls of one iteration, in order: the gradient and the
    Hessian once each at the current point, then the loss once for each
    candidate multiplier [b], at [x + b * d] for one direction [d], and
    last the callback, if there is one, on the new iterate. *)
Theorem iteration_calls (cfg : config) (fuel M : nat) (x_size : np_size)
    (x_shape : list nat) (st st' : sqp_state) (imprv : float)
    (l l' : log) :
  sqp_iteration T f_fn g_fn h_fn cfg fuel M x_size x_shape st l
    = (Ret (st', imprv), l') ->
  exists d ps,
    Forall2 (fun b p => tensor_add (st_x st) (scalar_mul b d) = Ret p)
            (ls_candidates T (ls_pts_nb cfg)) ps /\
    l' = l ++ [CallG (st_x st); CallH (st_x st)] ++ map CallF ps
           ++ (if has_callback cfg then [Callback (st_x st')] else []).
Proof.
  intros H.
  apply sqp_iteration_inv in H.
  destruct H as (g & Hm & F & info & d0 & d & f & bet & dat & x' & bn & l_ls
                 & _ & _ & _ & _ & _ & _ & _ & _ & Hls & _ & _ & _ & Hl
                 & _ & Hx & _ & _).
  apply linesearch_inv in Hls. destruct Hls as (cols & y & Hcols & _).
  apply mapM_ls_eval in Hcols. destruct Hcols as (ps & Hps & _ & Hlog).
  exists d, ps. split; [exact Hps|].
  rewrite Hl, Hlog, Hx, <- !app_assoc. reflexivity.
Qed.

(** *** Invariants of a run *)

Lemma sqp_steps_preserve (P : sqp_state -> Prop) (cfg : config)
    (fuel M : nat) (x_size : np_size) (x_shape : list nat) :
  (forall st st' v l l',
     sqp_iteration T f_fn g_fn h_fn cfg fuel M x_size x_shape st l
       = (Ret (st', v), l') -> P st -> P st') ->
  forall k st fin vs l l',
    sqp_steps T f_fn g_fn h_fn cfg fuel M x_size x_shape k st l
      = (Ret (fin, vs), l') -> P st -> P fin.
Proof.
  intros Hstep. induction k as [|k IH]; intros st fin vs l l' H Hst;
    simpl in H.
  - apply ret_Ret in H. destruct H as [H _]. injection H as <- _.
    exact Hst.
  - apply bind_Ret in H. destruct H as ([st1 v] & l1 & H1 & H).
    apply bind_Ret in H. destruct H as ([fin' vs'] & l2 & H2 & H).
    apply ret_Ret in H. destruct H as [H _]. injection H as <- _.
    eapply IH; [exact H2|]. eapply Hstep; eauto.
Qed.

(** What holds at the start and is kept by every iteration holds when
    the run returns. *)
Lemma sqp_run_preserve (P : sqp_state -> Prop) (cfg : config) (x : tensor)
    (M : nat) (x_size : np_size) (fuel : nat) (fin : sqp_state) (l l' : log) :
  batch_dims (batched cfg) x = Ret (M, x_size) ->
  sqp_run T f_fn g_fn h_fn cfg [x] fuel l = (Ret fin, l') ->
  P (init_state f_fn x) ->
  (forall st st' v l1 l2,
     sqp_iteration T f_fn g_fn h_fn cfg fuel M x_size (shape x) st l1
       = (Ret (st', v), l2) -> P st -> P st') ->
  P fin.
Proof.
  intros Hd Hrun H0 Hstep.
  rewrite (sqp_run_single T f_fn g_fn h_fn cfg x M x_size fuel l Hd) in Hrun.
  apply sqp_loop_steps in Hrun.
  destruct Hrun as (k & vs & _ & Hs & _).
  exact (sqp_steps_preserve P cfg fuel M x_size (shape x) Hstep
           k _ _ _ _ _ Hs H0).
Qed.

Lemma hd_error_rev_last {A} (l : list A) (a d : A) :
  hd_error (rev l) = Some a -> last l d = a.
Proof.
  destruct l as [|b l] using rev_ind; [discriminate|].
  rewrite rev_app_distr. simpl. intros H. injection H as ->.
  apply last_last.
Qed.

(** The unforced line search, row by row: the chosen loss is not above
    the incumbent, and is NaN exactly when the incumbent is. *)
Lemma linesearch_unforced_row (f : list float) (x d : tensor) (n : Z)
    (bet : list float) (dat : ls_data) (l l' : log) :
  _linesearch T f_fn f x d n false l = (Ret (bet, dat), l') ->
  length (f_best dat) = length f /\
  forall i fi, nth_error f i = Some fi ->
    exists chosen,
      nth_error (f_best dat) i = Some chosen /\
      ltb fi chosen = false /\
      is_nan chosen = is_nan fi.
Proof.
  intros H.
  apply linesearch_inv in H. destruct H as (cols & y & _ & _ & Hsel & _).
  apply ls_select_row in Hsel.
  destruct Hsel as (Hlen & _ & Hfb & Hrow).
  specialize (Hlen eq_refl).
  split.
  { rewrite Hfb. unfold ls_rows.
    rewrite length_map, length_combine, length_map. lia. }
  intros i fi Hfi.
  destruct (nth_error_unforced_row _ _ _ _ Hlen Hfi) as (yi & Hyi & Hr).
  destruct (Hrow _ _ Hr) as (idx & Harg & _ & Hc).
  exists (nth idx (fi :: map nan_to_inf yi) nan).
  split; [exact Hc|].
  pose proof (argmin_spec _ _ Harg) as (Hidx & Hmin & _).
  split; [exact (Hmin 0)|].
  destruct (is_nan fi) eqn:Nf.
  - destruct fi; try discriminate Nf.
    simpl in Harg. rewrite argmin_from_nan in Harg by lia.
    injection Harg as <-. reflexivity.
  - destruct idx as [|idx]; simpl; trivial.
    apply nth_map_nan_to_inf_not_nan.
    simpl in Hidx. rewrite length_map in Hidx. lia.
Qed.

Lemma eqb_refl (a : float) : is_nan a = false -> eqb a a = true.
Proof. intros N. apply eqb_key; trivial. Qed.

(** A loss that is neither below nor above a number equal to [b]
    equals [b]. *)
Lemma eqb_squeeze (b fi c : float) :
  eqb b fi = true -> is_nan c = false ->
  ltb fi c = false -> ltb c b = false ->
  eqb b c = true.
Proof.
  intros E Nc L1 L2.
  destruct (eqb_not_nan _ _ E) as [Nb Nf].
  apply eqb_key in E; trivial.
  destruct (eqb b c) eqn:X; trivial.
  pose proof (ltb_trichotomy c b Nc Nb L2) as Y.
  assert (Z : eqb c b = false).
  { destruct (eqb c b) eqn:W; trivial.
    apply eqb_key in W; trivial.
    assert (W' : eqb b c = true) by (apply eqb_key; auto).
    congruence. }
  specialize (Y Z).
  apply ltb_key in Y; trivial. rewrite E in Y.
  apply ltb_key in Y; trivial. congruence.
Qed.

Lemma unforced_iteration_keeps_best (cfg : config) (fuel M : nat)
    (x_size : np_size)
    (x_shape : list nat) (st st' : sqp_state) (imprv : float)
    (l l' : log) :
  force_step cfg = false ->
  sqp_iteration T f_fn g_fn h_fn cfg fuel M x_size x_shape st l
    = (Ret (st', imprv), l') ->
  best_is_last (batched cfg) M st ->
  best_is_last (batched cfg) M st'.
Proof.
  intros Hforce H Hinv.
  apply sqp_iteration_inv in H.
  destruct H as (g & Hm & F & info & d0 & d & f & bet & dat & x' & bn & l_ls
                 & _ & _ & _ & _ & _ & _ & _ & Hf & Hls & _ & _ & _ & _
                 & Hub & _ & Hfh & _).
  rewrite Hforce in Hls.
  apply linesearch_unforced_row in Hls. destruct Hls as [Hlen Hrow].
  apply (hd_error_rev_last _ _ []) in Hf.
  intros i Hi v c Hv Hc.
  rewrite Hfh, last_snoc in Hc.
  destruct (update_best_rows _ _ _ _ _ _ _ _ Hub i Hi)
    as (c' & b & Hc' & Hb & Hn).
  rewrite Hc in Hc'. injection Hc' as <-.
  rewrite Hv in Hn. injection Hn as ->.
  assert (Hif : i < length f).
  { rewrite <- Hlen. apply nth_error_Some. congruence. }
  destruct (nth_error f i) as [fi|] eqn:Hfi;
    [|apply nth_error_None in Hfi; lia].
  destruct (Hrow i fi Hfi) as (chosen & Hch & Hnw & Hnan).
  rewrite Hc in Hch. injection Hch as <-.
  rewrite <- Hf in Hfi.
  pose proof (Hinv i Hi b fi Hb Hfi) as Hsame.
  destruct (ltb c b) eqn:E.
  - left. apply eqb_refl. apply (ltb_not_nan _ _ E).
  - destruct Hsame as [Heq|[Nb Nf]].
    + left. destruct (eqb_not_nan _ _ Heq) as [_ Nf].
      rewrite Nf in Hnan.
      eapply eqb_squeeze; eauto.
    + right. rewrite Nf in Hnan. auto.
Qed.

(** X11.  When no step is forced, the tracked best loss of a row is the
    loss the last line search returned for the row (the initial loss
    when there was none): the two compare equal, or are both NaN. *)
Theorem unforced_best_is_last_loss (cfg : config) (x : tensor)
    (M : nat) (x_size : np_size) (fuel : nat) (fin : sqp_state) (l l' : log) :
  force_step cfg = false ->
  batch_dims (batched cfg) x = Ret (M, x_size) ->
  sqp_run T f_fn g_fn h_fn cfg [x] fuel l = (Ret fin, l') ->
  forall i, i < tracked_rows (batched cfg) M ->
    forall v c,
      nth_error (st_f_best fin) i = Some v ->
      nth_error (last (st_f_hist fin) []) i = Some c ->
      same_loss v c.
Proof.
  intros Hforce Hd Hrun.
  apply (sqp_run_preserve (best_is_last (batched cfg) M)
           cfg x M x_size fuel fin l l' Hd Hrun).
  - intros i Hi v c Hv Hc. simpl in Hv, Hc.
    rewrite Hv in Hc. injection Hc as <-.
    unfold same_loss.
    destruct (is_nan v) eqn:N; [right; auto|left; apply eqb_refl; exact N].
  - intros st st' v l1 l2 H. 
    exact (unforced_iteration_keeps_best cfg fuel M x_size (shape x)
             st st' v l1 l2 Hforce H).
Qed.

(** *** A start at which the loss is NaN *)

Lemma nan_best_iteration (cfg : config) (fuel M : nat) (x_size : np_size)
    (x_shape : list nat) (st st' : sqp_state) (imprv : float)
    (l l' : log) (i : nat) (x : tensor) :
  i < tracked_rows (batched cfg) M ->
  sqp_iteration T f_fn g_fn h_fn cfg fuel M x_size x_shape st l
    = (Ret (st', imprv), l') ->
  stuck_at (batched cfg) i x st ->
  stuck_at (batched cfg) i x st'.
Proof.
  intros Hi H (Hwf & Hnan & Hrow).
  apply sqp_iteration_inv in H.
  destruct H as (g & Hm & F & info & d0 & d & f & bet & dat & x' & bn & l_ls
                 & _ & _ & _ & _ & _ & _ & _ & _ & _ & Hstep & _ & _ & _
                 & Hub & _ & _ & _).
  pose proof (take_step_wf _ _ _ _ _ _ Hstep) as Hwx.
  unfold stuck_at, same_row, tracked_rows in *.
  destruct (batched cfg).
  - destruct (update_best_batched _ _ _ _ _ _ _ Hub Hwx Hwf) as [Hwf' Hrows].
    destruct (Hrows i Hi) as (c & b & xr & _ & Hb & Hn & Hr & Hsel).
    rewrite Hnan in Hb. injection Hb as <-.
    rewrite ltb_nan_r in Hn, Hsel.
    split; [exact Hwf'|]. split; [exact Hn|].
    destruct Hrow as (r & Hr1 & Hr2).
    rewrite Hr1 in Hsel. injection Hsel as <-. eauto.
  - assert (i = 0) as -> by lia.
    apply update_best_unbatched in Hub.
    destruct Hub as (c & b & _ & Hb & Hsel).
    rewrite Hnan in Hb. injection Hb as <-.
    rewrite ltb_nan_r in Hsel. destruct Hsel as [-> ->]. auto.
Qed.

(** X12.  A row whose loss is NaN at the initial point is never
    replaced, since no loss compares below NaN: whatever the iterates
    do, forced or not, the run returns the initial point for that row
    (the whole initial point without batching). *)
Theorem nan_start_is_returned (cfg : config) (x : tensor)
    (M : nat) (x_size : np_size) (fuel : nat) (l l' : log)
    (r : tensor * option (list tensor)) (i : nat) :
  wf_tensor x = true ->
  batch_dims (batched cfg) x = Ret (M, x_size) ->
  i < tracked_rows (batched cfg) M ->
  nth_error (f_fn x) i = Some nan ->
  minimize_sqp T f_fn g_fn h_fn cfg [x] fuel l = (Ret r, l') ->
  same_row (batched cfg) i (fst r) x.
Proof.
  intros Hwf Hd Hi Hnan H.
  apply minimize_sqp_inv in H. destruct H as (fin & Hrun & ->).
  assert (Hfin : stuck_at (batched cfg) i x fin).
  { apply (sqp_run_preserve (stuck_at (batched cfg) i x)
             cfg x M x_size fuel fin l l' Hd Hrun).
    - unfold stuck_at. simpl. split; [exact Hwf|]. split; [exact Hnan|].
      unfold same_row, batch_dims, tracked_rows in *.
      destruct (batched cfg); trivial.
      unfold row. destruct (shape x) as [|m rest]; [discriminate Hd|].
      assert (Hm : M = m) by (destruct rest; injection Hd as <- _; trivial).
      subst M. apply Nat.ltb_lt in Hi. rewrite Hi. eauto.
    - intros st st' v l1 l2 Hit.
      exact (nan_best_iteration cfg fuel M x_size (shape x) st st' v l1 l2
               i x Hi Hit). }
  destruct Hfin as (_ & _ & Hrow).
  unfold sqp_result. destruct (full_output cfg); exact Hrow.
Qed.

(** X16.  With batching and a one-dimensional initial point, [x_size]
    is [np.prod(())], the float [1.0], and the first reshape of the
    first iteration refuses it: whenever [max_it > 0] the run raises
    [TypeError] straight after the first call of [g_fn]; [h_fn] is never
    called and the NaN tests are never reached. *)
Theorem batched_vector_start_raises (cfg : config) (x : tensor) (m : nat)
    (fuel : nat) (l : log) :
  batched cfg = true ->
  shape x = [m] ->
  (0 < max_it cfg)%Z ->
  exists msg,
    minimize_sqp T f_fn g_fn h_fn cfg [x] fuel l
    = (Raise (TypeError msg), l ++ init_log cfg x ++ [CallG x]).
Proof.
  intros Hb Hs Hm.
  assert (Hd : batch_dims (batched cfg) x = Ret (m, FloatSize one))
    by (unfold batch_dims; rewrite Hb, Hs; reflexivity).
  eexists. apply minimize_sqp_raise.
  rewrite (sqp_run_single T f_fn g_fn h_fn cfg x m (FloatSize one) fuel l Hd).
  destruct (Z.to_nat (max_it cfg)) as [|n] eqn:En; [lia|].
  apply sqp_loop_raise.
  unfold sqp_iteration, bind, call_g, emit, ret, lift, bind, reshape_batch.
  simpl. rewrite <- app_assoc. reflexivity.
Qed.

End Runs.

Section RunsExamples.

Lemma no_iteration_returns_start_witness :
  (max_it no_it_config <= 0)%Z /\
  batch_dims (batched no_it_config) Ex.x0 = Ret (1, IntSize 1) /\
  minimize_sqp Ref.ops Ex.quad_f Ex.quad_g Ex.quad_h no_it_config
               [Ex.x0] 30 []
  = (Ret (Ex.x0, Some [Ex.x0; Ex.x0]),
     [CallF Ex.x0; Breakpoint; Callback Ex.x0]).
Proof.
  split; [simpl; lia|]. split; [reflexivity|].
  apply (no_iteration_returns_start Ref.ops Ex.quad_f Ex.quad_g Ex.quad_h
           no_it_config Ex.x0 1 (IntSize 1) 30 []).
  - simpl. lia.
  - reflexivity.
Defined.

Lemma iteration_calls_witness :
  sqp_iteration Ref.ops ExB.f ExB.g ExB.h batched_config 30
                2 (IntSize 3) [2; 3] ExB.st0 (init_log batched_config ExB.x0)
    = (Ret (ExB.st1, ExB.imprv1), snd ExB.iter) /\
  exists d ps,
    Forall2 (fun b p => tensor_add (st_x ExB.st0) (scalar_mul b d) = Ret p)
            (ls_candidates Ref.ops (ls_pts_nb batched_config)) ps /\
    snd ExB.iter
    = init_log batched_config ExB.x0
        ++ [CallG (st_x ExB.st0); CallH (st_x ExB.st0)] ++ map CallF ps
        ++ (if has_callback batched_config then [Callback (st_x ExB.st1)]
            else []).
Proof.
  split; [vm_compute; reflexivity|].
  apply (iteration_calls Ref.ops ExB.f ExB.g ExB.h batched_config 30
           2 (IntSize 3) [2; 3] ExB.st0 ExB.st1 ExB.imprv1
           (init_log batched_config ExB.x0) (snd ExB.iter)).
  vm_compute. reflexivity.
Defined.

Lemma unforced_best_is_last_loss_witness :
  force_step full_config = false /\
  batch_dims (batched full_config) Ex.x0 = Ret (1, IntSize 1) /\
  sqp_run Ref.ops Ex.quad_f Ex.quad_g Ex.quad_h full_config [Ex.x0] 30 []
    = (Ret ex_full_fin, snd ex_full_state) /\
  forall i, i < tracked_rows (batched full_config) 1 ->
    forall v c,
      nth_error (st_f_best ex_full_fin) i = Some v ->
      nth_error (last (st_f_hist ex_full_fin) []) i = Some c ->
      same_loss v c.
Proof.
  split; [reflexivity|]. split; [reflexivity|].
  split; [vm_compute; reflexivity|].
  apply (unforced_best_is_last_loss Ref.ops Ex.quad_f Ex.quad_g Ex.quad_h
           full_config Ex.x0 1 (IntSize 1) 30 ex_full_fin []
           (snd ex_full_state)).
  - reflexivity.
  - reflexivity.
  - vm_compute. reflexivity.
Defined.

(** Forced to step, the iterates go from 0 to the minimum at 2, and the
    run still returns 0, where the loss is NaN. *)
Lemma nan_start_is_returned_witness :
  wf_tensor Ex.x0 = true /\
  batch_dims (batched forced_config) Ex.x0 = Ret (1, IntSize 1) /\
  0 < tracked_rows (batched forced_config) 1 /\
  nth_error (nan_at_origin_f Ex.x0) 0 = Some nan /\
  minimize_sqp Ref.ops nan_at_origin_f Ex.quad_g Ex.quad_h forced_config
               [Ex.x0] 30 [] = (Ret ex_forced_result, snd ex_forced_run) /\
  same_row (batched forced_config) 0 (fst ex_forced_result) Ex.x0.
Proof.
  split; [reflexivity|]. split; [reflexivity|].
  split; [simpl; lia|]. split; [reflexivity|].
  split; [vm_compute; reflexivity|].
  apply (nan_start_is_returned Ref.ops nan_at_origin_f Ex.quad_g Ex.quad_h
           forced_config Ex.x0 1 (IntSize 1) 30 [] (snd ex_forced_run)
           ex_forced_result 0).
  - reflexivity.
  - reflexivity.
  - simpl. lia.
  - reflexivity.
  - vm_compute. reflexivity.
Defined.

(** The three bowls on a batch of three scalars. *)
Lemma batched_vector_start_raises_witness :
  batched batched_config = true /\
  shape bowls_x0_flat = [3] /\
  (0 < max_it batched_config)%Z /\
  exists msg,
    minimize_sqp Ref.ops bowls_f bowls_g bowls_h batched_config
                 [bowls_x0_flat] 30 []
    = (Raise (TypeError msg),
       [] ++ init_log batched_config bowls_x0_flat ++ [CallG bowls_x0_flat]).
Proof.
  split; [reflexivity|]. split; [reflexivity|]. split; [reflexivity|].
  apply (batched_vector_start_raises Ref.ops bowls_f bowls_g bowls_h
           batched_config bowls_x0_flat 3 30 []); reflexivity.
Defined.

End RunsExamples.

(** ** [minimize_agd] *)

Section AgdDriver.

Context {S : Type}.
Variable ops : Agd.optim_ops S.
Variable g_fn : option (list tensor -> list tensor).

Lemma agd_bind_Ok {A B} (c : Agd.M A) (k : A -> Agd.M B) (b : B)
    (l l' : Agd.log) :
  Agd.bind c k l = (Agd.Ok b, l') ->
  exists a l1, c l = (Agd.Ok a, l1) /\ k a l1 = (Agd.Ok b, l').
Proof.
  unfold Agd.bind. destruct (c l) as [[a|e] l1]; try discriminate. eauto.
Qed.

Lemma agd_lift_Ok {A} (c : Agd.result A) (a : A) (l l' : Agd.log) :
  Agd.lift c l = (Agd.Ok a, l') -> c = Agd.Ok a /\ l' = l.
Proof. unfold Agd.lift. intros H. injection H as -> ->. auto. Qed.

Lemma agd_ret_Ok {A} (a b : A) (l l' : Agd.log) :
  Agd.ret a l = (Agd.Ok b, l') -> a = b /\ l' = l.
Proof. unfold Agd.ret. intros H. injection H as -> ->. auto. Qed.

Lemma agd_when_Ok (b : bool) (ev : Agd.event) (u : unit) (l l' : Agd.log) :
  Agd.when b (Agd.emit ev) l = (Agd.Ok u, l') ->
  l' = l ++ (if b then [ev] else []).
Proof.
  destruct b; simpl.
  - unfold Agd.emit. intros H. injection H as _ <-. reflexivity.
  - intros H. apply agd_ret_Ok in H. destruct H as [_ ->].
    rewrite app_nil_r. reflexivity.
Qed.

(** X13.  With [max_it = 0], or with [ai = 0.0], the schedule factor
    [(af / ai) ** (1.0 / max_it)] divides by zero: the run raises
    [ZeroDivisionError] before the optimizer is built and before any
    call of the loss, the gradient or the callback. *)
Theorem agd_zero_budget_raises (cfg : Agd.config) (args0 : list tensor)
    (l : Agd.log) :
  args0 <> [] ->
  Agd.max_it cfg = 0%Z \/ Agd.is_zero (Agd.ai cfg) = true ->
  exists msg,
    Agd.minimize_agd ops g_fn cfg args0 l
    = (Agd.Err (Agd.ZeroDivisionError msg), l).
Proof.
  intros Hne Hz.
  destruct args0 as [|x rest]; [congruence|].
  unfold Agd.minimize_agd, Agd.bind, Agd.lift, Agd.schedule_factor.
  unfold Agd.float_div at 1.
  destruct (Agd.is_zero (Agd.ai cfg)) eqn:E; simpl; [eauto|].
  destruct Hz as [Hz|Hz]; [|discriminate Hz].
  rewrite Hz. simpl. eauto.
Qed.

Lemma compute_grads_Ok (cfg : Agd.config) (st : Agd.state S)
    (gr : list (option tensor)) (l l' : Agd.log) :
  Agd.compute_grads ops g_fn cfg st l = (Agd.Ok gr, l') ->
  l' = l ++ Agd.CallF (Agd.args st)
         :: (if Agd.given g_fn then [Agd.CallG (Agd.args st)] else []).
Proof.
  unfold Agd.compute_grads. destruct g_fn as [g|]; intros H.
  - apply agd_bind_Ok in H. destruct H as ([] & l1 & H1 & H).
    unfold Agd.emit in H1. injection H1 as <-.
    apply agd_bind_Ok in H. destruct H as ([] & l2 & H2 & H).
    unfold Agd.emit in H2. injection H2 as <-.
    apply agd_ret_Ok in H. destruct H as [_ ->].
    rewrite <- app_assoc. reflexivity.
  - apply agd_bind_Ok in H. destruct H as ([] & l1 & H1 & H).
    unfold Agd.emit in H1. injection H1 as <-.
    apply agd_bind_Ok in H. destruct H as (gr' & l2 & H2 & H).
    apply agd_lift_Ok in H2. destruct H2 as [_ ->].
    destruct (Agd.batched cfg).
    + destruct (Agd.args st) as [|x rest].
      * apply agd_lift_Ok in H. destruct H as [H _]. discriminate H.
      * destruct (shape x).
        -- apply agd_lift_Ok in H. destruct H as [H _]. discriminate H.
        -- apply agd_ret_Ok in H. destruct H as [_ ->]. reflexivity.
    + apply agd_ret_Ok in H. destruct H as [_ ->]. reflexivity.
Qed.

Lemma agd_iteration_Ok (cfg : Agd.config) (gam : Agd.num)
    (st st' : Agd.state S) (l l' : Agd.log) :
  Agd.agd_iteration ops g_fn cfg gam st l = (Agd.Ok st', l') ->
  Agd.args_hist st' = Agd.args_hist st ++ [Agd.args st'] /\
  Agd.lr st' = Agd.num_mul ops (Agd.lr st) gam /\
  l' = l ++ (Agd.CallF (Agd.args st)
               :: (if Agd.given g_fn then [Agd.CallG (Agd.args st)] else []))
         ++ [Agd.Step (Agd.lr st)]
         ++ (if Agd.has_callback cfg then [Agd.Callback (Agd.args st')]
             else []).
Proof.
  unfold Agd.agd_iteration. intros H.
  apply agd_bind_Ok in H. destruct H as (gr & l1 & Hg & H).
  apply compute_grads_Ok in Hg. subst l1.
  destruct (Agd.no_grad gr).
  { apply agd_lift_Ok in H. destruct H as [H _]. discriminate H. }
  apply agd_bind_Ok in H. destruct H as ([] & l2 & H2 & H).
  unfold Agd.emit in H2. injection H2 as <-.
  apply agd_bind_Ok in H. destruct H as ([s' a'] & l3 & H3 & H).
  apply agd_lift_Ok in H3. destruct H3 as [_ ->].
  apply agd_bind_Ok in H. destruct H as ([] & l4 & H4 & H).
  apply agd_when_Ok in H4. subst l4.
  apply agd_ret_Ok in H. destruct H as [<- ->]. simpl.
  repeat split. rewrite <- !app_assoc. reflexivity.
Qed.

Lemma last_cons_head {A} (l : list A) (a d : A) :
  last (a :: l) d = last l a.
Proof.
  revert a d. induction l as [|b l IH]; intros a d; [reflexivity|].
  change (last (a :: b :: l) d) with (last (b :: l) d).
  rewrite (IH b d), (IH b a). reflexivity.
Qed.

Lemma agd_loop_Ok (cfg : Agd.config) (gam : Agd.num) (n : nat) :
  forall (st st' : Agd.state S) (l l' : Agd.log),
  Agd.agd_loop ops g_fn cfg gam n st l = (Agd.Ok st', l') ->
  exists hist,
    length hist = n /\
    Agd.args_hist st' = Agd.args_hist st ++ hist /\
    Agd.args st' = last hist (Agd.args st) /\
    l' = l ++ Agd.schedule_log (Agd.given g_fn)
                (Agd.has_callback cfg)
                (fun v => Agd.num_mul ops v gam)
                (Agd.lr st) (Agd.args st) hist.
Proof.
  induction n as [|n IH]; intros st st' l l' H; simpl in H.
  - apply agd_ret_Ok in H. destruct H as [<- ->].
    exists []. simpl. rewrite !app_nil_r. auto.
  - apply agd_bind_Ok in H. destruct H as (st1 & l1 & H1 & H).
    apply agd_iteration_Ok in H1. destruct H1 as (Hh & Hlr & ->).
    apply IH in H. destruct H as (hist & Hlen & Hh' & Ha & ->).
    exists (Agd.args st1 :: hist).
    split; [simpl; lia|]. split.
    { rewrite Hh', Hh, <- app_assoc. reflexivity. }
    split.
    { rewrite Ha. symmetry. apply last_cons_head. }
    simpl. rewrite Hlr.
    destruct (Agd.given g_fn); simpl; rewrite <- !app_assoc; reflexivity.
Qed.

(** X14.  The loop has no convergence test: a run that returns went
    through all [max_it] iterations.  Whatever [full_output] is, the
    history is recorded: it holds the initial arguments and one
    snapshot per iteration, and the last snapshot is what the run
    returns.  Every iteration evaluates the loss (and [g_fn], if there
    is one) once at the current arguments, then steps with the step
    length [ai * gam * ... * gam], one factor per iteration before it,
    then calls the callback on the new arguments. *)
Theorem agd_runs_whole_budget (cfg : Agd.config) (args0 : list tensor)
    (r : Agd.ret_val) (h : option (list Agd.ret_val)) (l l' : Agd.log) :
  Agd.minimize_agd ops g_fn cfg args0 l = (Agd.Ok (r, h), l') ->
  exists gam hist,
    Agd.schedule_factor ops cfg = Agd.Ok gam /\
    length hist = Z.to_nat (Agd.max_it cfg) /\
    r = Agd.pack (last hist args0) /\
    h = (if Agd.full_output cfg
         then Some (map Agd.pack (args0 :: hist)) else None) /\
    l' = l ++ (if Agd.has_callback cfg then [Agd.Callback args0] else [])
           ++ Agd.schedule_log (Agd.given g_fn)
                (Agd.has_callback cfg)
                (fun v => Agd.num_mul ops v gam)
                (Agd.Real (Agd.ai cfg)) args0 hist.
Proof.
  unfold Agd.minimize_agd. intros H.
  destruct args0 as [|x rest].
  { apply agd_lift_Ok in H. destruct H as [H _]. discriminate H. }
  apply agd_bind_Ok in H. destruct H as (gam & l1 & Hgam & H).
  apply agd_lift_Ok in Hgam. destruct Hgam as [Hgam ->].
  apply agd_bind_Ok in H. destruct H as (s & l2 & Hs & H).
  apply agd_lift_Ok in Hs. destruct Hs as [_ ->].
  apply agd_bind_Ok in H. destruct H as ([] & l3 & Hcb & H).
  apply agd_when_Ok in Hcb. subst l3.
  apply agd_bind_Ok in H. destruct H as (st & l4 & Hloop & H).
  apply agd_ret_Ok in H. destruct H as [H ->]. injection H as <- <-.
  apply agd_loop_Ok in Hloop.
  destruct Hloop as (hist & Hlen & Hh & Ha & ->).
  exists gam, hist. simpl in Hh, Ha.
  split; [exact Hgam|]. split; [exact Hlen|].
  split; [rewrite Ha; reflexivity|].
  split; [rewrite Hh; reflexivity|].
  rewrite <- app_assoc. reflexivity.
Qed.

(** X15.  When [g_fn] returns no gradient at the initial arguments, no
    argument has a [.grad] in the first iteration and the norm of the
    gradient is taken of the integer 0: the run raises
    [AttributeError], after the first calls of the loss and of [g_fn]
    and before any step of the optimizer. *)
Theorem agd_no_gradient_raises (cfg : Agd.config) (args0 : list tensor)
    (g : list tensor -> list tensor) (gam : Agd.num) (s : S)
    (l : Agd.log) :
  g_fn = Some g ->
  args0 <> [] ->
  (0 < Agd.max_it cfg)%Z ->
  Agd.schedule_factor ops cfg = Agd.Ok gam ->
  Agd.adam_init ops args0 (Agd.ai cfg) = Agd.Ok s ->
  Agd.zero_grad ops (map (fun _ => None) args0)
    = map (fun _ => None) args0 ->
  g args0 = [] ->
  exists msg,
    Agd.minimize_agd ops g_fn cfg args0 l
    = (Agd.Err (Agd.AttributeError msg),
       l ++ (if Agd.has_callback cfg then [Agd.Callback args0] else [])
         ++ [Agd.CallF args0; Agd.CallG args0]).
Proof.
  intros Hg Hne Hm Hgam Hs Hz Hnone.
  destruct args0 as [|x rest]; [congruence|].
  destruct (Z.to_nat (Agd.max_it cfg)) as [|n] eqn:En; [lia|].
  eexists.
  unfold Agd.minimize_agd, Agd.bind at 1, Agd.lift at 1.
  rewrite Hgam.
  unfold Agd.bind at 1, Agd.lift at 1. rewrite Hs.
  rewrite En.
  unfold Agd.bind at 1.
  assert (Hcb : Agd.when (Agd.has_callback cfg)
                  (Agd.emit (Agd.Callback (x :: rest))) l
                = (Agd.Ok tt,
                   l ++ (if Agd.has_callback cfg
                         then [Agd.Callback (x :: rest)] else []))).
  { destruct (Agd.has_callback cfg); simpl; [reflexivity|].
    unfold Agd.ret. rewrite app_nil_r. reflexivity. }
  rewrite Hcb.
  simpl Agd.agd_loop.
  unfold Agd.bind at 1, Agd.agd_iteration, Agd.bind at 1.
  unfold Agd.compute_grads. rewrite Hg.
  unfold Agd.init_state.
  cbn [Agd.args Agd.grads Agd.lr Agd.opt Agd.args_hist].
  rewrite Hz, Hnone.
  unfold Agd.bind, Agd.emit, Agd.ret.
  assert (Hn : Agd.no_grad (Agd.assign (map (fun _ : tensor => None)
                                           (x :: rest)) []) = true).
  { simpl. clear. induction rest as [|y rest IH]; simpl; trivial. }
  rewrite Hn. unfold Agd.lift.
  rewrite <- !app_assoc. reflexivity.
Qed.

End AgdDriver.

Section AgdExamples.

Lemma agd_zero_budget_raises_witness :
  [Ex.x0] <> [] /\
  exists msg,
    Agd.minimize_agd Agd.ref_ops (Some Agd.quad_grad) Agd.zero_it_config
                     [Ex.x0] []
    = (Agd.Err (Agd.ZeroDivisionError msg), []).
Proof.
  split; [discriminate|].
  apply (agd_zero_budget_raises Agd.ref_ops (Some Agd.quad_grad)
           Agd.zero_it_config [Ex.x0] []).
  - discriminate.
  - left. reflexivity.
Defined.

Lemma agd_runs_whole_budget_witness :
  Agd.minimize_agd Agd.ref_ops (Some Agd.quad_grad) Agd.two_it_config
                   [Ex.x0] []
    = (Agd.Ok Agd.ex_result, snd Agd.ex_run) /\
  exists gam hist,
    Agd.schedule_factor Agd.ref_ops Agd.two_it_config = Agd.Ok gam /\
    length hist = 2 /\
    fst Agd.ex_result = Agd.pack (last hist [Ex.x0]) /\
    snd Agd.ex_result = Some (map Agd.pack ([Ex.x0] :: hist)).
Proof.
  split; [vm_compute; reflexivity|].
  destruct (agd_runs_whole_budget Agd.ref_ops (Some Agd.quad_grad)
              Agd.two_it_config [Ex.x0]
              (fst Agd.ex_result) (snd Agd.ex_result) [] (snd Agd.ex_run)
              ltac:(vm_compute; reflexivity))
    as (gam & hist & Hgam & Hlen & Hr & Hh & _).
  exists gam, hist. auto.
Defined.

Lemma agd_no_gradient_raises_witness :
  (0 < Agd.max_it Agd.two_it_config)%Z /\
  Agd.schedule_factor Agd.ref_ops Agd.two_it_config = Agd.Ok Agd.ex_gam /\
  exists msg,
    Agd.minimize_agd Agd.ref_ops (Some Agd.no_grad_fn) Agd.two_it_config
                     [Ex.x0] []
    = (Agd.Err (Agd.AttributeError msg),
       [Agd.Callback [Ex.x0]; Agd.CallF [Ex.x0]; Agd.CallG [Ex.x0]]).
Proof.
  split; [reflexivity|]. split; [vm_compute; reflexivity|].
  apply (agd_no_gradient_raises Agd.ref_ops (Some Agd.no_grad_fn)
           Agd.two_it_config [Ex.x0] Agd.no_grad_fn Agd.ex_gam 0 []).
  - reflexivity.
  - discriminate.
  - reflexivity.
  - vm_compute. reflexivity.
  - reflexivity.
  - reflexivity.
  - reflexivity.
Defined.

End AgdExamples.
